(* ===== verification/_CoqProject ===== *)
-Q . S2P
Prelude.v
Score.v
MultiArray.v
Kernel.v
ModelTests.v
ModelBuilder.v
ModelSetup.v
Incumbent.v
TabuSearchPrint.v
Memory.v
Penalty.v
SolverTypes.v
Solver.v
SolveResult.v
QapMain.v
