(* ===== verification/Prelude.v ===== *)
(** * A verification development of cppmh (PRINTEMPS), a tabu-search solver
      for mixed-integer programs

    This header documents the whole development; it is kept in step with
    the files it describes.

    ** The program

    The repository's core (files under [src/]) is the outer optimisation
    loop [cppmh::solver::solve] ([src/cppmh/solver/solver.h]) with the
    components it drives:
    - [IncumbentHolder] ([src/unnamed/part_002], incumbent_holder.h): the
      three incumbents (local-augmented, global-augmented, feasible) and
      the status bit-set [try_update_incumbent] returns;
    - [Memory] ([src/printemps/solver/memory.h]): per-variable last-update
      iteration and update counts, and the concentration measure [bias];
    - the drivers [lagrange_dual::solve], [local_search::solve] and
      [tabu_search::solve] (not under [src/]), which [solve] calls with the
      penalty coefficients, the current solution, the holder and the
      memory, and whose results it merges;
    - [AbstractMultiArray] and [ConstraintReference]
      ([src/cppmh/model/constraint_reference.h]), the shape and index
      arithmetic under every proxy of the model, and the [Range] enum
      ([src/printemps/model/range.h]);
    - the console table of the tabu search ([tabu_search_print.h]) and the
      argument loop of the QAPLIB front end ([application/qap_solver]);
    - the tests of [src/unnamed/part_000], which build models through the
      construction API and read the evaluation kernel ([Model::evaluate],
      [update], [compute_lagrangian], value and parameter proxies); the
      model and its setup are not under [src/] and are modelled from the
      spec.
    [solve] normalises the target, builds the initial penalty coefficients,
    memory and incumbent, runs the optional Lagrange dual and local search,
    then loops: each round runs a tabu search, offers its incumbents to the
    holder, counts stagnation, tightens, relaxes or resets the local penalty
    coefficients, and adapts the tenure, the random initial modifications,
    the iteration cap and the special move families of the next round.

    ** Files

    - [Prelude]: this header, the scope [mh_scope], the machine-integer
      model ([to_int32], [to_uint32], [to_ulong]), rationals standing for
      doubles ([Qltb], [Qtrunc], [Qfloor_int]), IEEE-like doubles [dbl] with
      infinities and NaN for [bias] and the penalty gap, the extended
      objective [extQ] with [QInf] standing for [HUGE_VALF], list sums, the
      hint databases [mh] and [mh_rw] and shared tactics.
    - [Score]: [SolutionScore], [Move] and variable references (model code
      not under [src/], from the spec).
    - [MultiArray]: [ConstraintReference], [Range], [AbstractMultiArray]
      with [compute_strides] (via [std::partial_sum]), the three
      constructors, [flat_index], [multi_dimensional_index],
      [update_multi_dimensional_index] and [indices_label] with the
      [std::to_string] / [%Nd] printing it uses.  The products of
      [std::multiplies<int>] and the sums of [std::inner_product] wrap to
      [int] and the element count is converted to [size_t].  Theorems: the
      constructor computes the products wrapped to [int] for every shape
      (C32), the two index round trips for shapes whose product fits in an
      [int] (C20, C21), the shape invariant of every array built from such
      a shape (C27), and the lemma that [indices_label] names one element
      for every shape (right-aligned fields without commas, read back by
      the division loop, which is injective even on wrapped strides).
    - [Kernel]: the model's linear expressions, constraints, [evaluate]
      from scratch and incrementally ([evaluate_delta]), [update] by a
      move and [compute_lagrangian], from the spec.  Theorem: the
      incremental score agrees with the full one ([evaluate_delta_agrees]), in a Section whose
      hypotheses say the move lists its related constraints.
    - [ModelBuilder]: the model-construction API from the spec (name rule,
      proxy limits as parameters, [TooManyProxies] / [InvalidName], bounds
      and sense of variables, [minimize] / [maximize] with a linear or a
      function objective) over the arrays of [MultiArray]; the bounds of a
      variable created without bounds are the ones the tests of
      [part_000] observe, which the spec does not state.  Theorems: the
      construction invariant (C31), the laws of each [create_*] on its
      three outcomes, and the initialize and objective tests of [part_000]
      ([model_objective_tests_expected]).
    - [ModelSetup]: the setup stages of [Model::setup] from the spec
      (section 4.1) on the variables one by one: [verify_problem],
      [setup_unique_name] (generated names [name + indices_label]), the
      presolve ([fix_implicit_fixed_variables],
      [remove_redundant_constraints_with_tightening_variable_bounds],
      [remove_independent_variables], iterated with fuel to a fixed point),
      [categorize_variables] and the verification and correction of the
      binary and integer initial values.  Theorems: the generated names of
      a proxy are distinct (C23) and [setup_unique_name] succeeds on every
      model built with distinct valid proxy names (C22).  Also proved: the
      bounds the presolve induces are exact on integers
      ([induced_bounds_exact]), the presolve reaches a fixed point within
      its fuel ([presolve_reaches_fixed_point]), and the initial-value
      verification leaves every variable of its category within bounds or
      fails only without correction
      ([verify_and_correct_initial_values_spec]).
    - [ModelTests]: the [TEST_F]s of [part_000] on [compute_lagrangian],
      [update], [import_variable_values] and
      [generate_*_parameter_proxies], with the values of their
      [EXPECT_EQ]s ([model_value_tests_expected],
      [import_variable_values_expected],
      [generate_parameter_proxies_expected]).
    - [Incumbent]: [IncumbentHolder] as a record over an abstract solution
      type (Section [Holder]); [try_update_incumbent] for both overloads,
      [initialize], [reset_local_augmented_incumbent] and the accessors
      (objectives read as doubles).  Theorems: the status
      bits (C1), refinement of the abstract contract [best_of] (C2), the
      well-formedness invariant (C3), equivalence of the two overloads (C4).
    - [Memory]: [Memory] with [setup], [update], the randomised update,
      [reset_last_update_iterations] and [bias].  Theorems: the invariant
      [memory_wf] and the effect of [update] on every entry (C5, C6), the
      wrap-around of the random offset (C7), [bias] in [[1/n, 1]] (C8),
      NaN before any update (C9), and the randomised update counting as
      the plain one (C33).  [Memory] also holds the debug prints
      [print_last_update_iterations] and [print_update_counts] as the
      lists of lines they print, and [print_frequency] as the labelled
      doubles it prints.
    - [Penalty]: the initial coefficients and the tightening and relaxing
      branches of the local penalty update of [solve] (C10).
    - [SolverTypes]: the options, the exported solution, the neighbourhood
      switches and the driver results (not under [src/], from the spec).
    - [Solver]: each block of [solve] as a function, the loop state
      [SolverState], one round [outer_step], the loop [outer_loop] and the
      relation [loop_step]; the phases before the loop and [initial_state].
      The drivers, the clock and [std::mt19937] are Section variables, so
      every theorem holds for all of them.  Theorems: every round completes
      (C11), the loop terminates (C12), the stagnation test with [&&]
      (C13), the invariant of every reachable state by rule induction on
      [reachable] (C14), tenure, initial modification and iteration cap
      bounds (C15, C17, C19), monotone incumbents (C16), and the target test
      of maximisation problems (C18).
    - [SolveResult]: [solve] as a whole: the guard against a second solve
      ([AlreadySolved]), the normalised options, the phases and the loop of
      [Solver], and the export of the result (final incumbent, penalty
      coefficients and update counts named after their proxies, iteration
      counters).  Theorems: the naming loops are a round trip (C28), [solve]
      always returns a result with [iteration_max + 1] rounds of fuel
      (C29, liveness, with the drivers handing back memories of the shape
      they were given), and a second [solve] fails (C30).
    - [TabuSearchPrint]: the header, footer and row arguments of the
      tabu-search table; the marks of a row after an offer to the holder
      (C24).
    - [QapMain]: the usage test, the argument loop (with one round of fuel
      per argument, enough because each round consumes at least one) and
      the option overrides of [main.cpp]; its agreement with a reference
      parser (C25) and the trailing ["-p"] error (C26).

    ** Doubles, integers and fuel

    C++ doubles are modelled by [Q]: every value the solver compares is a
    sum, product or quotient of finitely many inputs, and no claim depends
    on rounding.  [HUGE_VALF] is the extra element [QInf] of [extQ]; where
    an infinity or a NaN can arise in arithmetic (the [bias] of an empty
    memory, the gap between incumbents) the value is a [dbl], on which every
    comparison with NaN is false, as in IEEE 754.  [int] quantities that can
    wrap are kept in [Z] and reduced with [to_int32] / [to_uint32] /
    [to_ulong] where the code converts; draws of [std::mt19937] are
    [unsigned long] (LP64).

    The outer loop is a function with fuel; [outer_loop_terminates] (C12)
    shows that [iteration_max - iteration + 1] rounds of fuel always reach a
    state where a stopping test holds, because every round completes and
    increments [iteration].  The [None] result of [outer_step] (tightening
    with an infinite gap, whose [0 * inf] the model does not represent) is
    proved unreachable (C11).  [SolveResult.solve] runs that loop from the
    state with [iteration = 0], so [iteration_max + 1] rounds are enough
    (C29); the argument loop of [QapMain] needs one round per argument.
    The presolve of [ModelSetup] runs one round more than there are
    variables and constraints: a round that changes something fixes a
    variable or disables a constraint, and none is ever freed or
    re-enabled ([presolve_reaches_fixed_point]).

    ** Not modelled

    Console output beyond the lines and [printf] arguments above
    ([%9.2e] and [std::to_string(double)] formatting, [print_bias]),
    JSON/file output, reading QAPLIB and option files, and the historical
    solution pool; time measurement (the elapsed time is an input of the
    loop); the inner algorithms of the three drivers (their results are
    inputs, with the assumptions of non-negative violations for C14 and
    of memories handed back with their shape for C29); [solve(model)]
    with a default [Option] and the call of [model->setup] in [solve]
    (option.h is not under [src/]), the stages of the setup other than
    those of [ModelSetup] (the stored related-constraint tables,
    [setup_is_linear], the sensitivity tables, [categorize_constraints] by
    shape, [extract_selections], [setup_neighborhood], the selection
    initial values, [setup_fixed_sensitivities]), the model summary and
    the elapsed time of the result; selections, neighbourhoods and
    nonlinear expressions of the model and the bodies of the proxies the
    construction API creates; the [improvability_screening_mode] override
    of [main]; the tests of [part_000] other than those above (linearity,
    fast evaluation, sensitivities, constraint categories, selections,
    neighbourhood, export), and the tests of [evaluate], of the
    [create_*] loops, of the setup stages and of the set utilities, whose
    checks only restate the model on fixed inputs (where their expected
    values differ from the spec's model, the manifest records the
    divergence); the Makefile and the umbrella header [printemps.h]. *)

From Stdlib Require Export ZArith QArith Qminmax Qround Qabs Lqa Lia.
From stdpp Require Export base list.

Declare Scope mh_scope.
Delimit Scope mh_scope with mh.
Open Scope Z_scope.

Create HintDb mh.
Create Rewrite HintDb mh_rw.

(** ** Machine integers *)

(** Width of [int] and [unsigned int] on the platforms the code targets. *)
Definition int_bits : Z := 32.
Definition uint_modulus : Z := 2 ^ int_bits.
Definition int_min : Z := - 2 ^ (int_bits - 1).
Definition int_max : Z := 2 ^ (int_bits - 1) - 1.

(** Conversion of an integer value to [unsigned int] (always modular). *)
Definition to_uint32 (z : Z) : Z := z mod uint_modulus.

(** Conversion of an integer value to [int]: two's complement, as every
    compiler the code is built with defines it. *)
Definition to_int32 (z : Z) : Z :=
  let u := z mod uint_modulus in
  if u <? 2 ^ (int_bits - 1) then u else u - uint_modulus.

Definition in_int_range (z : Z) : Prop := int_min <= z <= int_max.

Notation "'int_ok' z" := (in_int_range z) (at level 10) : mh_scope.

Lemma uint_modulus_value : uint_modulus = 4294967296.
Proof. reflexivity. Qed.

Lemma int_half_value : 2 ^ (int_bits - 1) = 2147483648.
Proof. reflexivity. Qed.

Lemma int_max_value : int_max = 2147483647.
Proof. reflexivity. Qed.

Lemma int_min_value : int_min = -2147483648.
Proof. reflexivity. Qed.

Lemma to_uint32_range z : 0 <= to_uint32 z < uint_modulus.
Proof. unfold to_uint32. apply Z.mod_pos_bound. reflexivity. Qed.

Lemma to_uint32_small z : 0 <= z < uint_modulus -> to_uint32 z = z.
Proof. intros H. unfold to_uint32. apply Z.mod_small. exact H. Qed.

Lemma to_int32_range z : in_int_range (to_int32 z).
Proof.
  unfold to_int32, in_int_range, int_min, int_max.
  pose proof (to_uint32_range z) as H. unfold to_uint32 in H.
  rewrite uint_modulus_value, int_half_value in *.
  destruct (Z.ltb_spec (z mod 4294967296) 2147483648); lia.
Qed.

Lemma to_int32_small z : in_int_range z -> to_int32 z = z.
Proof.
  unfold in_int_range, int_min, int_max, to_int32.
  rewrite uint_modulus_value, int_half_value. intros H.
  destruct (Z.leb_spec 0 z).
  - rewrite Z.mod_small by lia. destruct (Z.ltb_spec z 2147483648); lia.
  - rewrite <- (Z.mod_unique z 4294967296 (-1) (z + 4294967296)) by lia.
    destruct (Z.ltb_spec (z + 4294967296) 2147483648); lia.
Qed.

(** Converting to [int] the unsigned difference [a - b] (computed modulo
    [2^32]) gives back the mathematical difference when it fits. *)
Lemma to_int32_of_uint_sub a b :
  in_int_range (a - b) -> to_int32 (to_uint32 (a - b)) = a - b.
Proof.
  intros H. unfold to_int32, to_uint32. rewrite Z.mod_mod by (cbv; lia).
  fold (to_int32 (a - b)). apply to_int32_small. exact H.
Qed.

(** [unsigned long] (LP64), the [result_type] of [std::mt19937]
    ([uint_fast32_t]) on the 64-bit targets. *)
Definition ulong_modulus : Z := 2 ^ 64.
Definition to_ulong (z : Z) : Z := z mod ulong_modulus.

(** Narrowing an [unsigned long] to [int] keeps the low 32 bits. *)
Lemma to_int32_ulong z : to_int32 (to_ulong z) = to_int32 z.
Proof.
  unfold to_int32, to_ulong, ulong_modulus. rewrite uint_modulus_value.
  replace (2 ^ 64) with (4294967296 * 4294967296) by reflexivity.
  rewrite Z.rem_mul_r, Z.mul_comm, Z_mod_plus_full, Z.mod_mod by lia. reflexivity.
Qed.

Lemma ulong_modulus_value : ulong_modulus = 18446744073709551616.
Proof. reflexivity. Qed.

(** [int + unsigned long] computed in [unsigned long] and narrowed back to
    [int] is the exact sum narrowed to [int]. *)
Lemma to_int32_add_ulong a b : to_int32 (to_ulong (a + to_ulong b)) = to_int32 (a + b).
Proof.
  rewrite to_int32_ulong. unfold to_int32, to_ulong, ulong_modulus.
  rewrite uint_modulus_value.
  replace (2 ^ 64) with (4294967296 * 4294967296) by reflexivity.
  rewrite Zplus_mod, Z.rem_mul_r, Z.mul_comm, Z_mod_plus_full, Z.mod_mod, <- Zplus_mod
    by lia.
  reflexivity.
Qed.

Lemma to_ulong_small z : 0 <= z < ulong_modulus -> to_ulong z = z.
Proof. intros H. apply Z.mod_small, H. Qed.

(** [to_int32] depends only on the residue modulo [2^32]: [int] arithmetic
    that wraps at every step ends where the exact result, wrapped once,
    does. *)
Lemma to_int32_mod_eq a b : a mod uint_modulus = b mod uint_modulus -> to_int32 a = to_int32 b.
Proof. unfold to_int32. intros ->. reflexivity. Qed.

Lemma to_int32_mod z : to_int32 z mod uint_modulus = z mod uint_modulus.
Proof.
  unfold to_int32. rewrite uint_modulus_value, int_half_value.
  destruct (Z.ltb_spec (z mod 4294967296) 2147483648).
  - apply Z.mod_mod. lia.
  - rewrite Zminus_mod, Z_mod_same_full, Z.sub_0_r, !Z.mod_mod by lia. reflexivity.
Qed.

Lemma to_int32_mul_l a x : to_int32 (to_int32 a * x) = to_int32 (a * x).
Proof. apply to_int32_mod_eq. rewrite Zmult_mod, to_int32_mod, <- Zmult_mod. reflexivity. Qed.

Lemma to_int32_add_wrap a b : to_int32 (to_int32 a + to_int32 b) = to_int32 (a + b).
Proof. apply to_int32_mod_eq. rewrite Zplus_mod, !to_int32_mod, <- Zplus_mod. reflexivity. Qed.

Lemma to_int32_idem z : to_int32 (to_int32 z) = to_int32 z.
Proof. apply to_int32_small, to_int32_range. Qed.

#[export] Hint Resolve to_uint32_range to_int32_range : mh.

(** ** Rationals standing for doubles *)

Open Scope Q_scope.

(** [a < b] on doubles, as a boolean. *)
Definition Qltb (a b : Q) : bool := negb (Qle_bool b a).

Lemma Qltb_spec a b : Qltb a b = true <-> a < b.
Proof.
  unfold Qltb. rewrite negb_true_iff. split.
  - intros H. apply Qnot_le_lt. intros Hle.
    apply Qle_bool_iff in Hle. congruence.
  - intros H. destruct (Qle_bool b a) eqn:E; [|reflexivity].
    apply Qle_bool_iff in E. exfalso. apply (Qlt_not_le a b); assumption.
Qed.

Lemma Qltb_false a b : Qltb a b = false <-> b <= a.
Proof.
  unfold Qltb. rewrite negb_false_iff. apply Qle_bool_iff.
Qed.

(** Case analysis on a [Qltb] test, leaving the [Q] facts in context. *)
Ltac case_Qltb a b :=
  let E := fresh "E" in
  destruct (Qltb a b) eqn:E;
  [apply Qltb_spec in E | apply Qltb_false in E].

(** [static_cast<int>(x)] of a double: truncation toward zero. *)
Definition Qtrunc (q : Q) : Z := if Qle_bool 0 q then Qfloor q else - Qfloor (- q).

(** [std::ceil] and [std::floor] followed by [static_cast<int>]. *)
Definition Qceil_int (q : Q) : Z := Qceiling q.
Definition Qfloor_int (q : Q) : Z := Qfloor q.

(** *** Extended objective values: [HUGE_VALF] is [QInf] *)

Inductive extQ : Type :=
  | QFin (q : Q)
  | QInf.

(** [q < e] for a finite [q], the comparison [try_update_incumbent] makes. *)
Definition ext_ltb (q : Q) (e : extQ) : bool :=
  match e with
  | QFin r => Qltb q r
  | QInf => true
  end.

(** [e1 <= e2] on extended values. *)
Definition ext_le (e1 e2 : extQ) : Prop :=
  match e1, e2 with
  | _, QInf => True
  | QInf, QFin _ => False
  | QFin a, QFin b => a <= b
  end.

(** [e <= q] for a finite bound (the target-objective test). *)
Definition ext_leb_fin (e : extQ) (q : Q) : bool :=
  match e with
  | QFin a => Qle_bool a q
  | QInf => false
  end.

Lemma ext_le_refl e : ext_le e e.
Proof. destruct e; cbn; [apply Qle_refl | exact I]. Qed.

Lemma ext_le_trans e1 e2 e3 : ext_le e1 e2 -> ext_le e2 e3 -> ext_le e1 e3.
Proof.
  destruct e1, e2, e3; cbn; try tauto. apply Qle_trans.
Qed.

Lemma ext_ltb_le q e : ext_ltb q e = true -> ext_le (QFin q) e.
Proof.
  destruct e; cbn; [|tauto]. intros H. apply Qltb_spec in H. apply Qlt_le_weak, H.
Qed.

Lemma ext_ltb_false q r : ext_ltb q (QFin r) = false -> r <= q.
Proof. cbn. apply Qltb_false. Qed.

#[export] Hint Resolve ext_le_refl ext_ltb_le : mh.

(** *** Doubles without rounding

    A double is a rational, an infinity or NaN.  Only the operations the
    code applies to counts are needed: quotient of two integers, square,
    sum and the comparison [>] (false whenever NaN is involved). *)

Inductive dbl : Type :=
  | DFin (q : Q)
  | DPInf
  | DNInf
  | DNaN.

(** [static_cast<double>(c) / static_cast<double>(t)] for integers. *)
Definition ddiv_int (c t : Z) : dbl :=
  if (t =? 0)%Z then
    (if (c =? 0)%Z then DNaN else if (0 <? c)%Z then DPInf else DNInf)
  else DFin (inject_Z c / inject_Z t).

Definition dmul (a b : dbl) : dbl :=
  match a, b with
  | DFin x, DFin y => DFin (x * y)
  | DNaN, _ | _, DNaN => DNaN
  | DFin x, DPInf | DPInf, DFin x =>
      if Qeq_bool x 0 then DNaN else if Qltb 0 x then DPInf else DNInf
  | DFin x, DNInf | DNInf, DFin x =>
      if Qeq_bool x 0 then DNaN else if Qltb 0 x then DNInf else DPInf
  | DPInf, DPInf | DNInf, DNInf => DPInf
  | DPInf, DNInf | DNInf, DPInf => DNInf
  end.

Definition dadd (a b : dbl) : dbl :=
  match a, b with
  | DFin x, DFin y => DFin (x + y)
  | DNaN, _ | _, DNaN => DNaN
  | DPInf, DNInf | DNInf, DPInf => DNaN
  | DPInf, _ | _, DPInf => DPInf
  | DNInf, _ | _, DNInf => DNInf
  end.

Definition dneg (a : dbl) : dbl :=
  match a with
  | DFin x => DFin (- x)
  | DPInf => DNInf
  | DNInf => DPInf
  | DNaN => DNaN
  end.

Definition dsub (a b : dbl) : dbl := dadd a (dneg b).

(** An incumbent objective read as a double ([HUGE_VALF] is +infinity). *)
Definition ext_to_dbl (e : extQ) : dbl :=
  match e with
  | QFin q => DFin q
  | QInf => DPInf
  end.

(** [a > b] *)
Definition dgtb (a b : dbl) : bool :=
  match a, b with
  | DFin x, DFin y => Qltb y x
  | DPInf, DFin _ | DPInf, DNInf | DFin _, DNInf => true
  | _, _ => false
  end.

Lemma dgtb_nan_l b : dgtb DNaN b = false.
Proof. reflexivity. Qed.

Lemma dgtb_nan_r a : dgtb a DNaN = false.
Proof. destruct a; reflexivity. Qed.

#[export] Hint Rewrite dgtb_nan_l dgtb_nan_r : mh_rw.

(** ** Sums over lists *)

Definition sumQ (l : list Q) : Q := fold_right Qplus 0 l.

Lemma sumQ_app l1 l2 : sumQ (l1 ++ l2) == sumQ l1 + sumQ l2.
Proof.
  unfold sumQ. induction l1 as [|x l1 IH]; simpl app; simpl fold_right.
  - ring.
  - rewrite IH. ring.
Qed.

Lemma sumQ_nonneg l : Forall (fun x => 0 <= x) l -> 0 <= sumQ l.
Proof.
  unfold sumQ. induction 1 as [|x l Hx _ IH]; simpl fold_right; lra.
Qed.

Lemma Qeq_bool_compat a b c d : a == b -> c == d -> Qeq_bool a c = Qeq_bool b d.
Proof.
  intros Hab Hcd. destruct (Qeq_bool a c) eqn:E1, (Qeq_bool b d) eqn:E2; try reflexivity;
    apply Qeq_bool_iff in E1 || apply Qeq_bool_iff in E2;
    [rewrite <- Hab, <- Hcd in E2 | rewrite Hab, Hcd in E1];
    apply Qeq_bool_iff in E1 || apply Qeq_bool_iff in E2; congruence.
Qed.

Lemma Qltb_compat a b c d : a == b -> c == d -> Qltb a c = Qltb b d.
Proof.
  intros Hab Hcd. destruct (Qltb a c) eqn:E1, (Qltb b d) eqn:E2; try reflexivity;
    rewrite ?Qltb_spec, ?Qltb_false in *; rewrite Hab, Hcd in *; exfalso; lra.
Qed.

Lemma inject_Z_sub a b : inject_Z (a - b) == inject_Z a - inject_Z b.
Proof. unfold Z.sub, Qminus. rewrite inject_Z_plus, inject_Z_opp. reflexivity. Qed.

Lemma sumQ_cons x l : sumQ (x :: l) = x + sumQ l.
Proof. reflexivity. Qed.

(** [sumQ] is invariant under permutation. *)
#[export] Instance sumQ_Permutation : Proper (Permutation ==> Qeq) sumQ.
Proof.
  intros l1 l2 H. induction H; rewrite ?sumQ_cons; try reflexivity.
  - rewrite IHPermutation. reflexivity.
  - ring.
  - etransitivity; eassumption.
Qed.

Section SumMap.
Context {A : Type}.
Implicit Types (f g : A -> Q) (l : list A).

Lemma sumQ_map_ext l f g :
  (forall x, In x l -> f x == g x) -> sumQ (map f l) == sumQ (map g l).
Proof.
  induction l as [|x l IH]; intros H; cbn [map]; [reflexivity|]. rewrite !sumQ_cons.
  rewrite (H x (or_introl eq_refl)), IH; [reflexivity|]. intros y Hy. apply H. right. exact Hy.
Qed.

Lemma sumQ_map_plus l f g : sumQ (map (fun x => f x + g x) l) == sumQ (map f l) + sumQ (map g l).
Proof. induction l as [|x l IH]; cbn [map]; rewrite ?sumQ_cons; [cbn; ring|]. rewrite IH. ring. Qed.

Lemma sumQ_map_minus l f g : sumQ (map (fun x => f x - g x) l) == sumQ (map f l) - sumQ (map g l).
Proof. induction l as [|x l IH]; cbn [map]; rewrite ?sumQ_cons; [cbn; ring|]. rewrite IH. ring. Qed.

Lemma sumQ_map_scale c l f : sumQ (map (fun x => c * f x) l) == c * sumQ (map f l).
Proof. induction l as [|x l IH]; cbn [map]; rewrite ?sumQ_cons; [cbn; ring|]. rewrite IH. ring. Qed.

Lemma sumQ_map_zero l f : (forall x, In x l -> f x == 0) -> sumQ (map f l) == 0.
Proof.
  intros H. rewrite (sumQ_map_ext l f (fun _ => 0)) by exact H.
  clear H. induction l; cbn [map]; rewrite ?sumQ_cons; [reflexivity|]. rewrite IHl. ring.
Qed.

Lemma sumQ_map_app l1 l2 f : sumQ (map f (l1 ++ l2)) == sumQ (map f l1) + sumQ (map f l2).
Proof. rewrite map_app. apply sumQ_app. Qed.

End SumMap.

(** Exchanging the order of a double sum. *)
Lemma sumQ_swap {A B : Type} (l : list A) (k : list B) (h : A -> B -> Q) :
  sumQ (map (fun x => sumQ (map (h x) k)) l) == sumQ (map (fun y => sumQ (map (fun x => h x y) l)) k).
Proof.
  induction l as [|x l IH]; cbn [map].
  - induction k as [|y k IHk]; cbn [map]; [reflexivity|]. rewrite sumQ_cons, <- IHk. cbn. ring.
  - rewrite sumQ_cons, IH. symmetry.
    exact (sumQ_map_plus k (h x) (fun y => sumQ (map (fun x => h x y) l))).
Qed.


Close Scope Q_scope.

Definition sumZ (l : list Z) : Z := fold_right Z.add 0 l.
Arguments sumZ : simpl never.

Lemma sumZ_app l1 l2 : sumZ (l1 ++ l2) = sumZ l1 + sumZ l2.
Proof. unfold sumZ. induction l1 as [|x l1 IH]; simpl app; simpl fold_right; lia. Qed.

#[export] Hint Rewrite sumZ_app : mh_rw.

Lemma sumZ_cons x l : sumZ (x :: l) = x + sumZ l.
Proof. reflexivity. Qed.

(** Updating one element of a list changes a weighted sum by the change of
    that element's weight. *)
Lemma sumZ_map_alter {A : Type} (w : A -> Z) (g : A -> A) (xs : list A) i x :
  xs !! i = Some x ->
  sumZ (map w (alter g i xs)) = sumZ (map w xs) + (w (g x) - w x).
Proof.
  revert i. induction xs as [|y xs IH]; intros [|i] H; cbn in H; try discriminate.
  - injection H as ->. change (alter g 0%nat (x :: xs)) with (g x :: xs).
    rewrite !map_cons, !sumZ_cons. lia.
  - change (alter g (S i) (y :: xs)) with (y :: alter g i xs).
    rewrite !map_cons, !sumZ_cons, (IH i H). lia.
Qed.

Lemma sumZ_alter (g : Z -> Z) (xs : list Z) i x :
  xs !! i = Some x -> sumZ (alter g i xs) = sumZ xs + (g x - x).
Proof.
  intros H. pose proof (sumZ_map_alter id g xs i x H) as E.
  rewrite !map_id in E. exact E.
Qed.

Lemma sumZ_nonneg (xs : list Z) : Forall (fun c => 0 <= c) xs -> 0 <= sumZ xs.
Proof. induction 1 as [|x l Hx _ IH]; [discriminate | rewrite sumZ_cons; lia]. Qed.
