(* ===== verification/Score.v ===== *)
(** The [SolutionScore] value object that [Model::evaluate] returns and
    every driver compares (model/solution_score.h, not under [src/]: the
    fields follow the spec, section 3, and the tests of [evaluate] in
    [src/unnamed/part_000]).  All objective values are those of the
    minimisation problem, as the code keeps them. *)

From S2P Require Import Prelude.

Local Open Scope Q_scope.

Record SolutionScore : Type := mkSolutionScore {
  objective : Q;
  total_violation : Q;
  local_penalty : Q;
  global_penalty : Q;
  local_augmented_objective : Q;
  global_augmented_objective : Q;
  is_feasible : bool;
  is_objective_improvable : bool;
  is_constraint_improvable : bool
}.

(** A value-initialised [SolutionScore] (all members zero / false). *)
Definition default_score : SolutionScore :=
  mkSolutionScore 0 0 0 0 0 0 false false false.

(** The relation between the fields that [evaluate] establishes: each
    augmented objective is the objective plus the matching penalty, and
    feasibility is the absence of violation. *)
Definition score_wf (s : SolutionScore) : Prop :=
  local_augmented_objective s == objective s + local_penalty s /\
  global_augmented_objective s == objective s + global_penalty s /\
  (is_feasible s = true <-> total_violation s == 0).

(** Two scores are equal field by field, the numbers as rationals. *)
Definition score_eq (a b : SolutionScore) : Prop :=
  objective a == objective b /\ total_violation a == total_violation b /\
  local_penalty a == local_penalty b /\ global_penalty a == global_penalty b /\
  local_augmented_objective a == local_augmented_objective b /\
  global_augmented_objective a == global_augmented_objective b /\
  is_feasible a = is_feasible b /\ is_objective_improvable a = is_objective_improvable b /\
  is_constraint_improvable a = is_constraint_improvable b.

#[export] Instance score_eq_equivalence : Equivalence score_eq.
Proof.
  split.
  - intros a. repeat split; reflexivity.
  - intros a b H. unfold score_eq in *. intuition (symmetry; assumption).
  - intros a b c Hab Hbc. unfold score_eq in *.
    intuition (etransitivity; eassumption).
Qed.

(** ** Moves (model/move.h, not under [src/]) *)

(** A variable is referred to by the pair ([proxy_index], [flat_index]) of
    the proxy that owns it and its position in that proxy. *)
Record VarRef : Type := mkVarRef {
  proxy_index : nat;
  flat_index : nat
}.

Inductive MoveSense : Type :=
  | MS_Binary | MS_Integer | MS_Selection | MS_Aggregation | MS_Precedence
  | MS_VariableBound | MS_Exclusive | MS_Chain | MS_UserDefined.

(** A constraint is referred to in the same way by its proxy and its
    position in it. *)
Record ConstraintRef : Type := mkConstraintRef {
  constraint_proxy_index : nat;
  constraint_flat_index : nat
}.

(** A move: its sense, its ordered alterations (variable, new value) and
    the constraints its variables appear in ([related_constraint_ptrs]). *)
Record Move : Type := mkMove {
  sense : MoveSense;
  alterations : list (VarRef * Z);
  related_constraint_ptrs : list ConstraintRef
}.

#[export] Instance VarRef_eq_dec : EqDecision VarRef.
Proof. solve_decision. Defined.

#[export] Instance ConstraintRef_eq_dec : EqDecision ConstraintRef.
Proof. solve_decision. Defined.
