(* ===== verification/MultiArray.v ===== *)
(** [ConstraintReference] and [AbstractMultiArray]
    (src/cppmh/model/constraint_reference.h, which holds both headers).

    [AbstractMultiArray] is the base of every proxy of variables,
    expressions, constraints and values: a shape, row-major strides, the
    conversions between a flat index and a multi-dimensional index, and
    the label ["[ i,  j]"] printed after a proxy's name.  [int] and
    [size_t] members are kept in [Z] at their width: the products of
    [std::multiplies<int>] and the sums of [std::inner_product] wrap to
    [int] ([to_int32], two's complement, what the compilers do with the
    overflow the standard leaves undefined) and the element count is
    converted to [size_t] ([to_ulong]).  The index round trips assume
    positive extents whose product fits in an [int]; the exact wrap of
    the constructor holds for every shape of [int] extents and the
    injectivity of the labels for every shape.  A call the C++ code leaves undefined or lets throw
    ([std::vector::at] on an empty shape, reading past the end of the
    strides) is [None]. *)

From Stdlib Require Import String Ascii DecimalN.
From S2P Require Import Prelude.

Local Open Scope Z_scope.

(** ** [ConstraintReference] (lines 18-42) *)

Section ConstraintReferenceDef.

Context {ConstraintPtr : Type}.

Record ConstraintReference : Type := mkConstraintReference {
  constraint_ptrs : list ConstraintPtr;
  selection_constraint_ptrs : list ConstraintPtr;
  disabled_constraint_ptrs : list ConstraintPtr
}.

(** [initialize()] clears the three lists; the constructor calls it. *)
Definition initialize_constraint_reference (r : ConstraintReference) : ConstraintReference :=
  {| constraint_ptrs := [];
     selection_constraint_ptrs := [];
     disabled_constraint_ptrs := [] |}.

End ConstraintReferenceDef.

Arguments ConstraintReference : clear implicits.

(** ** Decimal printing *)

(** The digits of a [Decimal.uint], most significant first. *)
Fixpoint uint_to_string (u : Decimal.uint) : string :=
  match u with
  | Decimal.Nil => EmptyString
  | Decimal.D0 u => String "0"%char (uint_to_string u)
  | Decimal.D1 u => String "1"%char (uint_to_string u)
  | Decimal.D2 u => String "2"%char (uint_to_string u)
  | Decimal.D3 u => String "3"%char (uint_to_string u)
  | Decimal.D4 u => String "4"%char (uint_to_string u)
  | Decimal.D5 u => String "5"%char (uint_to_string u)
  | Decimal.D6 u => String "6"%char (uint_to_string u)
  | Decimal.D7 u => String "7"%char (uint_to_string u)
  | Decimal.D8 u => String "8"%char (uint_to_string u)
  | Decimal.D9 u => String "9"%char (uint_to_string u)
  end.

(** [std::to_string(int)]. *)
Definition int_to_string (z : Z) : string :=
  if z <? 0 then String "-"%char (uint_to_string (N.to_uint (Z.to_N (- z))))
  else uint_to_string (N.to_uint (Z.to_N z)).

(** [utility::to_string(value, "%<w>d")]: [snprintf] right-aligns the
    decimal form in a field of [w] characters (utility.h is not under
    [src/]). *)
Fixpoint spaces (n : nat) : string :=
  match n with O => EmptyString | S n => String " "%char (spaces n) end.

Definition format_int (width z : Z) : string :=
  let s := int_to_string z in
  (spaces (Z.to_nat width - String.length s) ++ s)%string.

(** [utility::max] of a non-empty vector. *)
Definition vector_max (l : list Z) : Z :=
  match l with [] => 0 | x :: xs => fold_left Z.max xs x end.

(** ** [Range] (src/printemps/model/range.h, line 12)

    [enum Range : int { All = -1 }]: the one enumerator, and the [int] it
    stands for where a proxy index accepts it. *)
Inductive Range : Type := All.

Definition Range_to_int (r : Range) : Z := match r with All => -1 end.

(** ** [AbstractMultiArray] (lines 65-208) *)

Record AbstractMultiArray : Type := mkAbstractMultiArray {
  m_id : Z;
  m_number_of_dimensions : nat;
  m_number_of_elements : Z;
  m_max_digits : Z;
  m_shape : list Z;
  m_strides : list Z
}.

(** [std::partial_sum(first, last, out, std::multiplies<int>())]: the
    running products of the range, each computed in [int]. *)
Fixpoint partial_products (acc : Z) (l : list Z) : list Z :=
  match l with
  | [] => []
  | x :: xs => let p := to_int32 (acc * x) in p :: partial_products p xs
  end.

Definition partial_sum_mul (l : list Z) : list Z :=
  match l with
  | [] => []
  | x :: xs => x :: partial_products x xs
  end.

(** [compute_strides()]: [m_strides] resized to the number of dimensions,
    its last entry set to 1 with [at] (which throws on an empty vector),
    and the running products of the shape read backwards, without its
    first extent, written backwards from the second-to-last entry. *)
Definition compute_strides (dims : nat) (shape : list Z) : option (list Z) :=
  match dims with
  | O => None
  | S d => Some (rev (1 :: partial_sum_mul (take d (rev shape))))
  end.

Definition with_strides (id : Z) (elements : Z) (dims : nat) (max_digits : Z)
    (shape : list Z) : option AbstractMultiArray :=
  strides ← compute_strides dims shape;
  Some (mkAbstractMultiArray id dims elements max_digits shape strides).

(** [std::accumulate(first, last, 1, std::multiplies<int>())]. *)
Definition accumulate_mul (shape : list Z) : Z :=
  fold_left (fun acc x => to_int32 (acc * x)) shape 1.

(** The three public constructors; [m_number_of_elements] is a [size_t]
    assigned an [int]. *)
Definition new_scalar_array (id : Z) : option AbstractMultiArray :=
  with_strides id 1 1 1 [1].

Definition new_vector_array (id n : Z) : option AbstractMultiArray :=
  with_strides id (to_ulong n) 1 (Z.of_nat (String.length (int_to_string n))) [n].

Definition new_multi_array (id : Z) (shape : list Z) : option AbstractMultiArray :=
  with_strides id (to_ulong (accumulate_mul shape)) (length shape)
    (Z.of_nat (String.length (int_to_string (vector_max shape)))) shape.

(** [std::inner_product(index.begin(), index.end(), m_strides.begin(), 0)]
    ([init = init + *first1 * *first2], both in [int]); reading past the
    end of the strides is undefined. *)
Fixpoint inner_product (xs ys : list Z) (init : Z) : option Z :=
  match xs, ys with
  | [], _ => Some init
  | x :: xs', y :: ys' => inner_product xs' ys' (to_int32 (init + to_int32 (x * y)))
  | _ :: _, [] => None
  end.

Definition flat_index (a : AbstractMultiArray) (index : list Z) : option Z :=
  inner_product index (m_strides a) 0.

(** The loop of [multi_dimensional_index]: [remain / m_strides[i]] and
    [remain % m_strides[i]] with C++'s truncating division.  A stride is
    0 only when a product wrapped to a multiple of [2^32], and then so did
    the element count, which leaves no flat index to divide. *)
Fixpoint divide_by_strides (strides : list Z) (remain : Z) : list Z :=
  match strides with
  | [] => []
  | s :: ss => Z.quot remain s :: divide_by_strides ss (Z.rem remain s)
  end.

Definition multi_dimensional_index (a : AbstractMultiArray) (flat : Z) : list Z :=
  divide_by_strides (take (m_number_of_dimensions a) (m_strides a)) flat.

(** [update_multi_dimensional_index(&index, flat)]: the same values written
    into the first entries of the caller's vector, which must be long
    enough. *)
Definition update_multi_dimensional_index (a : AbstractMultiArray) (index : list Z)
    (flat : Z) : option (list Z) :=
  if decide (m_number_of_dimensions a <= length index)%nat
  then Some (multi_dimensional_index a flat ++ drop (m_number_of_dimensions a) index)
  else None.

(** [indices_label(flat)]: empty for a single element, otherwise the
    indices in fields of [m_max_digits] characters, separated by [", "],
    between brackets. *)
Definition indices_label (a : AbstractMultiArray) (flat : Z) : string :=
  if m_number_of_elements a =? 1 then EmptyString
  else ("[" ++ String.concat ", "
                 (map (format_int (m_max_digits a)) (multi_dimensional_index a flat))
            ++ "]")%string.

(** ** Strides are suffix products, reduced to [int] *)

Definition prod (l : list Z) : Z := fold_right Z.mul 1 l.

(** Row-major strides: entry [i] is the product of the extents after [i]. *)
Fixpoint tail_products (shape : list Z) : list Z :=
  match shape with
  | [] => []
  | _ :: t => prod t :: tail_products t
  end.

(** An index within the shape, coordinate by coordinate. *)
Definition in_shape (shape idx : list Z) : Prop := Forall2 (fun s i => 0 <= i < s) shape idx.

(** The running products and the inner product in exact arithmetic, the
    values [int] arithmetic reduces. *)
Fixpoint running_products (acc : Z) (l : list Z) : list Z :=
  match l with
  | [] => []
  | x :: xs => (acc * x) :: running_products (acc * x) xs
  end.

Fixpoint inner_product_exact (xs ys : list Z) (init : Z) : option Z :=
  match xs, ys with
  | [], _ => Some init
  | x :: xs', y :: ys' => inner_product_exact xs' ys' (init + x * y)
  | _ :: _, [] => None
  end.

Lemma length_tail_products l : length (tail_products l) = length l.
Proof. induction l; cbn; congruence. Qed.

Lemma prod_app l x : prod (l ++ [x]) = prod l * x.
Proof.
  unfold prod. induction l as [|y l IH]; cbn [fold_right app]; [ring|]. rewrite IH. ring.
Qed.

Lemma tail_products_snoc l x :
  tail_products (0 :: l ++ [x]) = map (Z.mul x) (tail_products (0 :: l)) ++ [1].
Proof.
  induction l as [|y l IH]; cbn [tail_products app map]; [cbn; f_equal; lia|].
  cbn [tail_products app] in IH. rewrite IH. cbn [map app].
  change (y :: l ++ [x]) with ((y :: l) ++ [x]). rewrite prod_app. f_equal. ring.
Qed.

Lemma rev_running_products a u :
  rev (a :: running_products a u) = map (Z.mul a) (tail_products (0 :: rev u)).
Proof.
  revert a. induction u as [|x u IH]; intros a; [cbn; f_equal; lia|].
  cbn [running_products rev].
  change ((rev (running_products (a * x) u) ++ [a * x]) ++ [a])
    with (rev ((a * x) :: running_products (a * x) u) ++ [a]).
  rewrite IH, tail_products_snoc, map_app, map_map. cbn [map].
  f_equal; [apply map_ext; intros; ring | f_equal; lia].
Qed.

(** [std::multiplies<int>] at every step ends where the exact product,
    wrapped once, does. *)
Lemma partial_products_wrap a l :
  partial_products (to_int32 a) l = map to_int32 (running_products a l).
Proof.
  revert a. induction l as [|x l IH]; intros a; [reflexivity|].
  cbn [partial_products running_products map]. rewrite to_int32_mul_l, IH. reflexivity.
Qed.

Lemma partial_sum_mul_wrap l :
  Forall in_int_range l -> partial_sum_mul l = map to_int32 (running_products 1 l).
Proof.
  intros H. destruct l as [|x l]; [reflexivity|]. inversion H as [|? ? Hx _]; subst.
  cbn [partial_sum_mul running_products map]. rewrite Z.mul_1_l, (to_int32_small x Hx).
  f_equal. rewrite <- partial_products_wrap, (to_int32_small x Hx). reflexivity.
Qed.

Lemma accumulate_mul_wrap shape : accumulate_mul shape = to_int32 (prod shape).
Proof.
  assert (H : forall a, fold_left (fun acc x => to_int32 (acc * x)) shape (to_int32 a) =
                        to_int32 (a * prod shape)).
  { induction shape as [|x l IH]; intros a; cbn [fold_left]; [unfold prod; cbn; f_equal; ring|].
    rewrite to_int32_mul_l, IH. f_equal. unfold prod. cbn [fold_right]. ring. }
  specialize (H 1). rewrite Z.mul_1_l in H. exact H.
Qed.

Lemma inner_product_wrap xs ys init :
  inner_product xs ys (to_int32 init) = to_int32 <$> inner_product_exact xs ys init.
Proof.
  revert ys init. induction xs as [|x xs IH]; intros [|y ys] init; try reflexivity.
  cbn [inner_product inner_product_exact]. rewrite to_int32_add_wrap. apply IH.
Qed.

Lemma inner_product_0 xs ys : inner_product xs ys 0 = to_int32 <$> inner_product_exact xs ys 0.
Proof. exact (inner_product_wrap xs ys 0). Qed.

(** For every shape of [int] extents, [compute_strides] yields the suffix
    products reduced to [int]. *)
Lemma compute_strides_spec shape :
  shape <> [] -> Forall in_int_range shape ->
  compute_strides (length shape) shape = Some (map to_int32 (tail_products shape)).
Proof.
  destruct shape as [|s t]; [congruence|]. intros _ Hr. inversion Hr as [|? ? _ Ht]; subst.
  cbn [length compute_strides]. change (rev (s :: t)) with (rev t ++ [s]).
  rewrite take_app_length' by (rewrite length_rev; reflexivity).
  rewrite partial_sum_mul_wrap by (apply Forall_rev; exact Ht).
  change (1 :: map to_int32 (running_products 1 (rev t)))
    with (map to_int32 (1 :: running_products 1 (rev t))).
  rewrite <- map_rev, rev_running_products, rev_involutive, map_map. cbn [tail_products map].
  f_equal. f_equal; [rewrite Z.mul_1_l; reflexivity|].
  apply map_ext. intros. rewrite Z.mul_1_l. reflexivity.
Qed.

Lemma new_multi_array_spec id shape :
  shape <> [] -> Forall in_int_range shape ->
  new_multi_array id shape =
    Some (mkAbstractMultiArray id (length shape) (to_ulong (to_int32 (prod shape)))
            (Z.of_nat (String.length (int_to_string (vector_max shape)))) shape
            (map to_int32 (tail_products shape))).
Proof.
  intros H Hr. unfold new_multi_array, with_strides.
  rewrite accumulate_mul_wrap, compute_strides_spec by assumption. reflexivity.
Qed.

Lemma new_multi_array_is_some id shape : shape <> [] -> is_Some (new_multi_array id shape).
Proof. destruct shape as [|s t]; [congruence|]. intros _. eexists. reflexivity. Qed.

Lemma new_multi_array_nil id : new_multi_array id [] = None.
Proof. reflexivity. Qed.

(** ** Shapes whose product fits in an [int] *)

Lemma prod_pos shape : Forall (fun s => 0 < s) shape -> 0 < prod shape.
Proof.
  unfold prod. induction 1 as [|x l Hx _ IH]; cbn [fold_right]; [lia|].
  apply Z.mul_pos_pos; assumption.
Qed.

Lemma tail_products_bounded shape :
  Forall (fun s => 0 < s) shape -> Forall (fun p => 0 < p <= prod shape) (tail_products shape).
Proof.
  induction 1 as [|s t Hs Ht IH]; cbn [tail_products]; constructor;
    pose proof (prod_pos t Ht); change (prod (s :: t)) with (s * prod t); [nia|].
  eapply Forall_impl; [exact IH|]. cbn beta. nia.
Qed.

Lemma extents_in_int_range shape :
  Forall (fun s => 0 < s) shape -> prod shape <= int_max -> Forall in_int_range shape.
Proof.
  unfold in_int_range. rewrite int_min_value, int_max_value.
  induction 1 as [|s t Hs Ht IH]; intros Hp; constructor;
    pose proof (prod_pos t Ht); change (prod (s :: t)) with (s * prod t) in Hp; [nia|].
  apply IH. nia.
Qed.

Lemma map_to_int32_small l : Forall in_int_range l -> map to_int32 l = l.
Proof. induction 1; cbn; f_equal; auto using to_int32_small. Qed.

(** When the extents are positive and their product fits in an [int], no
    product of [compute_strides] or of the element count wraps. *)
Lemma new_multi_array_exact id shape a :
  new_multi_array id shape = Some a -> Forall (fun s => 0 < s) shape -> prod shape <= int_max ->
  m_strides a = tail_products shape /\ m_number_of_dimensions a = length shape /\
  m_number_of_elements a = prod shape /\ m_shape a = shape.
Proof.
  intros H Hpos Hb. destruct shape as [|s t]; [discriminate|].
  rewrite new_multi_array_spec in H by (discriminate || exact (extents_in_int_range _ Hpos Hb)).
  injection H as <-. cbn [m_strides m_number_of_dimensions m_number_of_elements m_shape].
  change (to_int32 (prod t) :: map to_int32 (tail_products t))
    with (map to_int32 (tail_products (s :: t))).
  change (s * prod t) with (prod (s :: t)).
  pose proof (prod_pos _ Hpos) as Hp. rewrite int_max_value in Hb.
  rewrite (to_int32_small (prod (s :: t)))
    by (unfold in_int_range; rewrite int_min_value, int_max_value; lia).
  rewrite to_ulong_small by (rewrite ulong_modulus_value; lia).
  repeat split. apply map_to_int32_small.
  eapply Forall_impl; [exact (tail_products_bounded _ Hpos)|].
  intros p Hq. cbn beta in Hq. unfold in_int_range. rewrite int_min_value, int_max_value. lia.
Qed.

(** ** Flat and multi-dimensional indices *)

Lemma inner_product_shift xs ys init :
  inner_product_exact xs ys init = Z.add init <$> inner_product_exact xs ys 0.
Proof.
  revert ys init. induction xs as [|x xs IH]; intros [|y ys] init; cbn; try (f_equal; lia).
  rewrite IH, (IH ys (0 + x * y)). destruct (inner_product_exact xs ys 0); cbn; f_equal; lia.
Qed.

(** Dividing [q * p + r] by [p], for [0 <= r < p]. *)
Lemma quot_rem_unique q p r :
  0 <= q -> 0 <= r < p -> Z.quot (q * p + r) p = q /\ Z.rem (q * p + r) p = r.
Proof.
  intros Hq Hr. rewrite Z.quot_div_nonneg, Z.rem_mod_nonneg by nia. split.
  - symmetry. apply (Z.div_unique _ _ _ r); [lia | ring].
  - symmetry. apply (Z.mod_unique _ _ q); [lia | ring].
Qed.

Lemma in_shape_pos shape idx : in_shape shape idx -> Forall (fun s => 0 < s) shape.
Proof. induction 1; constructor; [lia | assumption]. Qed.

(** An index in the shape has a flat index below the number of elements,
    from which the division loop recovers it. *)
Lemma index_to_flat shape idx :
  in_shape shape idx ->
  exists f, inner_product_exact idx (tail_products shape) 0 = Some f /\ 0 <= f < prod shape /\
            divide_by_strides (tail_products shape) f = idx.
Proof.
  induction 1 as [|s i t ix Hi Hall IH]; [exists 0; cbn; repeat split; lia|].
  destruct IH as (f & Hf & Hb & Hd). exists (i * prod t + f).
  cbn [tail_products inner_product_exact divide_by_strides].
  rewrite inner_product_shift, Hf. cbn [fmap option_fmap option_map].
  destruct (quot_rem_unique i (prod t) f ltac:(lia) ltac:(lia)) as [-> ->].
  split; [f_equal; lia|]. change (prod (s :: t)) with (s * prod t).
  assert (0 <= (s - 1 - i) * prod t) by (apply Z.mul_nonneg_nonneg; lia).
  split; [nia|]. rewrite Hd. reflexivity.
Qed.

(** A flat index below the number of elements is split into an index in
    the shape whose flat index is the original one. *)
Lemma flat_to_index shape f :
  Forall (fun s => 0 < s) shape -> 0 <= f < prod shape ->
  in_shape shape (divide_by_strides (tail_products shape) f) /\
  inner_product_exact (divide_by_strides (tail_products shape) f) (tail_products shape) 0 = Some f.
Proof.
  intros Hpos. revert f. induction Hpos as [|s t Hs Ht IH]; intros f Hf.
  - cbn in *. split; [constructor | f_equal; lia].
  - pose proof (prod_pos t Ht) as Hp. change (prod (s :: t)) with (s * prod t) in Hf.
    cbn [tail_products divide_by_strides inner_product_exact].
    rewrite Z.quot_div_nonneg, Z.rem_mod_nonneg by lia.
    pose proof (Z.mod_pos_bound f (prod t) Hp).
    destruct (IH (f mod prod t)) as [Hin Hip]; [lia|].
    split.
    + constructor; [|exact Hin]. split; [apply Z.div_pos; lia|].
      apply Z.div_lt_upper_bound; nia.
    + rewrite inner_product_shift, Hip. cbn. f_equal.
      pose proof (Z.div_mod f (prod t)). lia.
Qed.

(** A flat index that fits in an [int] is its own [int]. *)
Lemma to_int32_flat f n : 0 <= f < n -> n <= int_max -> to_int32 f = f.
Proof.
  intros Hf Hn. apply to_int32_small. unfold in_int_range.
  rewrite int_min_value. rewrite int_max_value in *. lia.
Qed.

(** C20. Round trip from a multi-dimensional index: for an array built by
    the shape constructor from a shape whose product fits in an [int]
    (the products of [std::multiplies<int>] do not wrap), every index
    within the shape has a flat index in [[0, number_of_elements)], and
    [multi_dimensional_index] maps it back to the index. *)
Theorem multi_array_index_roundtrip id shape a idx :
  new_multi_array id shape = Some a -> in_shape shape idx -> prod shape <= int_max ->
  exists f, flat_index a idx = Some f /\ 0 <= f < m_number_of_elements a /\
            multi_dimensional_index a f = idx.
Proof.
  intros Ha Hidx Hb.
  destruct (new_multi_array_exact id shape a Ha (in_shape_pos _ _ Hidx) Hb) as (Hs & Hd & He & _).
  unfold flat_index, multi_dimensional_index. rewrite Hs, Hd, He.
  rewrite take_ge by (rewrite length_tail_products; lia).
  destruct (index_to_flat shape idx Hidx) as (f & Hf & Hr & Hdiv). exists f.
  rewrite inner_product_0, Hf. cbn [fmap option_fmap option_map].
  rewrite (to_int32_flat f (prod shape)) by assumption. auto.
Qed.

(** C21. Round trip from a flat index: when every extent is positive and
    the product of the shape fits in an [int], each flat index in
    [[0, number_of_elements)] is split into an index within the shape whose
    flat index is the original one. *)
Theorem multi_array_flat_roundtrip id shape a f :
  new_multi_array id shape = Some a -> Forall (fun s => 0 < s) shape -> prod shape <= int_max ->
  0 <= f < m_number_of_elements a ->
  in_shape shape (multi_dimensional_index a f) /\
  flat_index a (multi_dimensional_index a f) = Some f.
Proof.
  intros Ha Hpos Hb Hf.
  destruct (new_multi_array_exact id shape a Ha Hpos Hb) as (Hs & Hd & He & _).
  unfold flat_index, multi_dimensional_index. rewrite He in Hf. rewrite Hs, Hd.
  rewrite take_ge by (rewrite length_tail_products; lia).
  destruct (flat_to_index shape f Hpos Hf) as [Hin Hip]. split; [exact Hin|].
  rewrite inner_product_0, Hip. cbn [fmap option_fmap option_map].
  rewrite (to_int32_flat f (prod shape)) by assumption. reflexivity.
Qed.

(** The shape invariant of an array: as many dimensions as extents and
    strides, the suffix products of the shape as strides, their product as
    the number of elements, and at least one dimension. *)
Definition array_wf (a : AbstractMultiArray) : Prop :=
  m_number_of_dimensions a = length (m_shape a) /\
  m_strides a = tail_products (m_shape a) /\
  m_number_of_elements a = prod (m_shape a) /\ m_shape a <> [].

(** C27. The three constructors of [AbstractMultiArray] are total on their
    inputs (the shape constructor on a non-empty shape) and, on a shape of
    positive extents whose product fits in an [int] and a non-negative
    vector size, every array they build satisfies the shape invariant
    [array_wf]. *)
Theorem array_constructors_wf id n shape :
  shape <> [] -> Forall (fun s => 0 < s) shape -> prod shape <= int_max -> 0 <= n <= int_max ->
  (exists a, new_multi_array id shape = Some a /\ array_wf a) /\
  (exists a, new_scalar_array id = Some a /\ array_wf a) /\
  (exists a, new_vector_array id n = Some a /\ array_wf a).
Proof.
  intros H Hpos Hb Hn. split; [|split].
  - destruct (new_multi_array_is_some id shape H) as [a Ha]. exists a. split; [exact Ha|].
    destruct (new_multi_array_exact id shape a Ha Hpos Hb) as (Hs & Hd & He & Hsh).
    unfold array_wf. rewrite Hsh, Hs, Hd, He. auto.
  - eexists; split; [reflexivity|]. repeat split. discriminate.
  - eexists; split; [reflexivity|]. unfold array_wf.
    cbn [m_number_of_dimensions m_shape m_strides m_number_of_elements].
    rewrite to_ulong_small
      by (rewrite ulong_modulus_value; rewrite int_max_value in Hn; lia).
    repeat split; [unfold prod; cbn; lia | discriminate].
Qed.

(** C32. The shape constructor computes in [int]: for every non-empty
    shape of [int] extents, the number of elements is the product of the
    extents wrapped to [int] ([std::accumulate] with
    [std::multiplies<int>]) and then converted to [size_t], and each
    stride is the product of the extents after it wrapped to [int]
    ([std::partial_sum]).  Past [INT_MAX] these are not the products: the
    shape [{65536, 65537}] has 65536 elements. *)
Theorem new_multi_array_int_arithmetic id shape a :
  shape <> [] -> Forall in_int_range shape -> new_multi_array id shape = Some a ->
  m_number_of_elements a = to_ulong (to_int32 (prod shape)) /\
  m_strides a = map to_int32 (tail_products shape).
Proof.
  intros H Hr Ha. rewrite new_multi_array_spec in Ha by assumption.
  injection Ha as <-. split; reflexivity.
Qed.

(** [update_multi_dimensional_index] writes the same indices as
    [multi_dimensional_index] and keeps the rest of the caller's vector. *)
Lemma update_multi_dimensional_index_spec a index f :
  length index = m_number_of_dimensions a ->
  update_multi_dimensional_index a index f = Some (multi_dimensional_index a f).
Proof.
  intros H. unfold update_multi_dimensional_index. rewrite decide_True by lia.
  rewrite drop_ge by lia. rewrite app_nil_r. reflexivity.
Qed.

(** ** A label names one element *)

(** [s] has no character [c]. *)
Fixpoint no_char (c : ascii) (s : string) : Prop :=
  match s with EmptyString => True | String d s' => d <> c /\ no_char c s' end.

(** [s] does not start with a space. *)
Definition starts_without_space (s : string) : Prop :=
  match s with EmptyString => False | String c _ => c <> " "%char end.

Lemma no_char_app c s t : no_char c s -> no_char c t -> no_char c (s ++ t).
Proof. induction s as [|d s IH]; cbn; [auto | intros [H1 H2] Ht; auto]. Qed.

Lemma no_char_spaces c n : c <> " "%char -> no_char c (spaces n).
Proof. intros Hc. induction n; cbn; auto. Qed.

Lemma uint_to_string_no_comma u : no_char ","%char (uint_to_string u).
Proof. induction u; cbn; auto; (split; [discriminate | assumption]). Qed.

Lemma uint_to_string_inj u1 u2 : uint_to_string u1 = uint_to_string u2 -> u1 = u2.
Proof.
  revert u2. induction u1; intros [] H; cbn in H; try discriminate; try reflexivity;
    injection H as H; f_equal; auto.
Qed.

(** [std::to_string] of an [int] is a non-empty string: digits, after a
    minus sign for a negative value. *)
Lemma uint_to_string_nonempty n : uint_to_string (N.to_uint n) <> EmptyString.
Proof.
  intros E. destruct (N.to_uint n) eqn:Eu; cbn in E; try discriminate.
  pose proof (DecimalN.Unsigned.of_to n) as Ho. rewrite Eu in Ho. cbn in Ho.
  rewrite <- Ho in Eu. discriminate Eu.
Qed.

Lemma uint_to_string_head n :
  exists c t, uint_to_string (N.to_uint n) = String c t /\ c <> "-"%char /\ c <> " "%char.
Proof.
  pose proof (uint_to_string_nonempty n) as Hn.
  destruct (N.to_uint n); cbn in *; try contradiction; do 2 eexists;
    (split; [reflexivity | split; discriminate]).
Qed.

Lemma int_to_string_starts z : starts_without_space (int_to_string z).
Proof.
  unfold int_to_string. destruct (z <? 0); [cbn; discriminate|].
  destruct (uint_to_string_head (Z.to_N z)) as (c & t & -> & _ & Hc). exact Hc.
Qed.

Lemma int_to_string_inj a b : int_to_string a = int_to_string b -> a = b.
Proof.
  unfold int_to_string.
  destruct (Z.ltb_spec a 0) as [Ha|Ha], (Z.ltb_spec b 0) as [Hb|Hb]; intros H.
  - injection H as H. apply uint_to_string_inj, DecimalN.Unsigned.to_uint_inj in H. lia.
  - destruct (uint_to_string_head (Z.to_N b)) as (c & t & E & Hc & _). rewrite E in H.
    injection H as <- _. contradiction.
  - destruct (uint_to_string_head (Z.to_N a)) as (c & t & E & Hc & _). rewrite E in H.
    injection H as -> _. contradiction.
  - apply uint_to_string_inj, DecimalN.Unsigned.to_uint_inj in H. lia.
Qed.

Lemma spaces_app_inj k1 k2 s1 s2 :
  starts_without_space s1 -> starts_without_space s2 ->
  (spaces k1 ++ s1)%string = (spaces k2 ++ s2)%string -> s1 = s2.
Proof.
  revert k2. induction k1 as [|k1 IH]; intros [|k2] H1 H2 H; cbn in H; auto.
  - destruct s1; [contradiction | injection H as -> _; contradiction].
  - destruct s2; [contradiction | injection H as <- _; contradiction].
  - injection H as H. exact (IH k2 H1 H2 H).
Qed.

(** [format_int] is injective, and its fields hold no comma. *)
Lemma format_int_inj w a b : format_int w a = format_int w b -> a = b.
Proof.
  intros H. unfold format_int in H.
  apply spaces_app_inj in H; [|apply int_to_string_starts..].
  exact (int_to_string_inj a b H).
Qed.

Lemma format_int_no_comma w z : no_char ","%char (format_int w z).
Proof.
  unfold format_int. apply no_char_app; [apply no_char_spaces; discriminate|].
  unfold int_to_string. destruct (z <? 0); [split; [discriminate|]|];
    apply uint_to_string_no_comma.
Qed.

Lemma app_comma_inj x1 x2 t1 t2 :
  no_char ","%char x1 -> no_char ","%char x2 ->
  (x1 ++ String ","%char t1)%string = (x2 ++ String ","%char t2)%string -> x1 = x2 /\ t1 = t2.
Proof.
  revert x2. induction x1 as [|c x1 IH]; intros [|d x2] H1 H2 H; cbn in H.
  - injection H as ->. auto.
  - injection H as <- _. destruct H2 as [H2 _]. contradiction.
  - injection H as -> _. destruct H1 as [H1 _]. contradiction.
  - injection H as <- H. destruct H1 as [_ H1], H2 as [_ H2].
    destruct (IH x2 H1 H2 H) as [-> ->]. auto.
Qed.

(** Fields without commas are read back from their [", "]-separated
    concatenation. *)
Lemma concat_comma_inj l1 l2 :
  Forall (no_char ","%char) l1 -> Forall (no_char ","%char) l2 -> length l1 = length l2 ->
  String.concat ", " l1 = String.concat ", " l2 -> l1 = l2.
Proof.
  revert l2. induction l1 as [|x1 [|y1 r1] IH]; intros [|x2 [|y2 r2]] F1 F2 Hlen H;
    cbn in Hlen; try discriminate; [reflexivity | cbn in H; subst; reflexivity|].
  inversion F1 as [|? ? Hx1 F1']; inversion F2 as [|? ? Hx2 F2']; subst.
  cbn [String.concat] in H. change (", " ++ ?t)%string with (String ","%char (String " "%char t)) in H.
  destruct (app_comma_inj _ _ _ _ Hx1 Hx2 H) as [-> Ht]. injection Ht as Ht.
  f_equal. apply IH; auto.
Qed.

Lemma append_bracket_inj x y : (x ++ "]")%string = (y ++ "]")%string -> x = y.
Proof.
  revert y. induction x as [|c x IH]; intros [|d y] H; cbn in H; try reflexivity.
  - injection H as _ H. destruct y; discriminate.
  - injection H as _ H. destruct x; discriminate.
  - injection H as <- H. f_equal. exact (IH y H).
Qed.

Lemma map_format_int_inj w l1 l2 : map (format_int w) l1 = map (format_int w) l2 -> l1 = l2.
Proof.
  revert l2. induction l1 as [|x l1 IH]; intros [|y l2] H; try discriminate; [reflexivity|].
  injection H as Hxy H. f_equal; [exact (format_int_inj w x y Hxy) | exact (IH l2 H)].
Qed.

Lemma length_divide_by_strides strides f : length (divide_by_strides strides f) = length strides.
Proof. revert f. induction strides; intros f; cbn; auto. Qed.

(** The division loop is injective on every strides vector that ends with
    1, even one whose products wrapped: [remain] is always
    [stride * quotient + remainder]. *)
Lemma divide_by_strides_inj ss f1 f2 :
  divide_by_strides (ss ++ [1]) f1 = divide_by_strides (ss ++ [1]) f2 -> f1 = f2.
Proof.
  revert f1 f2. induction ss as [|s ss IH]; intros f1 f2 H; cbn [app divide_by_strides] in H.
  - injection H as Hq. rewrite !Z.quot_1_r in Hq. exact Hq.
  - injection H as Hq H. apply IH in H. rewrite (Z.quot_rem' f1 s), (Z.quot_rem' f2 s), Hq, H. reflexivity.
Qed.

Lemma length_partial_products a l : length (partial_products a l) = length l.
Proof. revert a. induction l; intros; cbn; auto. Qed.

Lemma length_partial_sum_mul l : length (partial_sum_mul l) = length l.
Proof. destruct l; cbn; [reflexivity | rewrite length_partial_products; reflexivity]. Qed.

(** Whatever the shape, the strides the shape constructor computes end with
    1 and are as many as the dimensions. *)
Lemma new_multi_array_strides id shape a :
  new_multi_array id shape = Some a ->
  exists ss, m_strides a = ss ++ [1] /\ m_number_of_dimensions a = length (ss ++ [1]).
Proof.
  destruct shape as [|s t]; [discriminate|]. intros H. injection H as <-.
  cbn [m_strides m_number_of_dimensions]. eexists. split; [reflexivity|].
  rewrite length_app, length_rev, length_partial_sum_mul, length_take, length_app, length_rev.
  cbn. lia.
Qed.

(** Distinct elements of an array built by the shape constructor have
    distinct labels, for every shape: the division loop recovers the flat
    index from the indices even when the products wrapped. *)
Lemma indices_label_injective id shape a f1 f2 :
  new_multi_array id shape = Some a ->
  0 <= f1 < m_number_of_elements a -> 0 <= f2 < m_number_of_elements a ->
  indices_label a f1 = indices_label a f2 -> f1 = f2.
Proof.
  intros Ha H1 H2 Hl. destruct (new_multi_array_strides id shape a Ha) as (ss & Hs & Hd).
  unfold indices_label in Hl. destruct (m_number_of_elements a =? 1) eqn:E1;
    [apply Z.eqb_eq in E1; lia|].
  injection Hl as Hl. apply append_bracket_inj in Hl.
  unfold multi_dimensional_index in Hl. rewrite Hs, Hd, take_ge in Hl by lia.
  apply concat_comma_inj in Hl;
    [| apply Forall_map, Forall_forall; intros; apply format_int_no_comma..
     | rewrite !length_map, !length_divide_by_strides; reflexivity].
  apply map_format_int_inj, divide_by_strides_inj in Hl. exact Hl.
Qed.

(** ** Witnesses *)

(** The array of the [{10, 10}] proxies of the tests of
    [generate_*_parameter_proxies] (src/unnamed/part_000). *)
Definition example_array : AbstractMultiArray := mkAbstractMultiArray 2 2 100 2 [10; 10] [10; 1].

(** The shape [{65536, 65537}], whose product exceeds [INT_MAX]. *)
Definition overflow_array : AbstractMultiArray :=
  default example_array (new_multi_array 0 [65536; 65537]).

Lemma multi_array_index_roundtrip_witness :
  exists f, flat_index example_array [5; 7] = Some f /\
            0 <= f < m_number_of_elements example_array /\
            multi_dimensional_index example_array f = [5; 7].
Proof.
  apply (multi_array_index_roundtrip 2 [10; 10]); [vm_compute; reflexivity | |].
  - unfold in_shape; repeat constructor; lia.
  - vm_compute. discriminate.
Defined.

Lemma array_constructors_wf_witness :
  (exists a, new_multi_array 2 [10; 10] = Some a /\ array_wf a) /\
  (exists a, new_scalar_array 2 = Some a /\ array_wf a) /\
  (exists a, new_vector_array 2 10 = Some a /\ array_wf a).
Proof.
  apply (array_constructors_wf 2 10 [10; 10]);
    [discriminate | repeat constructor; lia | vm_compute; discriminate | vm_compute; split; discriminate].
Defined.

Lemma multi_array_flat_roundtrip_witness :
  in_shape [10; 10] (multi_dimensional_index example_array 57) /\
  flat_index example_array (multi_dimensional_index example_array 57) = Some 57.
Proof.
  apply (multi_array_flat_roundtrip 2);
    [vm_compute; reflexivity | repeat constructor; lia | vm_compute; discriminate | cbn; lia].
Defined.

Lemma new_multi_array_int_arithmetic_witness :
  m_number_of_elements overflow_array = 65536 /\
  m_number_of_elements overflow_array = to_ulong (to_int32 (prod [65536; 65537])) /\
  m_strides overflow_array = map to_int32 (tail_products [65536; 65537]).
Proof.
  assert (Ha : new_multi_array 0 [65536; 65537] = Some overflow_array) by (vm_compute; reflexivity).
  split; [vm_compute; reflexivity|].
  apply (new_multi_array_int_arithmetic 0 [65536; 65537] overflow_array); [discriminate | | exact Ha].
  constructor; [|constructor; [|constructor]]; unfold in_int_range;
    rewrite int_min_value, int_max_value; lia.
Defined.
