(* ===== verification/Kernel.v ===== *)
(** The evaluation kernel of [model::Model]: linear expressions,
    constraints and [evaluate] in its full and in its incremental form
    (model/model.h, model/expression.h, model/constraint.h).  These files
    are not under [src/]; the definitions follow the spec (sections 3 and
    4.3) and are checked against the expected values of the tests of
    [src/unnamed/part_000] in [ModelTests].

    Variable values are the [int] values of the variable proxies, one list
    per proxy; expression values are [double]s, modelled by [Q].  The
    cached expression and constraint values of the C++ model are not
    stored: by the value-parity invariant of the spec (section 8,
    property 1) they are the values recomputed from the variables, which
    is what this model computes. *)

From S2P Require Import Prelude Score.

Local Open Scope Q_scope.

(** [model::ConstraintSense] *)
Inductive ConstraintSense : Type := Less | Equal | Greater.

(** A linear expression [sum c_i * x_i + constant]. *)
Record Expression : Type := mkExpression {
  sensitivities : list (VarRef * Q);
  constant_value : Q
}.

(** A constraint [expression (sense) 0]. *)
Record Constraint : Type := mkConstraint {
  expression : Expression;
  constraint_sense : ConstraintSense;
  is_enabled : bool
}.

Record Model : Type := mkModel {
  variable_values : list (list Z);
  objective_expression : Expression;
  constraint_proxies : list (list Constraint);
  is_minimization : bool
}.

(** [model->sign()] *)
Definition sign (m : Model) : Q := if is_minimization m then 1 else -1.

Definition variable_value (vals : list (list Z)) (r : VarRef) : Z :=
  default 0%Z (vals !! proxy_index r ≫= fun row => row !! flat_index r).

(** [Expression::evaluate()] on the given variable values. *)
Definition evaluate_expression (e : Expression) (vals : list (list Z)) : Q :=
  constant_value e +
  sumQ (map (fun rc => snd rc * inject_Z (variable_value vals (fst rc))) (sensitivities e)).

(** The violation of a constraint whose expression has value [v]. *)
Definition violation (s : ConstraintSense) (v : Q) : Q :=
  match s with
  | Less => Qmax 0 v
  | Equal => Qabs v
  | Greater => Qmax 0 (- v)
  end.

(** The values after the alterations of a move, made in order. *)
Definition apply_alterations (alts : list (VarRef * Z)) (vals : list (list Z)) : list (list Z) :=
  fold_left (fun vs a => alter (alter (fun _ => snd a) (flat_index (fst a)))
                               (proxy_index (fst a)) vs) alts vals.

(** [model.update(move)]: the single write path of the variable values. *)
Definition update_move (m : Model) (mv : Move) : Model :=
  {| variable_values := apply_alterations (alterations mv) (variable_values m);
     objective_expression := objective_expression m;
     constraint_proxies := constraint_proxies m;
     is_minimization := is_minimization m |}.

(** Every constraint of the model, by proxy then by position. *)
Definition constraint_refs (m : Model) : list ConstraintRef :=
  concat (imap (fun p row => imap (fun f _ => mkConstraintRef p f) row) (constraint_proxies m)).

Definition constraint_at (m : Model) (g : ConstraintRef) : option Constraint :=
  constraint_proxies m !! constraint_proxy_index g ≫= fun row => row !! constraint_flat_index g.

(** The coefficient of a constraint in a vector of penalty coefficients. *)
Definition weight (w : list (list Q)) (g : ConstraintRef) : Q :=
  default 0 (w !! constraint_proxy_index g ≫= fun row => row !! constraint_flat_index g).

(** The violation of constraint [g] (0 when it is disabled). *)
Definition constraint_violation (m : Model) (vals : list (list Z)) (g : ConstraintRef) : Q :=
  match constraint_at m g with
  | Some c => if is_enabled c then violation (constraint_sense c) (evaluate_expression (expression c) vals)
              else 0
  | None => 0
  end.

Definition total_violation_at (m : Model) (vals : list (list Z)) : Q :=
  sumQ (map (constraint_violation m vals) (constraint_refs m)).

Definition penalty_at (m : Model) (w : list (list Q)) (vals : list (list Z)) : Q :=
  sumQ (map (fun g => weight w g * constraint_violation m vals g) (constraint_refs m)).

(** A default-constructed [Move] ([evaluate({}, ...)]). *)
Definition empty_move : Move := mkMove MS_Binary [] [].

(** [evaluate(move, local, global)]: the score of the solution the move
    leads to, computed from scratch; the improvability flags compare with
    the current solution. *)
Definition evaluate (m : Model) (mv : Move) (local global : list (list Q)) : SolutionScore :=
  let vals := variable_values m in
  let vals' := apply_alterations (alterations mv) vals in
  let obj := sign m * evaluate_expression (objective_expression m) vals' in
  let total := total_violation_at m vals' in
  let lp := penalty_at m local vals' in
  let gp := penalty_at m global vals' in
  mkSolutionScore obj total lp gp (obj + lp) (obj + gp) (Qeq_bool total 0)
    (Qltb obj (sign m * evaluate_expression (objective_expression m) vals))
    (Qltb total (total_violation_at m vals)).

(** The change of an expression's value under the alterations: the sum of
    [(new - old) * coefficient] over the altered variables. *)
Definition coefficient (e : Expression) (r : VarRef) : Q :=
  sumQ (map snd (filter (fun rc => fst rc = r) (sensitivities e))).

Definition expression_delta (e : Expression) (vals : list (list Z)) (alts : list (VarRef * Z)) : Q :=
  sumQ (map (fun a => inject_Z (snd a - variable_value vals (fst a)) * coefficient e (fst a)) alts).

(** The change of the violation of constraint [g] under the alterations,
    from its current value and the delta of its expression. *)
Definition violation_delta (m : Model) (alts : list (VarRef * Z)) (g : ConstraintRef) : Q :=
  let vals := variable_values m in
  match constraint_at m g with
  | Some c =>
      if is_enabled c then
        let v := evaluate_expression (expression c) vals in
        violation (constraint_sense c) (v + expression_delta (expression c) vals alts) -
        violation (constraint_sense c) v
      else 0
  | None => 0
  end.

(** [evaluate(move, score_before, local, global)]: the score of
    [score_before] updated by the deltas of the objective and of the
    constraints the move touches. *)
Definition evaluate_delta (m : Model) (mv : Move) (before : SolutionScore)
    (local global : list (list Q)) : SolutionScore :=
  let alts := alterations mv in
  let related := related_constraint_ptrs mv in
  let obj := objective before +
             sign m * expression_delta (objective_expression m) (variable_values m) alts in
  let total := total_violation before + sumQ (map (violation_delta m alts) related) in
  let lp := local_penalty before +
            sumQ (map (fun g => weight local g * violation_delta m alts g) related) in
  let gp := global_penalty before +
            sumQ (map (fun g => weight global g * violation_delta m alts g) related) in
  mkSolutionScore obj total lp gp (obj + lp) (obj + gp) (Qeq_bool total 0)
    (Qltb obj (objective before)) (Qltb total (total_violation before)).

(** [compute_lagrangian(duals)]: the objective plus the dual-weighted
    constraint values. *)
Definition compute_lagrangian (m : Model) (duals : list (list Q)) : Q :=
  let vals := variable_values m in
  sign m * evaluate_expression (objective_expression m) vals +
  sumQ (map (fun g => weight duals g *
                      default 0 ((fun c => evaluate_expression (expression c) vals) <$>
                                 constraint_at m g))
            (constraint_refs m)).

(** The constraints related to the altered variables (spec, section 4.1,
    stage 1: those whose expression has a non-zero coefficient on one of
    them), as the union [move.related_constraint_ptrs] collects them. *)
Definition touches (m : Model) (alts : list (VarRef * Z)) (g : ConstraintRef) : bool :=
  match constraint_at m g with
  | Some c => existsb (fun a => negb (Qeq_bool (coefficient (expression c) (fst a)) 0)) alts
  | None => false
  end.

Definition related_constraints (m : Model) (alts : list (VarRef * Z)) : list ConstraintRef :=
  filter (fun g => touches m alts g = true) (constraint_refs m).

(** ** Values after a move *)

(** A variable reference that exists in the values. *)
Definition valid_var (vals : list (list Z)) (r : VarRef) : Prop :=
  is_Some (vals !! proxy_index r ≫= fun row => row !! flat_index r).

Definition set_value (a : VarRef * Z) (vals : list (list Z)) : list (list Z) :=
  alter (alter (fun _ => snd a) (flat_index (fst a))) (proxy_index (fst a)) vals.

Lemma apply_alterations_cons a alts vals :
  apply_alterations (a :: alts) vals = apply_alterations alts (set_value a vals).
Proof. reflexivity. Qed.

Lemma lookup2_set_value a vals r :
  (set_value a vals !! proxy_index r ≫= fun row => row !! flat_index r) =
  if decide (fst a = r) then (fun _ => snd a) <$> (vals !! proxy_index r ≫= fun row => row !! flat_index r)
  else vals !! proxy_index r ≫= fun row => row !! flat_index r.
Proof.
  destruct a as [[p f] v], r as [p' f']. unfold set_value. cbn.
  rewrite list_lookup_alter. destruct (decide (p = p')) as [<-|Hp].
  - destruct (vals !! p) as [row|]; cbn; [|by case_decide].
    rewrite list_lookup_alter. destruct (decide (f = f')) as [<-|Hf].
    + by rewrite decide_True.
    + rewrite decide_False; [reflexivity | congruence].
  - rewrite decide_False; [reflexivity | congruence].
Qed.

Lemma variable_value_set a vals r :
  valid_var vals (fst a) ->
  variable_value (set_value a vals) r =
  if decide (fst a = r) then snd a else variable_value vals r.
Proof.
  intros [x Hx]. unfold variable_value. rewrite lookup2_set_value.
  case_decide as E; [subst r; rewrite Hx; reflexivity | reflexivity].
Qed.

Lemma valid_var_set a vals r : valid_var vals r -> valid_var (set_value a vals) r.
Proof.
  unfold valid_var. rewrite lookup2_set_value. case_decide; [|exact id].
  intros [x ->]. eexists; reflexivity.
Qed.

(** The value of [r] after the alterations: its old value plus the change
    made by the (unique) alteration of [r], if any. *)
Lemma variable_value_apply alts vals r :
  NoDup (map fst alts) -> Forall (valid_var vals) (map fst alts) ->
  inject_Z (variable_value (apply_alterations alts vals) r) ==
  inject_Z (variable_value vals r) +
  sumQ (map (fun a => if decide (fst a = r) then inject_Z (snd a - variable_value vals (fst a))
                      else 0) alts).
Proof.
  revert vals. induction alts as [|a alts IH]; intros vals Hnd Hv; [cbn; ring|].
  cbn [map] in Hnd, Hv. apply NoDup_cons in Hnd as [Hnotin Hnd].
  apply Forall_cons in Hv as [Ha Hv].
  rewrite apply_alterations_cons.
  etransitivity; [apply IH; [exact Hnd | eapply Forall_impl; [exact Hv | apply valid_var_set]]|].
  cbn [map]. rewrite sumQ_cons, variable_value_set by exact Ha.
  assert (Hsame : forall b, In b alts -> variable_value (set_value a vals) (fst b) =
                                       variable_value vals (fst b)).
  { intros b Hb. rewrite variable_value_set by exact Ha. rewrite decide_False; [reflexivity|].
    intros E. apply Hnotin. rewrite E. apply list_elem_of_In, in_map, Hb. }
  rewrite (sumQ_map_ext alts _ (fun b => if decide (fst b = r)
            then inject_Z (snd b - variable_value vals (fst b)) else 0))
    by (intros b Hb; rewrite Hsame by exact Hb; reflexivity).
  case_decide as E.
  - subst r. rewrite sumQ_map_zero.
    + rewrite inject_Z_sub. ring.
    + intros b Hb. rewrite decide_False; [reflexivity|]. intros E. apply Hnotin.
      rewrite <- E. apply list_elem_of_In, in_map, Hb.
  - ring.
Qed.

Lemma coefficient_sum e r :
  sumQ (map (fun rc => if decide (r = fst rc) then snd rc else 0) (sensitivities e)) ==
  coefficient e r.
Proof.
  unfold coefficient. induction (sensitivities e) as [|rc l IH]; [reflexivity|].
  cbn [map]. rewrite filter_cons, sumQ_cons.
  destruct (decide (r = fst rc)) as [<-|Hne].
  - rewrite decide_True by reflexivity. cbn [map]. rewrite sumQ_cons, IH. reflexivity.
  - rewrite decide_False by congruence. rewrite IH. ring.
Qed.

(** The value of an expression after the alterations is its current value
    plus [expression_delta]. *)
Lemma expression_delta_spec e vals alts :
  NoDup (map fst alts) -> Forall (valid_var vals) (map fst alts) ->
  evaluate_expression e (apply_alterations alts vals) ==
  evaluate_expression e vals + expression_delta e vals alts.
Proof.
  intros Hnd Hv. unfold evaluate_expression, expression_delta.
  set (d := fun a : VarRef * Z => inject_Z (snd a - variable_value vals (fst a))).
  rewrite (sumQ_map_ext (sensitivities e) _
             (fun rc => snd rc * inject_Z (variable_value vals (fst rc)) +
                        sumQ (map (fun a => if decide (fst a = fst rc) then snd rc * d a else 0)
                                  alts))).
  2:{ intros rc _. rewrite (variable_value_apply alts vals (fst rc) Hnd Hv).
      rewrite Qmult_plus_distr_r, <- sumQ_map_scale.
      apply Qplus_comp; [reflexivity|]. apply sumQ_map_ext. intros a _.
      case_decide; cbv [d]; ring. }
  rewrite sumQ_map_plus, sumQ_swap.
  rewrite (sumQ_map_ext alts _ (fun a => d a * coefficient e (fst a))); [cbv [d]; ring|].
  intros a _. rewrite <- coefficient_sum, <- sumQ_map_scale. apply sumQ_map_ext.
  intros rc _. destruct (decide (fst a = fst rc)); ring.
Qed.

(** ** The enumeration of the constraints *)

Definition refs_from (k : nat) (xss : list (list Constraint)) : list ConstraintRef :=
  concat (imap (fun p row => imap (fun f (_ : Constraint) => mkConstraintRef (k + p) f) row) xss).

Lemma refs_from_cons k row xss :
  refs_from k (row :: xss) = (mkConstraintRef k <$> seq 0 (length row)) ++ refs_from (S k) xss.
Proof.
  unfold refs_from. rewrite imap_cons. cbn [concat]. f_equal.
  - rewrite Nat.add_0_r. apply (imap_seq_0 row (mkConstraintRef k)).
  - f_equal. apply imap_ext. intros p row' _. cbn. rewrite Nat.add_succ_r. reflexivity.
Qed.

Lemma elem_of_refs_from k xss g :
  g ∈ refs_from k xss <->
  (k <= constraint_proxy_index g)%nat /\
  is_Some (xss !! (constraint_proxy_index g - k)%nat ≫= fun row => row !! constraint_flat_index g).
Proof.
  revert k. induction xss as [|row xss IH]; intros k.
  - cbn. split; [intros H; inversion H | intros (_ & [x Hx]); destruct (_ - k)%nat; discriminate].
  - rewrite refs_from_cons, elem_of_app, IH, list_elem_of_fmap. destruct g as [p f]. cbn.
    split.
    + intros [(f' & E & Hf') | (Hk & Hs)].
      * injection E as -> ->. apply list_elem_of_In, in_seq in Hf'.
        rewrite Nat.sub_diag. cbn. split; [lia|]. apply lookup_lt_is_Some. lia.
      * split; [lia|]. replace (p - k)%nat with (S (p - S k)) by lia. exact Hs.
    + intros (Hk & Hs). destruct (decide (p = k)) as [->|Hne].
      * left. exists f. rewrite Nat.sub_diag in Hs. cbn in Hs.
        apply lookup_lt_is_Some in Hs. split; [reflexivity|].
        apply list_elem_of_In, in_seq. lia.
      * right. split; [lia|]. replace (p - k)%nat with (S (p - S k)) in Hs by lia. exact Hs.
Qed.

Lemma NoDup_refs_from k xss : NoDup (refs_from k xss).
Proof.
  revert k. induction xss as [|row xss IH]; intros k; [constructor|].
  rewrite refs_from_cons. apply NoDup_app. split; [|split; [|apply IH]].
  - apply NoDup_fmap_2; [intros f f' E; injection E as E; exact E | apply NoDup_seq].
  - intros g Hg. apply list_elem_of_fmap in Hg as (f & -> & _).
    rewrite elem_of_refs_from. cbn. lia.
Qed.

Lemma elem_of_constraint_refs m g : g ∈ constraint_refs m <-> is_Some (constraint_at m g).
Proof.
  change (constraint_refs m) with (refs_from 0 (constraint_proxies m)).
  rewrite elem_of_refs_from, Nat.sub_0_r. unfold constraint_at. split; [tauto|]. split; [lia | exact H].
Qed.

Lemma NoDup_constraint_refs m : NoDup (constraint_refs m).
Proof. apply (NoDup_refs_from 0). Qed.

(** A sum over all constraints of a quantity that vanishes outside the
    related constraints is the sum over the related constraints. *)
Lemma sum_over_related m (d : ConstraintRef -> Q) (related : list ConstraintRef) :
  NoDup related -> (forall g, g ∈ related -> is_Some (constraint_at m g)) ->
  (forall g, is_Some (constraint_at m g) -> g ∉ related -> d g == 0) ->
  sumQ (map d (constraint_refs m)) == sumQ (map d related).
Proof.
  intros Hnd Hin Hzero.
  destruct (submseteq_Permutation related (constraint_refs m)) as [k Hk].
  { apply NoDup_submseteq; [exact Hnd|]. intros g Hg. apply elem_of_constraint_refs, Hin, Hg. }
  pose proof (NoDup_constraint_refs m) as Hall. rewrite Hk in Hall.
  apply NoDup_app in Hall as (_ & Hdisj & _).
  rewrite Hk, sumQ_map_app, (sumQ_map_zero k); [ring|].
  intros g Hg. apply list_elem_of_In in Hg. apply Hzero.
  - apply elem_of_constraint_refs. rewrite Hk. apply elem_of_app. right. exact Hg.
  - intros Hr. exact (Hdisj g Hr Hg).
Qed.

(** ** Delta evaluation agrees with full evaluation *)

#[export] Instance violation_proper : Proper (eq ==> Qeq ==> Qeq) violation.
Proof.
  intros s s' <- v v' Hv. destruct s; cbn [violation].
  - rewrite Hv. reflexivity.
  - rewrite Hv. reflexivity.
  - rewrite Hv. reflexivity.
Qed.

Section Agreement.

Context (m : Model) (mv : Move).

(** The hypotheses under which the code calls the incremental form: no
    variable is altered twice, every altered variable exists, the related
    constraints are distinct constraints of the model, and a constraint
    outside them has no coefficient on an altered variable. *)
Hypothesis H_distinct : NoDup (map fst (alterations mv)).
Hypothesis H_valid : Forall (valid_var (variable_values m)) (map fst (alterations mv)).
Hypothesis H_related_distinct : NoDup (related_constraint_ptrs mv).
Hypothesis H_related_exist :
  forall g, g ∈ related_constraint_ptrs mv -> is_Some (constraint_at m g).
Hypothesis H_unrelated : forall g c, constraint_at m g = Some c ->
  g ∉ related_constraint_ptrs mv ->
  Forall (fun a => coefficient (expression c) (fst a) == 0) (alterations mv).

Let vals := variable_values m.
Let vals' := apply_alterations (alterations mv) vals.

Lemma constraint_violation_after g :
  constraint_violation m vals' g == constraint_violation m vals g + violation_delta m (alterations mv) g.
Proof.
  unfold constraint_violation, violation_delta, vals', vals.
  destruct (constraint_at m g) as [c|]; [|ring]. destruct (is_enabled c); [|ring].
  rewrite expression_delta_spec by assumption. ring.
Qed.

Lemma violation_delta_unrelated g :
  is_Some (constraint_at m g) -> g ∉ related_constraint_ptrs mv ->
  violation_delta m (alterations mv) g == 0.
Proof.
  intros [c Hc] Hg. unfold violation_delta. rewrite Hc. destruct (is_enabled c); [|reflexivity].
  assert (Hz : expression_delta (expression c) (variable_values m) (alterations mv) == 0).
  { unfold expression_delta. apply sumQ_map_zero. intros a Ha.
    pose proof (H_unrelated g c Hc Hg) as Hf. rewrite Forall_forall in Hf.
    rewrite (Hf a (proj2 (list_elem_of_In _ _) Ha)). ring. }
  rewrite Hz, Qplus_0_r. ring.
Qed.

Lemma sum_violation_after (w : ConstraintRef -> Q) :
  sumQ (map (fun g => w g * constraint_violation m vals' g) (constraint_refs m)) ==
  sumQ (map (fun g => w g * constraint_violation m vals g) (constraint_refs m)) +
  sumQ (map (fun g => w g * violation_delta m (alterations mv) g) (related_constraint_ptrs mv)).
Proof.
  rewrite (sumQ_map_ext _ _ (fun g => w g * constraint_violation m vals g +
                                      w g * violation_delta m (alterations mv) g))
    by (intros g _; rewrite constraint_violation_after; ring).
  rewrite sumQ_map_plus. apply Qplus_comp; [reflexivity|].
  apply sum_over_related; [assumption | assumption |]. intros g Hs Hg. rewrite violation_delta_unrelated by assumption. ring.
Qed.

Lemma sumQ_map_1 (l : list ConstraintRef) (f : ConstraintRef -> Q) :
  sumQ (map (fun g => 1 * f g) l) == sumQ (map f l).
Proof. apply sumQ_map_ext. intros. ring. Qed.

(** Delta evaluation agrees with full evaluation (spec, section 8,
    property 6): updating the score of the current solution
    ([evaluate({}, ...)]) by the deltas of the move gives, field by field,
    the score [evaluate(move, ...)] computes from scratch. *)
Theorem evaluate_delta_agrees local global :
  score_eq (evaluate_delta m mv (evaluate m empty_move local global) local global)
           (evaluate m mv local global).
Proof.
  assert (Hobj : sign m * evaluate_expression (objective_expression m) vals +
                 sign m * expression_delta (objective_expression m) vals (alterations mv) ==
                 sign m * evaluate_expression (objective_expression m) vals').
  { unfold vals'. rewrite expression_delta_spec by assumption. ring. }
  assert (Htot : total_violation_at m vals +
                 sumQ (map (violation_delta m (alterations mv)) (related_constraint_ptrs mv)) ==
                 total_violation_at m vals').
  { unfold total_violation_at.
    rewrite <- (sumQ_map_1 _ (constraint_violation m vals')),
            <- (sumQ_map_1 _ (constraint_violation m vals)),
            <- (sumQ_map_1 _ (violation_delta m (alterations mv))).
    symmetry. exact (sum_violation_after (fun _ => 1)). }
  assert (Hpen : forall w, penalty_at m w vals +
                 sumQ (map (fun g => weight w g * violation_delta m (alterations mv) g)
                           (related_constraint_ptrs mv)) == penalty_at m w vals').
  { intros w. unfold penalty_at. symmetry. exact (sum_violation_after (weight w)). }
  unfold score_eq, evaluate_delta.
  change (objective (evaluate m empty_move local global))
    with (sign m * evaluate_expression (objective_expression m) vals).
  change (total_violation (evaluate m empty_move local global)) with (total_violation_at m vals).
  change (local_penalty (evaluate m empty_move local global)) with (penalty_at m local vals).
  change (global_penalty (evaluate m empty_move local global)) with (penalty_at m global vals).
  unfold evaluate. fold vals. fold vals'.
  cbn [objective total_violation local_penalty global_penalty local_augmented_objective
       global_augmented_objective is_feasible is_objective_improvable is_constraint_improvable].
  split; [exact Hobj|]. split; [exact Htot|]. split; [exact (Hpen local)|].
  split; [exact (Hpen global)|].
  split; [apply Qplus_comp; [exact Hobj | exact (Hpen local)]|].
  split; [apply Qplus_comp; [exact Hobj | exact (Hpen global)]|].
  split; [apply Qeq_bool_compat; [exact Htot | reflexivity]|].
  split; [apply Qltb_compat; [exact Hobj | reflexivity]|].
  apply Qltb_compat; [exact Htot | reflexivity].
Qed.

End Agreement.

(** The related constraints a move collects satisfy the hypotheses of
    [evaluate_delta_agrees] on them. *)
Lemma related_constraints_ok m alts :
  NoDup (related_constraints m alts) /\
  (forall g, g ∈ related_constraints m alts -> is_Some (constraint_at m g)) /\
  (forall g c, constraint_at m g = Some c -> g ∉ related_constraints m alts ->
     Forall (fun a => coefficient (expression c) (fst a) == 0) alts).
Proof.
  unfold related_constraints. split; [apply NoDup_filter, NoDup_constraint_refs|]. split.
  - intros g Hg. apply list_elem_of_filter in Hg as [_ Hg]. apply elem_of_constraint_refs, Hg.
  - intros g c Hc Hn. apply Forall_forall. intros a Ha.
    destruct (Qeq_bool (coefficient (expression c) (fst a)) 0) eqn:E;
      [apply Qeq_bool_iff, E|].
    exfalso. apply Hn, list_elem_of_filter. split.
    + unfold touches. rewrite Hc. apply existsb_exists. exists a.
      split; [apply list_elem_of_In, Ha | rewrite E; reflexivity].
    + apply elem_of_constraint_refs. rewrite Hc. eexists; reflexivity.
Qed.


(** ** Witnesses *)

(** Three variables at 1; minimise [2 x0 + 3 x2 + 1] subject to
    [x0 + x1 - 1 <= 0] and [x2 = 0]. *)
Definition example_model : Model :=
  mkModel [[1; 1; 1]%Z] (mkExpression [(mkVarRef 0 0, 2); (mkVarRef 0 2, 3)] 1)
    [[mkConstraint (mkExpression [(mkVarRef 0 0, 1); (mkVarRef 0 1, 1)] (-1)) Less true;
      mkConstraint (mkExpression [(mkVarRef 0 2, 1)] 0) Equal true]] true.

Definition example_alterations : list (VarRef * Z) := [(mkVarRef 0 0, 0%Z); (mkVarRef 0 2, 0%Z)].

Definition example_kernel_move : Move :=
  mkMove MS_Integer example_alterations (related_constraints example_model example_alterations).

Lemma evaluate_delta_agrees_witness :
  score_eq (evaluate_delta example_model example_kernel_move
              (evaluate example_model empty_move [[10; 20]] [[100; 200]]) [[10; 20]] [[100; 200]])
           (evaluate example_model example_kernel_move [[10; 20]] [[100; 200]]).
Proof.
  destruct (related_constraints_ok example_model example_alterations) as (H1 & H2 & H3).
  apply (evaluate_delta_agrees example_model example_kernel_move);
    [exact (bool_decide_unpack (NoDup (map fst (alterations example_kernel_move))) I)
    | unfold valid_var; repeat constructor; vm_compute; eexists; reflexivity
    | exact H1 | exact H2 | exact H3].
Defined.
