(* ===== verification/ModelTests.v ===== *)
(** The tests of the model in [src/unnamed/part_000] (test_model.h),
    translated line by line onto the kernel of [Kernel] and the arrays of
    [MultiArray]: each test builds a model with the calls the test makes,
    runs the operations it exercises and its [EXPECT_EQ]s become the
    lemmas at the end of the file.  Setup calls that do not change the
    values the test reads ([setup_variable_related_constraints],
    [categorize_variables], [extract_selections], ...) have no counterpart. *)

From Stdlib Require Import String.
From S2P Require Import Prelude Score MultiArray Kernel.

Local Open Scope Q_scope.

(** [utility::sequence(n)]: [0, 1, ..., n - 1]. *)
Definition sequence (n : nat) : list Z := Z.of_nat <$> seq 0 n.

(** [x(i)] of the variable proxy [x] created first (proxy 0). *)
Definition x_ref (i : nat) : VarRef := mkVarRef 0 i.

(** [x.dot(sequence) + 1] over the ten elements of [x]. *)
Definition x_dot_sequence_plus_1 : Expression :=
  mkExpression (imap (fun i s => (x_ref i, inject_Z s)) (sequence 10)) 1.

(** [x.sum() <= 5] and [x(0) + x(1) <= 1]. *)
Definition x_sum_leq_5 : Constraint :=
  mkConstraint (mkExpression ((fun i => (x_ref i, 1)) <$> seq 0 10) (-5)) Less true.
Definition x0_plus_x1_leq_1 : Constraint :=
  mkConstraint (mkExpression [(x_ref 0, 1); (x_ref 1, 1)] (-1)) Less true.

(** Lines 2446-2482 (and 2620-2655): ten binary variables set to 1, the
    objective [p] minimised or maximised, the constraints [g] and [h]. *)
Definition evaluate_test_model (minimize : bool) : Model :=
  mkModel [repeat 1%Z 10] x_dot_sequence_plus_1 [[x_sum_leq_5]; [x0_plus_x1_leq_1]] minimize.


(** [TEST_F(TestModel, compute_lagrangian)] (lines 2793-2822): the model
    of lines 2446-2482 with every variable at 1 and all duals 100. *)
Definition compute_lagrangian_test : Q :=
  compute_lagrangian (evaluate_test_model true) [[100]; [100]].

(** [TEST_F(TestModel, update_arg_void)] (lines 2388-2407): the objective
    [p] with every variable at 1, [x.selection()] as the constraint. *)
Definition x_selection : Constraint :=
  mkConstraint (mkExpression ((fun i => (x_ref i, 1)) <$> seq 0 10) (-1)) Equal true.

Definition update_arg_void_test : Q :=
  let m := mkModel [repeat 1%Z 10] x_dot_sequence_plus_1 [[x_selection]] true in
  evaluate_expression (objective_expression m) (variable_values m).

(** [TEST_F(TestModel, update_arg_move)] (lines 2410-2436): [x(0) = 1],
    then the selection move [x(0) -> 0, x(9) -> 1] applied by
    [update(move)]. *)
Definition update_arg_move_test : Q :=
  let m := mkModel [1%Z :: repeat 0%Z 9] x_dot_sequence_plus_1 [[x_selection]] true in
  let mv := mkMove MS_Selection [(x_ref 0, 0%Z); (x_ref 9, 1%Z)] [] in
  let m' := update_move m mv in
  evaluate_expression (objective_expression m') (variable_values m').

(** ** Proxies of values and of parameters *)

Local Open Scope Z_scope.

(** [ValueProxy<T>] (model/value_proxy.h, not under [src/]): the array
    metadata of the proxy it mirrors and its flat-indexed values. *)
Record ValueProxy : Type := mkValueProxy {
  vp_array : AbstractMultiArray;
  vp_values : list Z
}.

(** [ValueProxy(id, shape)]: a proxy of zeros over an array. *)
Definition new_value_proxy (a : AbstractMultiArray) : ValueProxy :=
  mkValueProxy a (repeat 0%Z (Z.to_nat (m_number_of_elements a))).

(** [proxy(i, j, ...) = v]: the element at [flat_index(index)]; an index
    outside the strides is undefined and leaves the proxy as it is. *)
Definition set_value_at (vp : ValueProxy) (index : list Z) (v : Z) : ValueProxy :=
  match MultiArray.flat_index (vp_array vp) index with
  | Some f => mkValueProxy (vp_array vp) (<[Z.to_nat f := v]> (vp_values vp))
  | None => vp
  end.

Definition value_at (vp : ValueProxy) (index : list Z) : option Z :=
  MultiArray.flat_index (vp_array vp) index ≫= fun f => vp_values vp !! Z.to_nat f.

(** [model.import_variable_values(proxies)]: the values of each variable
    proxy replaced by those of the matching value proxy. *)
Definition import_variable_values (m : Model) (proxies : list ValueProxy) : Model :=
  {| variable_values := vp_values <$> proxies;
     objective_expression := objective_expression m;
     constraint_proxies := constraint_proxies m;
     is_minimization := is_minimization m |}.

(** The proxies [x] (scalar), [y] (10) and [z] (10 x 10) that the tests of
    [import_variable_values] and [generate_*_parameter_proxies] create, with
    ids 0, 1, 2. *)
Definition xyz_arrays : list AbstractMultiArray :=
  default [] (a ← new_scalar_array 0; b ← new_vector_array 1 10; c ← new_multi_array 2 [10; 10];
              Some [a; b; c]).

Definition proxy_array (k : nat) : AbstractMultiArray :=
  default example_array (xyz_arrays !! k).

(** [TEST_F(TestModel, import_variable_values)] (lines 2349-2372): the
    value proxies filled by the loops of the test, then imported into a
    model with the variables [x], [y], [z]. *)
Definition import_test_proxies : list ValueProxy :=
  let x_value := set_value_at (new_value_proxy (proxy_array 0)) [0%Z] 1 in
  let y_value := fold_left (fun vp i => set_value_at vp [Z.of_nat i] (10 * Z.of_nat i))
                   (seq 0 10) (new_value_proxy (proxy_array 1)) in
  let z_value := fold_left (fun vp ij => set_value_at vp [Z.of_nat ij.1; Z.of_nat ij.2]
                                          (100 * (Z.of_nat ij.1 + Z.of_nat ij.2)))
                   (list_prod (seq 0 10) (seq 0 10)) (new_value_proxy (proxy_array 2)) in
  [x_value; y_value; z_value].

Definition import_test_model : Model :=
  import_variable_values
    (mkModel [[0%Z]; repeat 0%Z 10; repeat 0%Z 100] (mkExpression [] 0) [] true)
    import_test_proxies.

(** [z(i, j).value()] after the import. *)
Definition import_test_z (i j : nat) : option Z :=
  value_at (mkValueProxy (proxy_array 2) (default [] (variable_values import_test_model !! 2%nat)))
    [Z.of_nat i; Z.of_nat j].

(** A parameter proxy: id, number of dimensions and of elements, the
    flat-indexed names ([name] followed by [indices_label]) and values. *)
Record ParameterProxy : Type := mkParameterProxy {
  pp_id : Z;
  pp_number_of_dimensions : nat;
  pp_number_of_elements : Z;
  pp_names : list string;
  pp_values : list Z
}.

(** [generate_*_parameter_proxies(fill_value)] after [setup_unique_name]:
    one proxy per proxy of the model, every value [fill_value]. *)
Definition generate_parameter_proxies (proxies : list (string * AbstractMultiArray))
    (fill_value : Z) : list ParameterProxy :=
  (fun na =>
     let a := na.2 in
     let n := Z.to_nat (m_number_of_elements a) in
     mkParameterProxy (m_id a) (m_number_of_dimensions a) (m_number_of_elements a)
       ((fun f => (na.1 ++ indices_label a (Z.of_nat f))%string) <$> seq 0 n)
       (repeat fill_value n)) <$> proxies.

(** [TEST_F(TestModel, generate_variable_parameter_proxies)] (lines
    2824-2863), and the same tests for expressions (2865-2904, names [p],
    [q], [r]) and constraints (2906-2945, names [g], [h], [v]). *)
Definition generate_parameter_proxies_test (names : list string) (fill_value : Z)
    : list ParameterProxy :=
  generate_parameter_proxies (zip names xyz_arrays) fill_value.

(** ** The expectations of the tests *)

Local Open Scope Q_scope.

(** The tests of [compute_lagrangian], [update()] and [update(move)]:
    the Lagrangian is [46 + 100 (10 - 5) + 100 (2 - 1)], the objective is
    46 with every variable at 1, and 10 after the selection move from
    [x(0)] to [x(9)]. *)
Theorem model_value_tests_expected :
  compute_lagrangian_test == 46 + 100 * (10 - 5) + 100 * (2 - 1) /\
  update_arg_void_test == 46 /\ update_arg_move_test == 10.
Proof. vm_compute. repeat split; reflexivity. Qed.

Local Open Scope Z_scope.

(** [import_variable_values] (lines 2374-2384): after the import
    every element [z(i, j)] of the two-dimensional proxy, reached through
    [flat_index] of its array, holds [100 * (i + j)], as the loops of the
    test wrote it through the same indices. *)
Theorem import_variable_values_expected i j :
  (i < 10)%nat -> (j < 10)%nat ->
  import_test_z i j = Some (100 * (Z.of_nat i + Z.of_nat j)).
Proof.
  intros Hi Hj.
  assert (H : Forall (fun ij => import_test_z ij.1 ij.2 =
                                 Some (100 * (Z.of_nat ij.1 + Z.of_nat ij.2)))
                (list_prod (seq 0 10) (seq 0 10)))
    by (apply (bool_decide_unpack _); vm_compute; exact I).
  rewrite Forall_forall in H. apply (H (i, j)), list_elem_of_In, in_prod;
    apply in_seq; lia.
Qed.

(** The tests of [generate_variable_parameter_proxies] and its
    expression and constraint variants (names [x], [y], [z]; [p], [q],
    [r]; [g], [h], [v]), for any names and fill value: the three proxies
    keep the ids, dimensions and sizes of the scalar, the 10-element and
    the 10 x 10 proxy, their first and last names are [n0], ["n1[ 0]"],
    ["n1[ 9]"], ["n2[ 0,  0]"], ["n2[ 9,  9]"] as [indices_label] writes
    them, and they hold the fill value everywhere. *)
Theorem generate_parameter_proxies_expected (n0 n1 n2 : string) fill_value :
  let pps := generate_parameter_proxies_test [n0; n1; n2] fill_value in
  pp_id <$> pps = [0; 1; 2] /\ pp_number_of_dimensions <$> pps = [1; 1; 2]%nat /\
  pp_number_of_elements <$> pps = [1; 10; 100] /\
  (fun p => (head (pp_names p), last (pp_names p))) <$> pps =
    [(Some n0, Some n0);
     (Some (n1 ++ "[ 0]"), Some (n1 ++ "[ 9]"));
     (Some (n2 ++ "[ 0,  0]"), Some (n2 ++ "[ 9,  9]"))]%string /\
  Forall (fun p => pp_values p = repeat fill_value (Z.to_nat (pp_number_of_elements p))) pps.
Proof.
  cbv zeta. assert (A : (n0 ++ EmptyString)%string = n0) by (induction n0; cbn; congruence).
  vm_compute in A |- *. rewrite A. repeat split; repeat constructor.
Qed.

Lemma import_variable_values_expected_witness :
  import_test_z 3 4 = Some (100 * (Z.of_nat 3 + Z.of_nat 4)).
Proof. apply import_variable_values_expected; lia. Defined.
