(* ===== verification/ModelBuilder.v ===== *)
(** The model-construction API (spec, sections 3, 5, 6 and 7): a fresh
    model, [create_variable(s)], [create_expression(s)],
    [create_constraint(s)], [minimize] and [maximize].  model.h is not
    under [src/]; the operations follow the spec, and the initialize and
    objective tests of src/unnamed/part_000 (lines 116-204 and 618-778)
    are modelled beside them.  The spec does not give the bounds of a
    variable created without bounds; they are the values the creation
    tests observe (lines 214-215).

    A proxy is an [AbstractMultiArray] (MultiArray) with its name; a
    variable proxy also has the bounds of its elements.  The bodies of
    expression and constraint proxies are not kept: no test of this part
    reads them.  The limits [MAX_NUMBER_OF_*_PROXIES] are parameters: the
    tests loop up to them, and the theorems hold for every limit.  A
    creation fails with [TooManyProxies] when the model already holds as
    many proxies as the limit, then with [InvalidName] when the name does
    not match [[A-Za-z_][A-Za-z_0-9]*]; both are [std::logic_error] in the
    tests.  An empty shape, on which [compute_strides] throws
    [std::out_of_range], is [EmptyShape]. *)

From Stdlib Require Import String Ascii.
From S2P Require Import Prelude Score MultiArray Kernel.

Local Open Scope Z_scope.

(** The errors of the construction API. *)
Inductive ModelError : Type := TooManyProxies | InvalidName | EmptyShape.

(** [[A-Za-z_][A-Za-z_0-9]*] *)
Definition is_name_start (c : ascii) : bool :=
  let n := nat_of_ascii c in
  ((65 <=? n) && (n <=? 90))%nat || ((97 <=? n) && (n <=? 122))%nat || (n =? 95)%nat.

Definition is_name_char (c : ascii) : bool :=
  let n := nat_of_ascii c in is_name_start c || ((48 <=? n) && (n <=? 57))%nat.

Fixpoint all_name_chars (s : string) : bool :=
  match s with
  | EmptyString => true
  | String c s' => is_name_char c && all_name_chars s'
  end.

Definition is_valid_name (s : string) : bool :=
  match s with
  | EmptyString => false
  | String c s' => is_name_start c && all_name_chars s'
  end.

(** The shape argument of the three overloads of each [create_*s]. *)
Inductive ProxyShape : Type :=
  | ScalarShape
  | VectorShape (n : Z)
  | TensorShape (shape : list Z).

Definition shape_array (id : Z) (s : ProxyShape) : option AbstractMultiArray :=
  match s with
  | ScalarShape => new_scalar_array id
  | VectorShape n => new_vector_array id n
  | TensorShape shape => new_multi_array id shape
  end.

(** [model::VariableSense]: before setup a variable is [Binary] exactly
    when its bounds are [[0, 1]] (spec, section 3). *)
Inductive VariableSense : Type := Binary | Integer | Selection | Fixed.

(** A variable proxy: its array, its name, and the bounds and
    [has_bounds()] of its elements. *)
Record VariableProxy : Type := mkVariableProxy {
  vp_array : AbstractMultiArray;
  vp_name : string;
  vp_lower_bound : Z;
  vp_upper_bound : Z;
  vp_has_bounds : bool
}.

(** An expression or constraint proxy. *)
Record NamedProxy : Type := mkNamedProxy {
  np_array : AbstractMultiArray;
  np_name : string
}.

Definition sense_of_bounds (lower upper : Z) : VariableSense :=
  if (lower =? 0) && (upper =? 1) then Binary else Integer.

Definition variable_sense (v : VariableProxy) : VariableSense :=
  sense_of_bounds (vp_lower_bound v) (vp_upper_bound v).

(** The bounds of a variable created without bounds: the spec does not
    state them; [std::numeric_limits<int>::min() + 1] and
    [max() - 1] are what the tests of part_000 read back (lines 214-215). *)
Definition default_lower_bound : Z := int_min + 1.
Definition default_upper_bound : Z := int_max - 1.

(** [model::Objective]: a linear expression, or a function of the
    variable values, whose expression is left empty. *)
Inductive Objective : Type :=
  | ObjectiveExpression (e : Expression)
  | ObjectiveFunction (f : list (list Z) -> Q).

Definition objective_expression_of (o : Objective) : Expression :=
  match o with
  | ObjectiveExpression e => e
  | ObjectiveFunction _ => mkExpression [] 0
  end.

Definition objective_is_linear (o : Objective) : bool :=
  match o with ObjectiveExpression _ => true | ObjectiveFunction _ => false end.

Definition objective_value (o : Objective) (vals : list (list Z)) : Q :=
  match o with
  | ObjectiveExpression e => evaluate_expression e vals
  | ObjectiveFunction f => f vals
  end.

(** The state the construction API changes. *)
Record BuilderModel : Type := mkBuilderModel {
  m_variable_proxies : list VariableProxy;
  m_expression_proxies : list NamedProxy;
  m_constraint_proxies : list NamedProxy;
  m_variable_values : list (list Z);
  m_objective : Objective;
  m_is_defined_objective : bool;
  m_is_linear : bool;
  m_is_minimization : bool
}.

(** [Model()]: no proxy, no objective, linear, minimisation. *)
Definition new_model : BuilderModel :=
  mkBuilderModel [] [] [] [] (ObjectiveExpression (mkExpression [] 0)) false true true.

Definition model_sign (m : BuilderModel) : Q := if m_is_minimization m then 1 else -1.

Definition variable_names (m : BuilderModel) : list string := vp_name <$> m_variable_proxies m.
Definition expression_names (m : BuilderModel) : list string := np_name <$> m_expression_proxies m.
Definition constraint_names (m : BuilderModel) : list string := np_name <$> m_constraint_proxies m.

(** The checks every [create_*] makes before it appends the [count]-th
    proxy of its kind, and the new proxy's array with id [count]. *)
Definition new_proxy_array (max count : nat) (name : string) (shape : ProxyShape)
    : ModelError + AbstractMultiArray :=
  if decide (max <= count)%nat then inl TooManyProxies
  else if negb (is_valid_name name) then inl InvalidName
  else match shape_array (Z.of_nat count) shape with
       | Some a => inr a
       | None => inl EmptyShape
       end.

(** [create_variable(s)(name, shape[, lower, upper])]: every element
    starts at 0. *)
Definition create_variables (max : nat) (name : string) (shape : ProxyShape)
    (bounds : option (Z * Z)) (m : BuilderModel) : ModelError + (BuilderModel * VariableProxy) :=
  match new_proxy_array max (length (m_variable_proxies m)) name shape with
  | inl e => inl e
  | inr a =>
      let '(lower, upper) := default (default_lower_bound, default_upper_bound) bounds in
      let v := mkVariableProxy a name lower upper (bool_decide (is_Some bounds)) in
      inr ({| m_variable_proxies := m_variable_proxies m ++ [v];
              m_expression_proxies := m_expression_proxies m;
              m_constraint_proxies := m_constraint_proxies m;
              m_variable_values :=
                m_variable_values m ++ [repeat 0 (Z.to_nat (m_number_of_elements a))];
              m_objective := m_objective m;
              m_is_defined_objective := m_is_defined_objective m;
              m_is_linear := m_is_linear m;
              m_is_minimization := m_is_minimization m |}, v)
  end.

(** [create_expression(s)(name, shape)] and [create_expression(name,
    expression_like)] (a scalar proxy). *)
Definition create_expressions (max : nat) (name : string) (shape : ProxyShape)
    (m : BuilderModel) : ModelError + (BuilderModel * NamedProxy) :=
  match new_proxy_array max (length (m_expression_proxies m)) name shape with
  | inl e => inl e
  | inr a =>
      let p := mkNamedProxy a name in
      inr ({| m_variable_proxies := m_variable_proxies m;
              m_expression_proxies := m_expression_proxies m ++ [p];
              m_constraint_proxies := m_constraint_proxies m;
              m_variable_values := m_variable_values m;
              m_objective := m_objective m;
              m_is_defined_objective := m_is_defined_objective m;
              m_is_linear := m_is_linear m;
              m_is_minimization := m_is_minimization m |}, p)
  end.

(** [create_constraint(s)(name, shape)] and [create_constraint(name,
    constraint)] (a scalar proxy). *)
Definition create_constraints (max : nat) (name : string) (shape : ProxyShape)
    (m : BuilderModel) : ModelError + (BuilderModel * NamedProxy) :=
  match new_proxy_array max (length (m_constraint_proxies m)) name shape with
  | inl e => inl e
  | inr a =>
      let p := mkNamedProxy a name in
      inr ({| m_variable_proxies := m_variable_proxies m;
              m_expression_proxies := m_expression_proxies m;
              m_constraint_proxies := m_constraint_proxies m ++ [p];
              m_variable_values := m_variable_values m;
              m_objective := m_objective m;
              m_is_defined_objective := m_is_defined_objective m;
              m_is_linear := m_is_linear m;
              m_is_minimization := m_is_minimization m |}, p)
  end.

(** [minimize(objective)] and [maximize(objective)]: the objective is
    defined and the direction set. *)
Definition set_objective (minimization : bool) (o : Objective) (m : BuilderModel) : BuilderModel :=
  {| m_variable_proxies := m_variable_proxies m;
     m_expression_proxies := m_expression_proxies m;
     m_constraint_proxies := m_constraint_proxies m;
     m_variable_values := m_variable_values m;
     m_objective := o;
     m_is_defined_objective := true;
     m_is_linear := m_is_linear m;
     m_is_minimization := minimization |}.

Definition minimize (o : Objective) (m : BuilderModel) : BuilderModel := set_objective true o m.
Definition maximize (o : Objective) (m : BuilderModel) : BuilderModel := set_objective false o m.

(** [for (auto&& element : x.flat_indexed_variables()) element = v;] on
    the variable proxy [k]. *)
Definition set_all_values (k : nat) (v : Z) (m : BuilderModel) : BuilderModel :=
  {| m_variable_proxies := m_variable_proxies m;
     m_expression_proxies := m_expression_proxies m;
     m_constraint_proxies := m_constraint_proxies m;
     m_variable_values := alter (fun row => repeat v (length row)) k (m_variable_values m);
     m_objective := m_objective m;
     m_is_defined_objective := m_is_defined_objective m;
     m_is_linear := m_is_linear m;
     m_is_minimization := m_is_minimization m |}.

(** [model.objective().value()] after [model.update()]. *)
Definition model_objective_value (m : BuilderModel) : Q :=
  objective_value (m_objective m) (m_variable_values m).

(** ** The tests of part_000 *)

(** Lines 116-204: the flags and names of a fresh model. *)
Definition initialize_test : list bool * bool * bool * bool * Q :=
  ([bool_decide (variable_names new_model = []); bool_decide (expression_names new_model = []);
    bool_decide (constraint_names new_model = [])],
   m_is_defined_objective new_model, m_is_linear new_model, m_is_minimization new_model,
   model_sign new_model).

(** Lines 618-778: [x] of 10 elements in [[-1, 1]], [p = x.sum() + 1],
    the objective set by [minimize] or [maximize] to the function
    [p.evaluate(move)], to [p] or to [p(0)], then every [x] set to 1: the
    flags, the sign, the objective's expression and its value. *)
Definition x_sum_plus_1 : Expression :=
  mkExpression ((fun j => (mkVarRef 0 j, 1%Q)) <$> seq 0 10) 1.

Definition objective_test (minimization : bool) (o : Objective) :=
  let m := default new_model
             (match create_variables 1 "x" (VectorShape 10) (Some (-1, 1)) new_model with
              | inr (m, _) => Some m
              | inl _ => None
              end) in
  let m := set_all_values 0 1 (set_objective minimization o m) in
  (m_is_defined_objective m, m_is_minimization m, model_sign m,
   length (sensitivities (objective_expression_of (m_objective m))),
   constant_value (objective_expression_of (m_objective m)),
   objective_is_linear (m_objective m), model_objective_value m).

Definition objective_tests :=
  [objective_test true (ObjectiveFunction (evaluate_expression x_sum_plus_1));
   objective_test true (ObjectiveExpression x_sum_plus_1);
   objective_test true (ObjectiveExpression x_sum_plus_1);
   objective_test false (ObjectiveFunction (evaluate_expression x_sum_plus_1));
   objective_test false (ObjectiveExpression x_sum_plus_1);
   objective_test false (ObjectiveExpression x_sum_plus_1)].

(** ** The invariant of a model under construction *)

(** The [i]-th proxy of a kind has id [i]. *)
Definition ids_match {P} (id_of : P -> Z) (ps : list P) : Prop :=
  forall i p, ps !! i = Some p -> id_of p = Z.of_nat i.

(** Ids are positions, no kind holds more proxies than its limit, and
    every variable proxy has a row of values of its number of elements. *)
Definition builder_wf (maxv maxe maxc : nat) (m : BuilderModel) : Prop :=
  ids_match (fun v => m_id (vp_array v)) (m_variable_proxies m) /\
  ids_match (fun p => m_id (np_array p)) (m_expression_proxies m) /\
  ids_match (fun p => m_id (np_array p)) (m_constraint_proxies m) /\
  (length (m_variable_proxies m) <= maxv)%nat /\ (length (m_expression_proxies m) <= maxe)%nat /\
  (length (m_constraint_proxies m) <= maxc)%nat /\
  Forall2 (fun v row => length row = Z.to_nat (m_number_of_elements (vp_array v)))
    (m_variable_proxies m) (m_variable_values m).

(** ** Names, arrays and the creation laws *)

Lemma all_name_chars_app s1 s2 :
  all_name_chars (s1 ++ s2) = all_name_chars s1 && all_name_chars s2.
Proof. induction s1 as [|c s1 IH]; cbn; [reflexivity|]. rewrite IH. apply andb_assoc. Qed.

Lemma all_name_chars_uint u : all_name_chars (uint_to_string u) = true.
Proof. induction u; cbn; assumption || reflexivity. Qed.

(** [std::to_string(i)] of a non-negative [i] is made of digits. *)
Lemma all_name_chars_int_to_string i : all_name_chars (int_to_string (Z.of_nat i)) = true.
Proof.
  unfold int_to_string. rewrite (proj2 (Z.ltb_ge _ _)) by lia. apply all_name_chars_uint.
Qed.

(** A name that starts with a letter followed by [std::to_string(i)] is
    valid. *)
Lemma prefixed_name_valid c i :
  is_name_start c = true -> is_valid_name (String c EmptyString ++ int_to_string (Z.of_nat i)) = true.
Proof. intros Hc. cbn. rewrite Hc, all_name_chars_int_to_string. reflexivity. Qed.

(** The shapes every constructor accepts. *)
Definition shape_ok (s : ProxyShape) : Prop :=
  match s with TensorShape [] => False | _ => True end.

Lemma shape_array_id id s a : shape_array id s = Some a -> m_id a = id.
Proof.
  intros H. destruct s; cbn in H;
    unfold new_scalar_array, new_vector_array, new_multi_array, with_strides in H;
    try (match type of H with context [compute_strides ?d ?sh] => destruct (compute_strides d sh) end);
    cbn in H; simplify_eq; reflexivity.
Qed.

Lemma shape_array_some id s : shape_ok s -> is_Some (shape_array id s).
Proof.
  destruct s as [| |[|x t]]; cbn [shape_array shape_ok]; intros H; try contradiction;
    [eexists; reflexivity..|].
  apply new_multi_array_is_some. discriminate.
Qed.

Lemma new_proxy_array_full max count name shape :
  (max <= count)%nat -> new_proxy_array max count name shape = inl TooManyProxies.
Proof. intros H. unfold new_proxy_array. rewrite decide_True by exact H. reflexivity. Qed.

Lemma new_proxy_array_invalid max count name shape :
  (count < max)%nat -> is_valid_name name = false ->
  new_proxy_array max count name shape = inl InvalidName.
Proof.
  intros H Hn. unfold new_proxy_array. rewrite decide_False by lia. rewrite Hn. reflexivity.
Qed.

Lemma new_proxy_array_ok max count name shape :
  (count < max)%nat -> is_valid_name name = true -> shape_ok shape ->
  exists a, new_proxy_array max count name shape = inr a /\ shape_array (Z.of_nat count) shape = Some a.
Proof.
  intros H Hn Hs. unfold new_proxy_array. rewrite decide_False by lia. rewrite Hn.
  destruct (shape_array_some (Z.of_nat count) shape Hs) as [a ->]. eexists; split; reflexivity.
Qed.

Lemma new_proxy_array_inr max count name shape a :
  new_proxy_array max count name shape = inr a ->
  (count < max)%nat /\ shape_array (Z.of_nat count) shape = Some a.
Proof.
  unfold new_proxy_array. destruct (decide _); [discriminate|].
  destruct (is_valid_name name); [|discriminate]. cbn.
  destruct (shape_array _ _) eqn:E; intros H; [injection H as <-|discriminate]. split; [lia | reflexivity].
Qed.

(** The three [create_*] and their laws: a full model refuses, an invalid
    name is refused, and otherwise the new proxy is appended. *)
Lemma create_variables_full max name shape bounds m :
  (max <= length (m_variable_proxies m))%nat ->
  create_variables max name shape bounds m = inl TooManyProxies.
Proof. intros H. unfold create_variables. rewrite new_proxy_array_full by exact H. reflexivity. Qed.

Lemma create_variables_invalid max name shape bounds m :
  (length (m_variable_proxies m) < max)%nat -> is_valid_name name = false ->
  create_variables max name shape bounds m = inl InvalidName.
Proof.
  intros H Hn. unfold create_variables. rewrite new_proxy_array_invalid by assumption. reflexivity.
Qed.

(** What a created variable proxy holds. *)
Definition variable_created (bounds : option (Z * Z)) (i : nat) (name : string)
    (v : VariableProxy) : Prop :=
  m_id (vp_array v) = Z.of_nat i /\ vp_name v = name /\
  (vp_lower_bound v, vp_upper_bound v) = default (default_lower_bound, default_upper_bound) bounds /\
  vp_has_bounds v = bool_decide (is_Some bounds).

Lemma create_variables_ok max name shape bounds m :
  (length (m_variable_proxies m) < max)%nat -> is_valid_name name = true -> shape_ok shape ->
  exists m' v, create_variables max name shape bounds m = inr (m', v) /\
    m_variable_proxies m' = m_variable_proxies m ++ [v] /\
    variable_created bounds (length (m_variable_proxies m)) name v.
Proof.
  intros H Hn Hs. destruct (new_proxy_array_ok _ _ name shape H Hn Hs) as (a & Ha & Hsa).
  unfold create_variables. rewrite Ha. destruct (default _ bounds) as [lo up] eqn:Hb.
  do 2 eexists. split; [reflexivity|]. split; [reflexivity|].
  unfold variable_created; cbn. rewrite (shape_array_id _ _ _ Hsa). auto.
Qed.

Lemma create_expressions_full max name shape m :
  (max <= length (m_expression_proxies m))%nat ->
  create_expressions max name shape m = inl TooManyProxies.
Proof. intros H. unfold create_expressions. rewrite new_proxy_array_full by exact H. reflexivity. Qed.

Lemma create_expressions_invalid max name shape m :
  (length (m_expression_proxies m) < max)%nat -> is_valid_name name = false ->
  create_expressions max name shape m = inl InvalidName.
Proof.
  intros H Hn. unfold create_expressions. rewrite new_proxy_array_invalid by assumption. reflexivity.
Qed.

(** What a created expression or constraint proxy holds. *)
Definition named_created (i : nat) (name : string) (p : NamedProxy) : Prop :=
  m_id (np_array p) = Z.of_nat i /\ np_name p = name.

Lemma create_expressions_ok max name shape m :
  (length (m_expression_proxies m) < max)%nat -> is_valid_name name = true -> shape_ok shape ->
  exists m' p, create_expressions max name shape m = inr (m', p) /\
    m_expression_proxies m' = m_expression_proxies m ++ [p] /\
    named_created (length (m_expression_proxies m)) name p.
Proof.
  intros H Hn Hs. destruct (new_proxy_array_ok _ _ name shape H Hn Hs) as (a & Ha & Hsa).
  unfold create_expressions. rewrite Ha. do 2 eexists. split; [reflexivity|]. split; [reflexivity|].
  split; [exact (shape_array_id _ _ _ Hsa) | reflexivity].
Qed.

Lemma create_constraints_full max name shape m :
  (max <= length (m_constraint_proxies m))%nat ->
  create_constraints max name shape m = inl TooManyProxies.
Proof. intros H. unfold create_constraints. rewrite new_proxy_array_full by exact H. reflexivity. Qed.

Lemma create_constraints_invalid max name shape m :
  (length (m_constraint_proxies m) < max)%nat -> is_valid_name name = false ->
  create_constraints max name shape m = inl InvalidName.
Proof.
  intros H Hn. unfold create_constraints. rewrite new_proxy_array_invalid by assumption. reflexivity.
Qed.

Lemma create_constraints_ok max name shape m :
  (length (m_constraint_proxies m) < max)%nat -> is_valid_name name = true -> shape_ok shape ->
  exists m' p, create_constraints max name shape m = inr (m', p) /\
    m_constraint_proxies m' = m_constraint_proxies m ++ [p] /\
    named_created (length (m_constraint_proxies m)) name p.
Proof.
  intros H Hn Hs. destruct (new_proxy_array_ok _ _ name shape H Hn Hs) as (a & Ha & Hsa).
  unfold create_constraints. rewrite Ha. do 2 eexists. split; [reflexivity|]. split; [reflexivity|].
  split; [exact (shape_array_id _ _ _ Hsa) | reflexivity].
Qed.

Lemma ids_match_snoc {P} (id_of : P -> Z) ps p :
  ids_match id_of ps -> id_of p = Z.of_nat (length ps) -> ids_match id_of (ps ++ [p]).
Proof.
  intros H Hp i q Hi. apply lookup_app_Some in Hi as [Hi|[Hge Hi]]; [exact (H i q Hi)|].
  apply list_lookup_singleton_Some in Hi as [Hi0 <-]. rewrite Hp. f_equal. lia.
Qed.

(** C31. [builder_wf] holds of a fresh model and every operation of the
    construction API preserves it: a created proxy gets the next id of its
    kind, no creation goes past the limit, and the values of a created
    variable proxy are as many as its elements. *)
Theorem builder_wf_preserved maxv maxe maxc :
  builder_wf maxv maxe maxc new_model /\
  (forall m name shape bounds m' v, builder_wf maxv maxe maxc m ->
     create_variables maxv name shape bounds m = inr (m', v) -> builder_wf maxv maxe maxc m') /\
  (forall m name shape m' p, builder_wf maxv maxe maxc m ->
     create_expressions maxe name shape m = inr (m', p) -> builder_wf maxv maxe maxc m') /\
  (forall m name shape m' p, builder_wf maxv maxe maxc m ->
     create_constraints maxc name shape m = inr (m', p) -> builder_wf maxv maxe maxc m') /\
  (forall m minimization o, builder_wf maxv maxe maxc m ->
     builder_wf maxv maxe maxc (set_objective minimization o m)) /\
  (forall m k x, builder_wf maxv maxe maxc m -> builder_wf maxv maxe maxc (set_all_values k x m)).
Proof.
  split; [|split; [|split; [|split; [|split]]]].
  - repeat split; cbn; try lia; [intros ?? H; rewrite lookup_nil in H; discriminate..|constructor].
  - intros m name shape bounds m' v (Hv & He & Hc & Hlv & Hle & Hlc & Hrows) H.
    unfold create_variables in H. destruct (new_proxy_array _ _ _ _) as [e|a] eqn:E; [discriminate|].
    destruct (default _ bounds) as [lo up]. injection H as <- <-.
    apply new_proxy_array_inr in E as [Hlt Hsa]. unfold builder_wf; cbn.
    split; [apply ids_match_snoc; [exact Hv | exact (shape_array_id _ _ _ Hsa)]|].
    rewrite length_app; cbn. repeat split; try assumption; try lia.
    apply Forall2_app; [exact Hrows|]. constructor; [apply repeat_length | constructor].
  - intros m name shape m' p (Hv & He & Hc & Hlv & Hle & Hlc & Hrows) H.
    unfold create_expressions in H. destruct (new_proxy_array _ _ _ _) as [e|a] eqn:E; [discriminate|].
    injection H as <- <-. apply new_proxy_array_inr in E as [Hlt Hsa]. unfold builder_wf; cbn.
    rewrite length_app; cbn. repeat split; try assumption; try lia.
    apply ids_match_snoc; [exact He | exact (shape_array_id _ _ _ Hsa)].
  - intros m name shape m' p (Hv & He & Hc & Hlv & Hle & Hlc & Hrows) H.
    unfold create_constraints in H. destruct (new_proxy_array _ _ _ _) as [e|a] eqn:E; [discriminate|].
    injection H as <- <-. apply new_proxy_array_inr in E as [Hlt Hsa]. unfold builder_wf; cbn.
    rewrite length_app; cbn. repeat split; try assumption; try lia.
    apply ids_match_snoc; [exact Hc | exact (shape_array_id _ _ _ Hsa)].
  - intros m minimization o H. exact H.
  - intros m k x (Hv & He & Hc & Hlv & Hle & Hlc & Hrows). unfold builder_wf; cbn.
    repeat split; try assumption.
    apply Forall2_alter_r; [exact Hrows|]. intros v row _ _ Hr. rewrite repeat_length. exact Hr.
Qed.

(** The tests of a fresh model and of [minimize]/[maximize] (lines
    116-204 and 618-778): no names, no objective, linear, minimisation
    with sign 1; then, for the objective set to a function, to [p] and to
    [p(0)], the flags, the sign (1 or -1), the objective's expression
    (empty for a function, else 10 terms and constant 1), its linearity
    and its value 11 with every [x] at 1. *)
Theorem model_objective_tests_expected :
  initialize_test = ([true; true; true], false, true, true, 1%Q) /\
  objective_tests =
    [(true, true, 1%Q, 0%nat, 0%Q, false, 11%Q); (true, true, 1%Q, 10%nat, 1%Q, true, 11%Q);
     (true, true, 1%Q, 10%nat, 1%Q, true, 11%Q); (true, false, (-1)%Q, 0%nat, 0%Q, false, 11%Q);
     (true, false, (-1)%Q, 10%nat, 1%Q, true, 11%Q); (true, false, (-1)%Q, 10%nat, 1%Q, true, 11%Q)].
Proof. split; vm_compute; reflexivity. Qed.

