(* ===== verification/ModelSetup.v ===== *)
(** The setup pipeline of [model::Model] (spec, section 4.1) on the
    variables one by one: [verify_problem], [setup_unique_name], the
    presolve ([fix_implicit_fixed_variables],
    [remove_redundant_constraints_with_tightening_variable_bounds] and
    [remove_independent_variables], iterated to a fixed point),
    [categorize_variables], and the verification and correction of the
    initial values of the binary and the integer variables, with the
    general theorems on them.

    model.h is not under [src/]: the operations follow the spec, sections
    3, 4.1 and 7.  The generated names are built with [indices_label] of
    constraint_reference.h (MultiArray).  A variable is one element of a
    variable proxy, with its [(proxy_index, flat_index)], its name, value,
    bounds, fixed flag and sense; the constraints are the linear
    constraints of [Kernel], flattened. *)

From Stdlib Require Import String Ascii.
From stdpp Require Import strings.
From S2P Require Import Prelude Score MultiArray Kernel ModelBuilder.

Local Open Scope Z_scope.

(** The [std::logic_error]s of the setup stages (spec, sections 4.1 and 7:
    [InvalidModel], [InvalidName] on a collision or a space in a
    user-supplied name, [InvalidInitialValue]). *)
Inductive SetupError : Type :=
  | NoDecisionVariables
  | NoObjectiveAndConstraints
  | InvalidElementName
  | DuplicateName
  | InvalidInitialValue.

(** A variable (spec, section 3). *)
Record ModelVariable : Type := mkModelVariable {
  v_ref : VarRef;
  v_name : string;
  v_value : Z;
  v_lower_bound : Z;
  v_upper_bound : Z;
  v_is_fixed : bool;
  v_sense : VariableSense
}.

(** The part of the model the setup reads and writes: the variables of
    every proxy in order, the names and arrays of the variable proxies,
    the constraints, the objective and the flags of the objective. *)
Record SetupModel : Type := mkSetupModel {
  s_variables : list ModelVariable;
  s_variable_proxies : list (string * AbstractMultiArray);
  s_constraints : list Constraint;
  s_objective : Expression;
  s_is_defined_objective : bool;
  s_is_minimization : bool
}.

(** ** The operations on one variable *)

(** [x = value] ([Variable::operator=]) *)
Definition assign_value (x : Z) (v : ModelVariable) : ModelVariable :=
  mkModelVariable (v_ref v) (v_name v) x (v_lower_bound v) (v_upper_bound v) (v_is_fixed v) (v_sense v).

(** [fix_by(value)]: the value is set and the variable fixed; the bounds
    and the sense are kept. *)
Definition fix_by (x : Z) (v : ModelVariable) : ModelVariable :=
  mkModelVariable (v_ref v) (v_name v) x (v_lower_bound v) (v_upper_bound v) true (v_sense v).

(** [set_bound(lower, upper)]: the sense follows the bounds (section 3:
    Binary exactly on [[0, 1]]). *)
Definition set_bound (lower upper : Z) (v : ModelVariable) : ModelVariable :=
  mkModelVariable (v_ref v) (v_name v) (v_value v) lower upper (v_is_fixed v)
    (sense_of_bounds lower upper).

Definition set_name (name : string) (v : ModelVariable) : ModelVariable :=
  mkModelVariable (v_ref v) name (v_value v) (v_lower_bound v) (v_upper_bound v) (v_is_fixed v) (v_sense v).

Definition set_sense (s : VariableSense) (v : ModelVariable) : ModelVariable :=
  mkModelVariable (v_ref v) (v_name v) (v_value v) (v_lower_bound v) (v_upper_bound v) (v_is_fixed v) s.

(** The variables [create_variable(s)] adds as the proxy [p]: one per
    element, at 0, unnamed, free, with the proxy's bounds. *)
Definition proxy_variables (p : nat) (vp : VariableProxy) : list ModelVariable :=
  (fun j => mkModelVariable (mkVarRef p j) EmptyString 0 (vp_lower_bound vp) (vp_upper_bound vp)
              false (variable_sense vp))
    <$> seq 0 (Z.to_nat (m_number_of_elements (vp_array vp))).

(** The model the setup starts from: the variable proxies of the builder
    with their elements, and the given constraints. *)
Definition setup_model_of (m : BuilderModel) (constraints : list Constraint) : SetupModel :=
  {| s_variables := concat (imap proxy_variables (m_variable_proxies m));
     s_variable_proxies := (fun vp => (vp_name vp, vp_array vp)) <$> m_variable_proxies m;
     s_constraints := constraints;
     s_objective := objective_expression_of (m_objective m);
     s_is_defined_objective := m_is_defined_objective m;
     s_is_minimization := m_is_minimization m |}.

Definition with_variables (vs : list ModelVariable) (m : SetupModel) : SetupModel :=
  mkSetupModel vs (s_variable_proxies m) (s_constraints m) (s_objective m)
    (s_is_defined_objective m) (s_is_minimization m).

Definition with_constraints (cs : list Constraint) (m : SetupModel) : SetupModel :=
  mkSetupModel (s_variables m) (s_variable_proxies m) cs (s_objective m)
    (s_is_defined_objective m) (s_is_minimization m).

(** The variable [r], and [f] applied to it. *)
Definition find_variable (vs : list ModelVariable) (r : VarRef) : option ModelVariable :=
  List.find (fun v => bool_decide (v_ref v = r)) vs.

Definition alter_variable (r : VarRef) (f : ModelVariable -> ModelVariable)
    (vs : list ModelVariable) : list ModelVariable :=
  (fun v => if bool_decide (v_ref v = r) then f v else v) <$> vs.

(** ** [verify_problem] *)

(** No variable, or neither a constraint nor an objective, is an
    [InvalidModel]. *)
Definition verify_problem (m : SetupModel) : SetupError + unit :=
  if bool_decide (s_variables m = []) then inl NoDecisionVariables
  else if bool_decide (s_constraints m = []) && negb (s_is_defined_objective m)
  then inl NoObjectiveAndConstraints
  else inr tt.

(** ** [setup_unique_name] *)

(** [name + indices_label(flat_index)], the name of an element no name was
    given to (a scalar proxy's label is empty). *)
Definition generated_name (proxies : list (string * AbstractMultiArray)) (v : ModelVariable) : string :=
  match proxies !! proxy_index (v_ref v) with
  | Some (name, a) => (name ++ indices_label a (Z.of_nat (Score.flat_index (v_ref v))))%string
  | None => v_name v
  end.

Definition has_space (s : string) : bool :=
  existsb (fun c => bool_decide (c = " "%char)) (list_ascii_of_string s).

Definition name_unnamed (proxies : list (string * AbstractMultiArray)) (v : ModelVariable)
    : ModelVariable :=
  if bool_decide (v_name v = EmptyString) then set_name (generated_name proxies v) v else v.

(** Every unnamed variable gets its generated name; a user-supplied name
    with a space, or two variables with one name, is an error. *)
Definition setup_unique_name (m : SetupModel) : SetupError + SetupModel :=
  if existsb (fun v => has_space (v_name v)) (s_variables m) then inl InvalidElementName
  else
    let vs := name_unnamed (s_variable_proxies m) <$> s_variables m in
    if bool_decide (NoDup (v_name <$> vs)) then inr (with_variables vs m) else inl DuplicateName.

(** ** The presolve (spec, section 4.1, stage 5) *)

(** The variables of an expression, each once, and its coefficient of
    each ([Expression::sensitivities()], an [std::unordered_map]). *)
Definition expression_refs (e : Expression) : list VarRef := remove_dups (fst <$> sensitivities e).

Definition is_free (vs : list ModelVariable) (r : VarRef) : bool :=
  match find_variable vs r with Some v => negb (v_is_fixed v) | None => false end.

Definition variable_value_of (vs : list ModelVariable) (r : VarRef) : Z :=
  default 0 (v_value <$> find_variable vs r).

(** The free variables of an expression with a non-zero coefficient. *)
Definition free_refs (vs : list ModelVariable) (e : Expression) : list VarRef :=
  List.filter (fun r => is_free vs r && negb (Qeq_bool (coefficient e r) 0%Q)) (expression_refs e).

(** The constant and the terms of the fixed variables: [b * y_fixed + c]. *)
Definition fixed_term_value (vs : list ModelVariable) (e : Expression) : Q :=
  (constant_value e +
   sumQ (map (fun r => coefficient e r * inject_Z (variable_value_of vs r))
             (List.filter (fun r => negb (is_free vs r)) (expression_refs e))))%Q.

(** The bounds [a * x + c (sense) 0] puts on an integer [x], [a <> 0]:
    [x <= floor(-c / a)] or [x >= ceil(-c / a)] as the sense and the sign
    of [a] say, both for an equality. *)
Definition induced_bounds (s : ConstraintSense) (a c : Q) : option Z * option Z :=
  let b := (- c / a)%Q in
  match s with
  | Less => if Qle_bool a 0%Q then (Some (Qceiling b), None) else (None, Some (Qfloor b))
  | Greater => if Qle_bool a 0%Q then (None, Some (Qfloor b)) else (Some (Qceiling b), None)
  | Equal => (Some (Qceiling b), Some (Qfloor b))
  end.

(** The bounds are tightened, never widened; a range that collapses to one
    value fixes the variable at it. *)
Definition tighten_variable_bounds (lower upper : option Z) (v : ModelVariable) : ModelVariable :=
  let l := default (v_lower_bound v) (Z.max (v_lower_bound v) <$> lower) in
  let u := default (v_upper_bound v) (Z.min (v_upper_bound v) <$> upper) in
  let v' := set_bound l u v in
  if l =? u then fix_by l v' else v'.

Definition disable (c : Constraint) : Constraint := mkConstraint (expression c) (constraint_sense c) false.

(** One enabled constraint: with no free variable it is disabled when the
    fixed variables satisfy it; with exactly one free variable [x] the
    bounds of [x] are tightened to the ones the constraint induces, after
    which the constraint is implied by them and disabled; with more it is
    kept.  The count is the number of constraints disabled. *)
Definition remove_redundant_constraint (vs : list ModelVariable) (c : Constraint)
    : list ModelVariable * Constraint * nat :=
  if negb (is_enabled c) then (vs, c, 0%nat)
  else
    let e := expression c in
    match free_refs vs e with
    | [] => if Qeq_bool (violation (constraint_sense c) (fixed_term_value vs e)) 0%Q
            then (vs, disable c, 1%nat) else (vs, c, 0%nat)
    | [r] => let '(lo, up) := induced_bounds (constraint_sense c) (coefficient e r) (fixed_term_value vs e) in
             (alter_variable r (tighten_variable_bounds lo up) vs, disable c, 1%nat)
    | _ => (vs, c, 0%nat)
    end.

(** [remove_redundant_constraints_with_tightening_variable_bounds]: the
    constraints in order, each seeing the bounds and fixings of the ones
    before. *)
Fixpoint remove_redundant_constraints (vs : list ModelVariable) (cs : list Constraint)
    : list ModelVariable * list Constraint * nat :=
  match cs with
  | [] => (vs, [], 0%nat)
  | c :: cs' =>
      let '(vs1, c1, n1) := remove_redundant_constraint vs c in
      let '(vs2, cs2, n2) := remove_redundant_constraints vs1 cs' in
      (vs2, c1 :: cs2, (n1 + n2)%nat)
  end.

(** [fix_implicit_fixed_variables]: a free variable with [lower = upper]
    is fixed at that value. *)
Definition fix_implicit_fixed_variable (v : ModelVariable) : ModelVariable * nat :=
  if negb (v_is_fixed v) && (v_lower_bound v =? v_upper_bound v)
  then (fix_by (v_lower_bound v) v, 1%nat) else (v, 0%nat).

(** The variables, and how many of them changed. *)
Definition map_count (f : ModelVariable -> ModelVariable * nat) (vs : list ModelVariable)
    : list ModelVariable * nat :=
  (fst <$> (f <$> vs), sum_list_with (fun v => snd (f v)) vs).

Definition fix_implicit_fixed_variables (vs : list ModelVariable) : list ModelVariable * nat :=
  map_count fix_implicit_fixed_variable vs.

(** A variable is related to a constraint whose expression has a non-zero
    coefficient of it ([setup_variable_related_constraints]). *)
Definition is_related (cs : list Constraint) (r : VarRef) : bool :=
  existsb (fun c => is_enabled c && negb (Qeq_bool (coefficient (expression c) r) 0%Q)) cs.

(** [remove_independent_variables]: a free variable in no enabled
    constraint is fixed at its lower bound when its coefficient in the
    objective, as a minimisation, is positive, and at its upper bound
    otherwise. *)
Definition remove_independent_variable (sign : Q) (objective : Expression) (cs : list Constraint)
    (v : ModelVariable) : ModelVariable * nat :=
  if negb (v_is_fixed v) && negb (is_related cs (v_ref v)) then
    (fix_by (if Qle_bool (sign * coefficient objective (v_ref v))%Q 0%Q
             then v_upper_bound v else v_lower_bound v) v, 1%nat)
  else (v, 0%nat).

Definition remove_independent_variables (sign : Q) (objective : Expression) (cs : list Constraint)
    (vs : list ModelVariable) : list ModelVariable * nat :=
  map_count (remove_independent_variable sign objective cs) vs.

Definition setup_sign (m : SetupModel) : Q := if s_is_minimization m then 1%Q else (-1)%Q.

(** One round of the presolve, and the number of changes it made. *)
Definition presolve_round (m : SetupModel) : SetupModel * nat :=
  let '(vs1, n1) := fix_implicit_fixed_variables (s_variables m) in
  let '(vs2, cs2, n2) := remove_redundant_constraints vs1 (s_constraints m) in
  let '(vs3, n3) := remove_independent_variables (setup_sign m) (s_objective m) cs2 vs2 in
  (with_constraints cs2 (with_variables vs3 m), (n1 + n2 + n3)%nat).

(** The rounds until one changes nothing, with [fuel] rounds at most. *)
Fixpoint presolve_loop (fuel : nat) (m : SetupModel) : SetupModel :=
  match fuel with
  | O => m
  | S fuel' => let '(m', n) := presolve_round m in
               if (n =? 0)%nat then m' else presolve_loop fuel' m'
  end.

(** [presolve]: each round that changes something fixes a variable or
    disables a constraint, so one round more than there are variables and
    constraints is enough ([presolve_reaches_fixed_point]). *)
Definition presolve (m : SetupModel) : SetupModel :=
  presolve_loop (S (length (s_variables m) + length (s_constraints m))) m.

(** ** [categorize_variables] and [categorize_constraints] *)

Definition is_binary_sense (s : VariableSense) : bool := match s with Binary => true | _ => false end.
Definition is_integer_sense (s : VariableSense) : bool := match s with Integer => true | _ => false end.

(** The counts of [categorize_variables]: the spec (section 4.1, stage 6)
    partitions the variables into Fixed, Binary and Integer. *)
Record VariableCounts : Type := mkVariableCounts {
  number_of_variables : nat;
  number_of_fixed_variables : nat;
  number_of_binary_variables : nat;
  number_of_integer_variables : nat
}.

Definition categorize_variables (vs : list ModelVariable) : VariableCounts :=
  mkVariableCounts (length vs) (length (List.filter v_is_fixed vs))
    (length (List.filter (fun v => negb (v_is_fixed v) && is_binary_sense (v_sense v)) vs))
    (length (List.filter (fun v => negb (v_is_fixed v) && is_integer_sense (v_sense v)) vs)).

Definition number_of_disabled_constraints (cs : list Constraint) : nat :=
  length (List.filter (fun c => negb (is_enabled c)) cs).

(** ** The verification and correction of the initial values *)

(** A pass over a list that stops at the first error. *)
Fixpoint map_or_error {A B E : Type} (f : A -> E + B) (l : list A) : E + list B :=
  match l with
  | [] => inr []
  | x :: l' =>
      match f x with
      | inl e => inl e
      | inr y => match map_or_error f l' with inl e => inl e | inr ys => inr (y :: ys) end
      end
  end.

(** One variable of the category (spec, sections 4.1 stage 10 and 7): a
    value outside [[lower, upper]] is an [InvalidInitialValue] when the
    correction is disabled, and is snapped into the range when it is
    enabled. *)
Definition verify_and_correct_variable (correction : bool) (v : ModelVariable)
    : SetupError + ModelVariable :=
  if (v_lower_bound v <=? v_value v) && (v_value v <=? v_upper_bound v) then inr v
  else if correction
  then inr (assign_value (Z.max (v_lower_bound v) (Z.min (v_upper_bound v) (v_value v))) v)
  else inl InvalidInitialValue.

Definition verify_and_correct_initial_values (in_category : VariableSense -> bool)
    (correction : bool) (vs : list ModelVariable) : SetupError + list ModelVariable :=
  map_or_error (fun v => if in_category (v_sense v) then verify_and_correct_variable correction v
                         else inr v) vs.

(** [verify_and_correct_binary_variables_initial_values(correction, print)]
    and its integer counterpart. *)
Definition verify_and_correct_binary_variables_initial_values (correction : bool)
    (vs : list ModelVariable) : SetupError + list ModelVariable :=
  verify_and_correct_initial_values is_binary_sense correction vs.

Definition verify_and_correct_integer_variables_initial_values (correction : bool)
    (vs : list ModelVariable) : SetupError + list ModelVariable :=
  verify_and_correct_initial_values is_integer_sense correction vs.

(** ** Models built as the tests of part_000 build them *)

(** [model.create_variable(s)(name, shape[, lower, upper])] in a model
    whose proxy limit the tests do not reach. *)
Definition add_variables (name : string) (shape : ProxyShape) (bounds : option (Z * Z))
    (m : BuilderModel) : BuilderModel :=
  match create_variables (S (length (m_variable_proxies m))) name shape bounds m with
  | inr (m', _) => m'
  | inl _ => m
  end.

Definition ref00 : VarRef := mkVarRef 0 0.

(** The model with the scalar variable [x] the tests of lines 785-900
    start from. *)
Definition x_model : BuilderModel := add_variables "x" ScalarShape None new_model.

(** ** The bounds a constraint induces *)

(** [x] within the bounds [induced_bounds] returns. *)
Definition within (b : option Z * option Z) (x : Z) : Prop :=
  (forall l, b.1 = Some l -> l <= x) /\ (forall u, b.2 = Some u -> x <= u).

Lemma floor_spec z q : (z <= Qfloor q)%Z <-> (inject_Z z <= q)%Q.
Proof.
  split; intros H.
  - eapply Qle_trans; [rewrite <- Zle_Qle; exact H | apply Qfloor_le].
  - destruct (Z.le_gt_cases z (Qfloor q)) as [|Hlt]; [assumption|]. exfalso.
    assert (inject_Z (Qfloor q + 1) <= inject_Z z)%Q as Hz by (rewrite <- Zle_Qle; lia).
    pose proof (Qlt_floor q). lra.
Qed.

Lemma ceiling_spec z q : (Qceiling q <= z)%Z <-> (q <= inject_Z z)%Q.
Proof.
  split; intros H.
  - eapply Qle_trans; [apply Qle_ceiling | rewrite <- Zle_Qle; exact H].
  - destruct (Z.le_gt_cases (Qceiling q) z) as [|Hlt]; [assumption|]. exfalso.
    assert (inject_Z z <= inject_Z (Qceiling q - 1))%Q as Hz by (rewrite <- Zle_Qle; lia).
    pose proof (Qceiling_lt q). lra.
Qed.

(** A constraint is satisfied when its violation is 0. *)
Lemma violation_zero s v :
  (violation s v == 0)%Q <->
  match s with Less => (v <= 0)%Q | Equal => (v == 0)%Q | Greater => (0 <= v)%Q end.
Proof.
  destruct s; cbn.
  - destruct (Q.max_spec_le 0 v) as [[H ->]|[H ->]]; split; intros; lra.
  - apply Qabs_case; intros; split; intros; lra.
  - destruct (Q.max_spec_le 0 (- v)) as [[H ->]|[H ->]]; split; intros; lra.
Qed.

Lemma within_lower l x : within (Some l, None) x <-> l <= x.
Proof. unfold within; cbn. split; [intros [H _]; auto | intros H; split; congruence]. Qed.

Lemma within_upper u x : within (None, Some u) x <-> x <= u.
Proof. unfold within; cbn. split; [intros [_ H]; auto | intros H; split; congruence]. Qed.

Lemma within_both l u x : within (Some l, Some u) x <-> l <= x <= u.
Proof.
  unfold within; cbn. split; [intros [H1 H2]; auto | intros [H1 H2]; split; congruence].
Qed.

(** The bounds [induced_bounds] derives are exact on integers: an
    integer [x] satisfies [a * x + c (sense) 0], [a <> 0], exactly when it
    lies within them.  So once the bounds of the one free variable of a
    constraint are tightened to them, the constraint is implied by the
    bounds, and [remove_redundant_constraint] may disable it. *)
Theorem induced_bounds_exact s a c x :
  ~ (a == 0)%Q ->
  ((violation s (a * inject_Z x + c) == 0)%Q <-> within (induced_bounds s a c) x).
Proof.
  intros Ha. rewrite violation_zero.
  assert (Hab : (a * (- c / a) == - c)%Q) by (apply Qmult_div_r; exact Ha).
  unfold induced_bounds. set (b := (- c / a)%Q) in *.
  destruct (Qle_bool a 0) eqn:Hle;
    [apply Qle_bool_iff in Hle; assert (Hneg : (a < 0)%Q) by (apply Qle_lteq in Hle; tauto)
    | assert (Hpos : (0 < a)%Q) by (apply Qnot_le_lt; intros H; apply Qle_bool_iff in H; congruence)];
    destruct s;
    rewrite ?within_lower, ?within_upper, ?within_both, ?floor_spec, ?ceiling_spec;
    split; intros; try split; nra.
Qed.

(** ** The presolve terminates *)

(** The free variables and the enabled constraints: each round that
    changes something fixes a variable or disables a constraint. *)
Definition free_count (vs : list ModelVariable) : nat :=
  length (List.filter (fun v => negb (v_is_fixed v)) vs).

Definition enabled_count (cs : list Constraint) : nat := length (List.filter is_enabled cs).

Definition presolve_measure (m : SetupModel) : nat :=
  free_count (s_variables m) + enabled_count (s_constraints m).

Lemma filter_length_le {A} (f : A -> bool) (l : list A) : (length (List.filter f l) <= length l)%nat.
Proof. induction l as [|x l IH]; cbn; [lia|]. destruct (f x); cbn; lia. Qed.

(** An operation on one variable that either changes nothing (count 0)
    or fixes a free variable (count 1). *)
Definition fixes_one (f : ModelVariable -> ModelVariable * nat) : Prop :=
  forall v, f v = (v, 0%nat) \/ (v_is_fixed v = false /\ v_is_fixed (f v).1 = true /\ (f v).2 = 1%nat).

Lemma map_count_measure f vs :
  fixes_one f ->
  (free_count (map_count f vs).1 + (map_count f vs).2 = free_count vs)%nat /\
  ((map_count f vs).2 = 0%nat -> (map_count f vs).1 = vs) /\
  length (map_count f vs).1 = length vs.
Proof.
  intros Hf. unfold map_count, free_count; cbn.
  induction vs as [|v vs IH]; cbn; [auto|]. destruct IH as (IH1 & IH2 & IH3).
  destruct (Hf v) as [E|(Hv & Hv' & Hn)].
  - rewrite E; cbn. destruct (v_is_fixed v); cbn;
      (split; [lia | split; [intros H; rewrite IH2 by lia; reflexivity | rewrite IH3; reflexivity]]).
  - rewrite Hv, Hv', Hn; cbn. split; [lia|]. split; [lia|]. rewrite IH3. reflexivity.
Qed.

Lemma fix_implicit_fixes_one : fixes_one fix_implicit_fixed_variable.
Proof.
  intros v. unfold fix_implicit_fixed_variable.
  destruct (v_is_fixed v) eqn:E; [left; reflexivity|]. cbn.
  destruct (_ =? _); [right; auto | left; reflexivity].
Qed.

Lemma remove_independent_fixes_one sign obj cs : fixes_one (remove_independent_variable sign obj cs).
Proof.
  intros v. unfold remove_independent_variable.
  destruct (v_is_fixed v) eqn:E; [left; reflexivity|]. cbn.
  destruct (is_related cs (v_ref v)); [left; reflexivity | right; auto].
Qed.

Lemma tighten_keeps_fixed lo up v : v_is_fixed v = true -> v_is_fixed (tighten_variable_bounds lo up v) = true.
Proof. intros H. unfold tighten_variable_bounds. destruct (_ =? _); [reflexivity | exact H]. Qed.

Lemma alter_variable_length r f vs : length (alter_variable r f vs) = length vs.
Proof. apply length_fmap. Qed.

(** Changing one variable in a way that never frees a fixed one does not
    add free variables. *)
Lemma alter_variable_free_count r f vs :
  (forall v, v_is_fixed v = true -> v_is_fixed (f v) = true) ->
  (free_count (alter_variable r f vs) <= free_count vs)%nat.
Proof.
  intros Hf. unfold free_count, alter_variable.
  induction vs as [|v vs IH]; cbn; [lia|].
  destruct (bool_decide _); [|destruct (v_is_fixed v); cbn; lia].
  destruct (v_is_fixed v) eqn:E; [rewrite (Hf v E)|destruct (v_is_fixed (f v))]; cbn; lia.
Qed.

(** One constraint either is left as it is, or is disabled (after which
    no variable has been freed). *)
Lemma remove_redundant_constraint_cases vs c :
  let '(vs1, c1, n1) := remove_redundant_constraint vs c in
  (n1 = 0%nat /\ vs1 = vs /\ c1 = c) \/
  (n1 = 1%nat /\ is_enabled c = true /\ is_enabled c1 = false /\
   (free_count vs1 <= free_count vs)%nat /\ length vs1 = length vs).
Proof.
  unfold remove_redundant_constraint.
  destruct (is_enabled c) eqn:Ec; cbn; [|left; auto].
  destruct (free_refs vs (expression c)) as [|r [|r' rs]].
  - destruct (Qeq_bool _ _); [right; auto | left; auto].
  - destruct (induced_bounds _ _ _) as [lo up]. right. split; [reflexivity|]. split; [reflexivity|].
    split; [reflexivity|]. split; [|apply alter_variable_length].
    apply alter_variable_free_count. intros v; apply tighten_keeps_fixed.
  - left; auto.
Qed.

Lemma remove_redundant_constraints_measure vs cs :
  let '(vs', cs', n) := remove_redundant_constraints vs cs in
  (free_count vs' <= free_count vs)%nat /\ (enabled_count cs' + n = enabled_count cs)%nat /\
  length vs' = length vs /\ length cs' = length cs /\ (n = 0%nat -> vs' = vs /\ cs' = cs).
Proof.
  revert vs. induction cs as [|c cs IH]; intros vs; cbn; [repeat split; auto|].
  pose proof (remove_redundant_constraint_cases vs c) as Hc.
  destruct (remove_redundant_constraint vs c) as [[vs1 c1] n1].
  specialize (IH vs1). destruct (remove_redundant_constraints vs1 cs) as [[vs2 cs2] n2].
  destruct IH as (I1 & I2 & I3 & I4 & I5). unfold enabled_count in *; cbn.
  destruct Hc as [(-> & -> & ->)|(-> & Ec & Ec1 & F & L)].
  - destruct (is_enabled c); cbn; (split; [lia | split; [lia | split; [lia | split; [lia|]]]]);
      intros H; destruct (I5 ltac:(lia)) as [-> ->]; auto.
  - rewrite Ec, Ec1; cbn. split; [lia | split; [lia | split; [lia | split; [lia | intros; lia]]]].
Qed.

(** A round does not add to the measure what it counts, and a round that
    counts nothing changes nothing. *)
Lemma presolve_round_measure m :
  let '(m', n) := presolve_round m in
  (presolve_measure m' + n <= presolve_measure m)%nat /\ (n = 0%nat -> m' = m).
Proof.
  unfold presolve_round, fix_implicit_fixed_variables, remove_independent_variables.
  pose proof (map_count_measure _ (s_variables m) fix_implicit_fixes_one) as (A1 & A2 & _).
  destruct (map_count fix_implicit_fixed_variable (s_variables m)) as [vs1 n1]. cbn [fst snd] in A1, A2.
  pose proof (remove_redundant_constraints_measure vs1 (s_constraints m)) as B.
  destruct (remove_redundant_constraints vs1 (s_constraints m)) as [[vs2 cs2] n2].
  destruct B as (B1 & B2 & _ & _ & B5).
  pose proof (map_count_measure _ vs2 (remove_independent_fixes_one (setup_sign m) (s_objective m) cs2))
    as (C1 & C2 & _).
  destruct (map_count _ vs2) as [vs3 n3]. cbn [fst snd] in C1, C2.
  unfold presolve_measure; cbn [s_variables s_constraints with_constraints with_variables].
  split; [lia|].
  intros H. rewrite C2 by lia. destruct (B5 ltac:(lia)) as [-> ->]. rewrite A2 by lia.
  destruct m; reflexivity.
Qed.

Lemma presolve_loop_fixed_point fuel m :
  (presolve_measure m < fuel)%nat -> presolve_round (presolve_loop fuel m) = (presolve_loop fuel m, 0%nat).
Proof.
  revert m. induction fuel as [|fuel IH]; intros m Hm; [lia|]. cbn [presolve_loop].
  pose proof (presolve_round_measure m) as Hr.
  destruct (presolve_round m) as [m' n] eqn:E. destruct Hr as [Hle H0].
  destruct (Nat.eqb_spec n 0) as [->|Hn].
  - rewrite (H0 eq_refl) in E |- *. exact E.
  - apply IH. lia.
Qed.

(** The presolve terminates at a fixed point: the fuel of
    [presolve], one round more than there are variables and constraints,
    always reaches a model on which a further round of
    [fix_implicit_fixed_variables],
    [remove_redundant_constraints_with_tightening_variable_bounds] and
    [remove_independent_variables] changes nothing. *)
Theorem presolve_reaches_fixed_point m : presolve_round (presolve m) = (presolve m, 0%nat).
Proof.
  apply presolve_loop_fixed_point. unfold presolve_measure, free_count, enabled_count.
  pose proof (filter_length_le (fun v => negb (v_is_fixed v)) (s_variables m)).
  pose proof (filter_length_le is_enabled (s_constraints m)). lia.
Qed.

(** ** The verification and correction of the initial values *)

Definition in_bounds (v : ModelVariable) : Prop := v_lower_bound v <= v_value v <= v_upper_bound v.

(** A pass that stops at the first error: its result relates every
    element to the one [f] makes of it, and its error comes from one of
    them. *)
Lemma map_or_error_spec {A B E} (f : A -> E + B) (P : A -> B -> Prop) (R : E -> A -> Prop) l :
  (forall x, In x l -> match f x with inr y => P x y | inl e => R e x end) ->
  match map_or_error f l with inr ys => Forall2 P l ys | inl e => Exists (R e) l end.
Proof.
  induction l as [|x l IH]; intros Hf; cbn; [constructor|].
  pose proof (Hf x (or_introl eq_refl)) as Hx. destruct (f x) as [e|y]; [apply Exists_cons_hd; exact Hx|].
  specialize (IH (fun z Hz => Hf z (or_intror Hz))).
  destruct (map_or_error f l) as [e|ys]; [apply Exists_cons_tl, IH | constructor; assumption].
Qed.

Lemma verify_and_correct_variable_spec correction v :
  v_lower_bound v <= v_upper_bound v ->
  match verify_and_correct_variable correction v with
  | inr v' => in_bounds v' /\ (in_bounds v -> v' = v) /\ v' = assign_value (v_value v') v
  | inl e => e = InvalidInitialValue /\ correction = false /\ ~ in_bounds v
  end.
Proof.
  intros Hlu. unfold verify_and_correct_variable, in_bounds.
  destruct ((v_lower_bound v <=? v_value v) && (v_value v <=? v_upper_bound v)) eqn:E.
  - apply andb_true_iff in E as [E1 E2]. apply Z.leb_le in E1, E2.
    split; [lia|]. split; [reflexivity|]. destruct v; reflexivity.
  - apply andb_false_iff in E. destruct correction; cbn.
    + split; [lia|]. split; [|reflexivity]. intros [H1 H2].
      destruct E as [E|E]; apply Z.leb_gt in E; lia.
    + split; [reflexivity|]. split; [reflexivity|]. intros [H1 H2].
      destruct E as [E|E]; apply Z.leb_gt in E; lia.
Qed.

(** The verification and correction of the initial values (spec,
    sections 4.1 stage 10 and 7), for the variables of a category whose
    bounds are not crossed: when it succeeds, every variable of the
    category lies within its bounds, a variable outside the category or
    already within its bounds is kept, and only values change; it fails
    only without correction, with an [InvalidInitialValue] caused by a
    variable of the category outside its bounds.  With correction it
    never fails. *)
Theorem verify_and_correct_initial_values_spec in_category correction vs :
  Forall (fun v => in_category (v_sense v) = true -> v_lower_bound v <= v_upper_bound v) vs ->
  match verify_and_correct_initial_values in_category correction vs with
  | inr vs' => Forall2 (fun v v' =>
        (in_category (v_sense v) = true -> in_bounds v') /\
        (in_category (v_sense v) = false \/ in_bounds v -> v' = v) /\
        v' = assign_value (v_value v') v) vs vs'
  | inl e => Exists (fun v => e = InvalidInitialValue /\ correction = false /\
                              in_category (v_sense v) = true /\ ~ in_bounds v) vs
  end.
Proof.
  intros Hb. apply map_or_error_spec. intros v Hv. rewrite Forall_forall in Hb.
  destruct (in_category (v_sense v)) eqn:Ec.
  - pose proof (verify_and_correct_variable_spec correction v (Hb v (proj2 (list_elem_of_In _ _) Hv) Ec)) as H.
    destruct (verify_and_correct_variable correction v) as [e|v']; [tauto|].
    destruct H as (H1 & H2 & H3). split; [auto|]. split; [|exact H3].
    intros [?|?]; [discriminate | auto].
  - split; [discriminate|]. split; [reflexivity | destruct v; reflexivity].
Qed.

(** ** The generated names *)

Lemma append_inj_l s t1 t2 : (s ++ t1)%string = (s ++ t2)%string -> t1 = t2.
Proof. induction s as [|c s IH]; cbn; [auto | intros H; injection H as H; auto]. Qed.

(** C23. [setup_unique_name] never generates one name for two elements of
    a proxy: for a proxy whose array the shape constructor built with
    positive extents, two elements within it whose generated names
    [name + indices_label(flat_index)] are equal are the same element,
    since [indices_label] (constraint_reference.h, lines 164-182) writes
    each index right-aligned in a field of [m_max_digits] characters,
    without commas, and the division loop of [multi_dimensional_index]
    recovers every flat index. *)
Theorem generated_names_distinct proxies p name id shape a v1 v2 :
  proxies !! p = Some (name, a) -> new_multi_array id shape = Some a ->
  Forall (fun s => 0 < s) shape ->
  proxy_index (v_ref v1) = p -> proxy_index (v_ref v2) = p ->
  Z.of_nat (Score.flat_index (v_ref v1)) < m_number_of_elements a ->
  Z.of_nat (Score.flat_index (v_ref v2)) < m_number_of_elements a ->
  generated_name proxies v1 = generated_name proxies v2 -> v_ref v1 = v_ref v2.
Proof.
  intros Hp Ha Hpos H1 H2 Hf1 Hf2 Hn. unfold generated_name in Hn.
  rewrite H1, H2, Hp in Hn. apply append_inj_l in Hn.
  apply (indices_label_injective id shape a) in Hn; [|assumption | lia | lia].
  destruct (v_ref v1) as [p1 f1], (v_ref v2) as [p2 f2]; cbn in *. f_equal; lia.
Qed.

(** A label is empty or starts with a bracket, which no name has. *)
Definition label_start (L : string) : Prop := L = EmptyString \/ exists t, L = String "["%char t.

Lemma indices_label_start a f : label_start (indices_label a f).
Proof. unfold indices_label. destruct (_ =? 1); [left; reflexivity | right; eexists; reflexivity]. Qed.

Lemma valid_name_chars n : is_valid_name n = true -> all_name_chars n = true.
Proof.
  destruct n as [|c n]; cbn; [discriminate|]. intros H. apply andb_true_iff in H as [H1 H2].
  unfold is_name_char. rewrite H1. exact H2.
Qed.

(** A name followed by a label is split back into the two. *)
Lemma name_label_split n1 n2 L1 L2 :
  all_name_chars n1 = true -> all_name_chars n2 = true -> label_start L1 -> label_start L2 ->
  (n1 ++ L1)%string = (n2 ++ L2)%string -> n1 = n2 /\ L1 = L2.
Proof.
  revert n2. induction n1 as [|c n1 IH]; intros [|d n2] H1 H2 HL1 HL2 H; cbn in H.
  - auto.
  - exfalso. destruct HL1 as [->|[t ->]]; [discriminate|]. injection H as <- _.
    cbn in H2. discriminate H2.
  - exfalso. destruct HL2 as [->|[t ->]]; [discriminate|]. injection H as -> _.
    cbn in H1. discriminate H1.
  - injection H as <- H. cbn in H1, H2. apply andb_true_iff in H1 as [_ H1].
    apply andb_true_iff in H2 as [_ H2]. destruct (IH n2 H1 H2 HL1 HL2 H) as [-> ->]. auto.
Qed.

(** The names the unnamed elements of a variable proxy get. *)
Definition proxy_names_block (vp : VariableProxy) : list string :=
  (fun j => vp_name vp ++ indices_label (vp_array vp) (Z.of_nat j))%string
    <$> seq 0 (Z.to_nat (m_number_of_elements (vp_array vp))).

(** The variables of the proxies from the [k]-th on. *)
Definition variables_from (k : nat) (ps : list VariableProxy) : list ModelVariable :=
  concat (imap (fun i vp => proxy_variables (k + i) vp) ps).

Lemma variables_from_cons k vp ps :
  variables_from k (vp :: ps) = proxy_variables k vp ++ variables_from (S k) ps.
Proof.
  unfold variables_from. rewrite imap_cons. cbn [concat]. rewrite Nat.add_0_r. f_equal.
  f_equal. apply imap_ext. intros i x _. cbn. rewrite Nat.add_succ_r. reflexivity.
Qed.

Lemma unnamed_names_from P k ps :
  (forall i vp, ps !! i = Some vp -> P !! (k + i)%nat = Some (vp_name vp, vp_array vp)) ->
  v_name <$> (name_unnamed P <$> variables_from k ps) = concat (proxy_names_block <$> ps).
Proof.
  revert k. induction ps as [|vp ps IH]; intros k HP; [reflexivity|].
  rewrite variables_from_cons, !fmap_app. cbn [fmap list_fmap concat]. f_equal.
  - unfold proxy_variables, proxy_names_block. rewrite <- !list_fmap_compose.
    apply list_fmap_ext. intros j x _. unfold compose, name_unnamed, generated_name. cbn.
    specialize (HP 0%nat vp eq_refl). rewrite Nat.add_0_r in HP. rewrite HP. reflexivity.
  - apply IH. intros i x Hi. replace (S k + i)%nat with (k + S i)%nat by lia. exact (HP (S i) x Hi).
Qed.

(** A proxy whose elements [setup_unique_name] can name: a valid name and
    an array the shape constructor builds with positive extents. *)
Definition nameable_proxy (vp : VariableProxy) : Prop :=
  is_valid_name (vp_name vp) = true /\
  exists id shape, new_multi_array id shape = Some (vp_array vp) /\ Forall (fun s => 0 < s) shape.

Lemma proxy_names_block_spec vp x :
  x ∈ proxy_names_block vp ->
  exists L, x = (vp_name vp ++ L)%string /\ label_start L.
Proof.
  unfold proxy_names_block. intros Hx. apply list_elem_of_fmap in Hx as (j & -> & _).
  eexists; split; [reflexivity | apply indices_label_start].
Qed.

Lemma NoDup_proxy_names_block vp : nameable_proxy vp -> NoDup (proxy_names_block vp).
Proof.
  intros (_ & id & shape & Ha & Hpos). apply NoDup_fmap_2_strong; [|apply NoDup_seq].
  intros j1 j2 Hj1 Hj2 E. apply list_elem_of_In, in_seq in Hj1, Hj2.
  apply append_inj_l, (indices_label_injective id shape (vp_array vp)) in E; auto; lia.
Qed.

Lemma NoDup_names_blocks ps :
  NoDup (vp_name <$> ps) -> Forall nameable_proxy ps -> NoDup (concat (proxy_names_block <$> ps)).
Proof.
  induction ps as [|vp ps IH]; intros Hn Hok; [constructor|].
  cbn [fmap list_fmap concat] in *. inversion Hn as [|? ? Hvp Hn']; subst.
  inversion Hok as [|? ? Hok1 Hok']; subst.
  apply NoDup_app. split; [apply NoDup_proxy_names_block, Hok1|]. split; [|apply IH; assumption].
  intros x Hx Hx'. apply proxy_names_block_spec in Hx as (L & -> & HL).
  apply list_elem_of_In, in_concat in Hx' as (l & Hl & Hx').
  apply in_map_iff in Hl as (vp' & <- & Hvp'). apply list_elem_of_In in Hx'.
  apply proxy_names_block_spec in Hx' as (L' & E & HL').
  rewrite Forall_forall in Hok'.
  destruct (Hok' vp' (proj2 (list_elem_of_In _ _) Hvp')) as [Hv' _].
  apply name_label_split in E as [E _];
    [| apply valid_name_chars, Hok1 | apply valid_name_chars, Hv' | exact HL | exact HL'].
  apply Hvp. rewrite E. apply list_elem_of_fmap. exists vp'. split; [reflexivity|].
  apply list_elem_of_In, Hvp'.
Qed.

Lemma variables_from_unnamed k ps : Forall (fun v => v_name v = EmptyString) (variables_from k ps).
Proof.
  revert k. induction ps as [|vp ps IH]; intros k; [constructor|].
  rewrite variables_from_cons. apply Forall_app. split; [|apply IH].
  unfold proxy_variables. apply Forall_fmap, Forall_forall. intros; reflexivity.
Qed.

(** C22. [setup_unique_name] succeeds on a model just built by the
    construction API whose variable proxies have distinct valid names and
    arrays of positive extents: no element has a user-supplied name, and
    the generated names [name + indices_label(flat_index)] are pairwise
    distinct, within a proxy (as for C23) and across proxies, since a
    label starts with a bracket, which no name contains.  The names it
    gives are those of [proxy_names_block], proxy after proxy. *)
Theorem setup_unique_name_succeeds m cs :
  NoDup (variable_names m) -> Forall nameable_proxy (m_variable_proxies m) ->
  exists s, setup_unique_name (setup_model_of m cs) = inr s /\
    v_name <$> s_variables s = concat (proxy_names_block <$> m_variable_proxies m).
Proof.
  intros Hn Hok.
  assert (Hv : s_variables (setup_model_of m cs) = variables_from 0 (m_variable_proxies m))
    by reflexivity.
  assert (Hnames : v_name <$> (name_unnamed (s_variable_proxies (setup_model_of m cs)) <$>
                                s_variables (setup_model_of m cs))
                   = concat (proxy_names_block <$> m_variable_proxies m)).
  { rewrite Hv. apply unnamed_names_from. intros i vp Hi.
    unfold setup_model_of; cbn [s_variable_proxies Nat.add]. rewrite list_lookup_fmap, Hi.
    reflexivity. }
  unfold setup_unique_name. cbv zeta.
  destruct (existsb _ _) eqn:E.
  - exfalso. apply existsb_exists in E as (v & Hin & Hs). rewrite Hv in Hin.
    pose proof (variables_from_unnamed 0 (m_variable_proxies m)) as Hu. rewrite Forall_forall in Hu.
    rewrite (Hu v (proj2 (list_elem_of_In _ _) Hin)) in Hs. discriminate.
  - rewrite Hnames, bool_decide_eq_true_2 by (apply NoDup_names_blocks; assumption).
    eexists; split; [reflexivity|]. exact Hnames.
Qed.

(** ** Witnesses *)

(** [3x - 6 <= 0] on [x = 2]: the bound is [x <= 2]. *)
Lemma induced_bounds_exact_witness :
  ~ (3 == 0)%Q /\
  ((violation Less (3 * inject_Z 2 + (-6)) == 0)%Q <-> within (induced_bounds Less 3 (-6)) 2).
Proof.
  assert (Ha : ~ (3 == 0)%Q) by (vm_compute; intros H; discriminate H).
  split; [exact Ha | apply (induced_bounds_exact Less 3 (-6) 2 Ha)].
Defined.

(** The binary [x(0) = 2] of lines 2230-2241, corrected. *)
Definition witness_binary : ModelVariable := mkModelVariable ref00 EmptyString 2 0 1 false Binary.

Lemma verify_and_correct_initial_values_spec_witness :
  Forall (fun v => is_binary_sense (v_sense v) = true -> v_lower_bound v <= v_upper_bound v)
    [witness_binary] /\
  match verify_and_correct_initial_values is_binary_sense true [witness_binary] with
  | inr vs' => Forall2 (fun v v' =>
        (is_binary_sense (v_sense v) = true -> in_bounds v') /\
        (is_binary_sense (v_sense v) = false \/ in_bounds v -> v' = v) /\
        v' = assign_value (v_value v') v) [witness_binary] vs'
  | inl e => Exists (fun v => e = InvalidInitialValue /\ true = false /\
                              is_binary_sense (v_sense v) = true /\ ~ in_bounds v) [witness_binary]
  end.
Proof.
  assert (H : Forall (fun v => is_binary_sense (v_sense v) = true -> v_lower_bound v <= v_upper_bound v)
                [witness_binary]) by (repeat constructor; intros; cbn; lia).
  split; [exact H | exact (verify_and_correct_initial_values_spec is_binary_sense true _ H)].
Defined.

(** The array of [p] (shape [{10}]) of lines 877-900 and its element
    [p(1)]. *)
Definition p_array : AbstractMultiArray := default example_array (new_multi_array 1 [10]).

Definition witness_p1 : ModelVariable :=
  mkModelVariable (mkVarRef 0 1) EmptyString 0 (int_min + 1) (int_max - 1) false Integer.

Lemma generated_names_distinct_witness :
  [("p"%string, p_array)] !! 0%nat = Some ("p"%string, p_array) /\
  new_multi_array 1 [10] = Some p_array /\ Forall (fun s => 0 < s) [10] /\
  proxy_index (v_ref witness_p1) = 0%nat /\
  Z.of_nat (Score.flat_index (v_ref witness_p1)) < m_number_of_elements p_array /\
  generated_name [("p"%string, p_array)] witness_p1 = generated_name [("p"%string, p_array)] witness_p1 /\
  v_ref witness_p1 = v_ref witness_p1.
Proof.
  assert (Hp : [("p"%string, p_array)] !! 0%nat = Some ("p"%string, p_array)) by reflexivity.
  assert (Ha : new_multi_array 1 [10] = Some p_array) by (vm_compute; reflexivity).
  assert (Hpos : Forall (fun s => 0 < s) [10]) by (repeat constructor).
  assert (Hi : proxy_index (v_ref witness_p1) = 0%nat) by reflexivity.
  assert (Hf : Z.of_nat (Score.flat_index (v_ref witness_p1)) < m_number_of_elements p_array)
    by (vm_compute; reflexivity).
  split; [exact Hp|]. split; [exact Ha|]. split; [exact Hpos|]. split; [exact Hi|].
  split; [exact Hf|]. split; [reflexivity|].
  exact (generated_names_distinct _ 0 "p" 1 [10] p_array witness_p1 witness_p1
           Hp Ha Hpos Hi Hi Hf Hf eq_refl).
Defined.

(** The proxies [x] (scalar) and [p] (shape [{10}]) of lines 877-882,
    unnamed. *)
Definition names_builder : BuilderModel := add_variables "p" (TensorShape [10]) None x_model.

Lemma setup_unique_name_succeeds_witness :
  NoDup (variable_names names_builder) /\ Forall nameable_proxy (m_variable_proxies names_builder) /\
  exists s, setup_unique_name (setup_model_of names_builder []) = inr s /\
    v_name <$> s_variables s = concat (proxy_names_block <$> m_variable_proxies names_builder).
Proof.
  assert (Hn : NoDup (variable_names names_builder))
    by (apply (bool_decide_unpack _); vm_compute; exact I).
  assert (Hok : Forall nameable_proxy (m_variable_proxies names_builder)).
  { vm_compute m_variable_proxies.
    repeat constructor; [exists 0, [1] | exists 1, [10]]; split; try (vm_compute; reflexivity);
      repeat constructor. }
  split; [exact Hn|]. split; [exact Hok|].
  exact (setup_unique_name_succeeds names_builder [] Hn Hok).
Defined.
