(* ===== verification/Incumbent.v ===== *)
(** [IncumbentHolder] (src/unnamed/part_002, incumbent_holder.h): the three
    incumbents of the search and the status bit-set of
    [try_update_incumbent].  The solution type is abstract (a Section
    variable): the holder only copies solutions, it never looks into one. *)

From S2P Require Import Prelude Score.

Module IncumbentHolderConstant.
Definition STATUS_NO_UPDATED : Z := 0.
Definition STATUS_LOCAL_AUGMENTED_INCUMBENT_UPDATE : Z := 1.
Definition STATUS_GLOBAL_AUGMENTED_INCUMBENT_UPDATE : Z := 2.
Definition STATUS_FEASIBLE_INCUMBENT_UPDATE : Z := 4.
Definition DEFAULT_FOUND_FEASIBLE_SOLUTION : bool := false.
(** [HUGE_VALF] *)
Definition DEFAULT_OBJECTIVE : extQ := QInf.
End IncumbentHolderConstant.

Import IncumbentHolderConstant.
Local Open Scope Z_scope.

Section Holder.

Context {Solution : Type}.

Record IncumbentHolder : Type := mkIncumbentHolder {
  m_found_feasible_solution : bool;
  m_local_augmented_incumbent_solution : Solution;
  m_global_augmented_incumbent_solution : Solution;
  m_feasible_incumbent_solution : Solution;
  m_local_augmented_incumbent_objective : extQ;
  m_global_augmented_incumbent_objective : extQ;
  m_feasible_incumbent_objective : extQ;
  m_local_augmented_incumbent_score : SolutionScore;
  m_global_augmented_incumbent_score : SolutionScore;
  m_feasible_incumbent_score : SolutionScore
}.

(** [initialize()]: flags and objectives are reset, the stored solutions
    and scores are left as they are. *)
Definition initialize (h : IncumbentHolder) : IncumbentHolder :=
  {| m_found_feasible_solution := DEFAULT_FOUND_FEASIBLE_SOLUTION;
     m_local_augmented_incumbent_solution := m_local_augmented_incumbent_solution h;
     m_global_augmented_incumbent_solution := m_global_augmented_incumbent_solution h;
     m_feasible_incumbent_solution := m_feasible_incumbent_solution h;
     m_local_augmented_incumbent_objective := DEFAULT_OBJECTIVE;
     m_global_augmented_incumbent_objective := DEFAULT_OBJECTIVE;
     m_feasible_incumbent_objective := DEFAULT_OBJECTIVE;
     m_local_augmented_incumbent_score := m_local_augmented_incumbent_score h;
     m_global_augmented_incumbent_score := m_global_augmented_incumbent_score h;
     m_feasible_incumbent_score := m_feasible_incumbent_score h |}.

(** The constructor [IncumbentHolder()]: default-constructed members, then
    [initialize()]; [s0] is the default-constructed [Solution]. *)
Definition new_holder (s0 : Solution) : IncumbentHolder :=
  initialize (mkIncumbentHolder false s0 s0 s0 QInf QInf QInf
                default_score default_score default_score).

(** The three updates of [try_update_incumbent], each one a guarded copy. *)
Definition update_local (s : Solution) (sc : SolutionScore) (h : IncumbentHolder) :=
  {| m_found_feasible_solution := m_found_feasible_solution h;
     m_local_augmented_incumbent_solution := s;
     m_global_augmented_incumbent_solution := m_global_augmented_incumbent_solution h;
     m_feasible_incumbent_solution := m_feasible_incumbent_solution h;
     m_local_augmented_incumbent_objective := QFin (local_augmented_objective sc);
     m_global_augmented_incumbent_objective := m_global_augmented_incumbent_objective h;
     m_feasible_incumbent_objective := m_feasible_incumbent_objective h;
     m_local_augmented_incumbent_score := sc;
     m_global_augmented_incumbent_score := m_global_augmented_incumbent_score h;
     m_feasible_incumbent_score := m_feasible_incumbent_score h |}.

Definition update_global (s : Solution) (sc : SolutionScore) (h : IncumbentHolder) :=
  {| m_found_feasible_solution := m_found_feasible_solution h;
     m_local_augmented_incumbent_solution := m_local_augmented_incumbent_solution h;
     m_global_augmented_incumbent_solution := s;
     m_feasible_incumbent_solution := m_feasible_incumbent_solution h;
     m_local_augmented_incumbent_objective := m_local_augmented_incumbent_objective h;
     m_global_augmented_incumbent_objective := QFin (global_augmented_objective sc);
     m_feasible_incumbent_objective := m_feasible_incumbent_objective h;
     m_local_augmented_incumbent_score := m_local_augmented_incumbent_score h;
     m_global_augmented_incumbent_score := sc;
     m_feasible_incumbent_score := m_feasible_incumbent_score h |}.

Definition set_found_feasible (h : IncumbentHolder) :=
  {| m_found_feasible_solution := true;
     m_local_augmented_incumbent_solution := m_local_augmented_incumbent_solution h;
     m_global_augmented_incumbent_solution := m_global_augmented_incumbent_solution h;
     m_feasible_incumbent_solution := m_feasible_incumbent_solution h;
     m_local_augmented_incumbent_objective := m_local_augmented_incumbent_objective h;
     m_global_augmented_incumbent_objective := m_global_augmented_incumbent_objective h;
     m_feasible_incumbent_objective := m_feasible_incumbent_objective h;
     m_local_augmented_incumbent_score := m_local_augmented_incumbent_score h;
     m_global_augmented_incumbent_score := m_global_augmented_incumbent_score h;
     m_feasible_incumbent_score := m_feasible_incumbent_score h |}.

Definition update_feasible (s : Solution) (sc : SolutionScore) (h : IncumbentHolder) :=
  {| m_found_feasible_solution := m_found_feasible_solution h;
     m_local_augmented_incumbent_solution := m_local_augmented_incumbent_solution h;
     m_global_augmented_incumbent_solution := m_global_augmented_incumbent_solution h;
     m_feasible_incumbent_solution := s;
     m_local_augmented_incumbent_objective := m_local_augmented_incumbent_objective h;
     m_global_augmented_incumbent_objective := m_global_augmented_incumbent_objective h;
     m_feasible_incumbent_objective := QFin (objective sc);
     m_local_augmented_incumbent_score := m_local_augmented_incumbent_score h;
     m_global_augmented_incumbent_score := m_global_augmented_incumbent_score h;
     m_feasible_incumbent_score := sc |}.

(** [try_update_incumbent(const Solution&, const SolutionScore&)]: returns
    the status and the updated holder.  The three tests are made in this
    order, each on the holder the previous one left. *)
Definition try_update_incumbent (s : Solution) (sc : SolutionScore)
    (h : IncumbentHolder) : Z * IncumbentHolder :=
  let '(st1, h1) :=
    if ext_ltb (local_augmented_objective sc) (m_local_augmented_incumbent_objective h)
    then (STATUS_NO_UPDATED + STATUS_LOCAL_AUGMENTED_INCUMBENT_UPDATE,
          update_local s sc h)
    else (STATUS_NO_UPDATED, h) in
  let '(st2, h2) :=
    if ext_ltb (global_augmented_objective sc) (m_global_augmented_incumbent_objective h1)
    then (st1 + STATUS_GLOBAL_AUGMENTED_INCUMBENT_UPDATE, update_global s sc h1)
    else (st1, h1) in
  if is_feasible sc then
    let h3 := set_found_feasible h2 in
    if ext_ltb (objective sc) (m_feasible_incumbent_objective h3)
    then (st2 + STATUS_FEASIBLE_INCUMBENT_UPDATE, update_feasible s sc h3)
    else (st2, h3)
  else (st2, h2).

(** [try_update_incumbent(Model*, const SolutionScore&)]: the solution is
    exported from the model at most once, the first time an incumbent is
    replaced; [cache] is the pair ([solution], [is_solution_updated]). *)
Section WithModel.

Context {Model : Type} (export_solution : Model -> Solution).

Definition fetch (m : Model) (cache : option Solution) : Solution * option Solution :=
  match cache with
  | Some s => (s, Some s)
  | None => let s := export_solution m in (s, Some s)
  end.

Definition try_update_incumbent_model (m : Model) (sc : SolutionScore)
    (h : IncumbentHolder) : Z * IncumbentHolder :=
  let '(st1, c1, h1) :=
    if ext_ltb (local_augmented_objective sc) (m_local_augmented_incumbent_objective h)
    then let '(s, c) := fetch m None in
         (STATUS_NO_UPDATED + STATUS_LOCAL_AUGMENTED_INCUMBENT_UPDATE, c,
          update_local s sc h)
    else (STATUS_NO_UPDATED, None, h) in
  let '(st2, c2, h2) :=
    if ext_ltb (global_augmented_objective sc) (m_global_augmented_incumbent_objective h1)
    then let '(s, c) := fetch m c1 in
         (st1 + STATUS_GLOBAL_AUGMENTED_INCUMBENT_UPDATE, c, update_global s sc h1)
    else (st1, c1, h1) in
  if is_feasible sc then
    let h3 := set_found_feasible h2 in
    if ext_ltb (objective sc) (m_feasible_incumbent_objective h3)
    then let '(s, _) := fetch m c2 in
         (st2 + STATUS_FEASIBLE_INCUMBENT_UPDATE, update_feasible s sc h3)
    else (st2, h3)
  else (st2, h2).

End WithModel.

(** [reset_local_augmented_incumbent()] *)
Definition reset_local_augmented_incumbent (h : IncumbentHolder) : IncumbentHolder :=
  {| m_found_feasible_solution := m_found_feasible_solution h;
     m_local_augmented_incumbent_solution := m_local_augmented_incumbent_solution h;
     m_global_augmented_incumbent_solution := m_global_augmented_incumbent_solution h;
     m_feasible_incumbent_solution := m_feasible_incumbent_solution h;
     m_local_augmented_incumbent_objective := DEFAULT_OBJECTIVE;
     m_global_augmented_incumbent_objective := m_global_augmented_incumbent_objective h;
     m_feasible_incumbent_objective := m_feasible_incumbent_objective h;
     m_local_augmented_incumbent_score := m_local_augmented_incumbent_score h;
     m_global_augmented_incumbent_score := m_global_augmented_incumbent_score h;
     m_feasible_incumbent_score := m_feasible_incumbent_score h |}.

(** Lines 189-260: the accessors.  The three objectives are returned as
    doubles, [HUGE_VALF] as +infinity. *)
Definition found_feasible_solution (h : IncumbentHolder) : bool := m_found_feasible_solution h.

Definition local_augmented_incumbent_solution (h : IncumbentHolder) : Solution :=
  m_local_augmented_incumbent_solution h.

Definition global_augmented_incumbent_solution (h : IncumbentHolder) : Solution :=
  m_global_augmented_incumbent_solution h.

Definition feasible_incumbent_solution (h : IncumbentHolder) : Solution :=
  m_feasible_incumbent_solution h.

Definition local_augmented_incumbent_objective (h : IncumbentHolder) : dbl :=
  ext_to_dbl (m_local_augmented_incumbent_objective h).

Definition global_augmented_incumbent_objective (h : IncumbentHolder) : dbl :=
  ext_to_dbl (m_global_augmented_incumbent_objective h).

Definition feasible_incumbent_objective (h : IncumbentHolder) : dbl :=
  ext_to_dbl (m_feasible_incumbent_objective h).

Definition local_augmented_incumbent_score (h : IncumbentHolder) : SolutionScore :=
  m_local_augmented_incumbent_score h.

Definition global_augmented_incumbent_score (h : IncumbentHolder) : SolutionScore :=
  m_global_augmented_incumbent_score h.

Definition feasible_incumbent_score (h : IncumbentHolder) : SolutionScore :=
  m_feasible_incumbent_score h.

End Holder.

Arguments IncumbentHolder : clear implicits.

(** ** Properties *)

Section HolderProperties.

Context {Solution : Type}.
Implicit Types (h : IncumbentHolder Solution) (s : Solution) (sc : SolutionScore).

(** The three tests of [try_update_incumbent], evaluated on the holder
    before the call (the later tests read fields the earlier updates do not
    touch). *)
Definition local_improves sc h : bool :=
  ext_ltb (local_augmented_objective sc) (m_local_augmented_incumbent_objective h).
Definition global_improves sc h : bool :=
  ext_ltb (global_augmented_objective sc) (m_global_augmented_incumbent_objective h).
Definition feasible_improves sc h : bool :=
  is_feasible sc && ext_ltb (objective sc) (m_feasible_incumbent_objective h).

Definition bit (b : bool) (v : Z) : Z := if b then v else 0.

(** Splits every test of [try_update_incumbent] and simplifies the record
    projections. *)
Ltac split_updates :=
  unfold try_update_incumbent, try_update_incumbent_model, fetch,
    local_improves, global_improves, feasible_improves;
  repeat (cbv [update_local update_global set_found_feasible update_feasible
               STATUS_NO_UPDATED STATUS_LOCAL_AUGMENTED_INCUMBENT_UPDATE
               STATUS_GLOBAL_AUGMENTED_INCUMBENT_UPDATE
               STATUS_FEASIBLE_INCUMBENT_UPDATE bit]; cbn;
          match goal with
          | |- context [ext_ltb ?a ?b] => destruct (ext_ltb a b) eqn:?
          | |- context [is_feasible ?a] => destruct (is_feasible a) eqn:?
          end).

Lemma try_update_status s sc h :
  fst (try_update_incumbent s sc h) =
  bit (local_improves sc h) 1 + bit (global_improves sc h) 2 +
  bit (feasible_improves sc h) 4.
Proof. split_updates; reflexivity. Qed.

Lemma try_update_objectives s sc h :
  let h' := snd (try_update_incumbent s sc h) in
  m_local_augmented_incumbent_objective h' =
    (if local_improves sc h then QFin (local_augmented_objective sc)
     else m_local_augmented_incumbent_objective h) /\
  m_global_augmented_incumbent_objective h' =
    (if global_improves sc h then QFin (global_augmented_objective sc)
     else m_global_augmented_incumbent_objective h) /\
  m_feasible_incumbent_objective h' =
    (if feasible_improves sc h then QFin (objective sc)
     else m_feasible_incumbent_objective h) /\
  m_found_feasible_solution h' = m_found_feasible_solution h || is_feasible sc.
Proof. split_updates; rewrite ?orb_true_r, ?orb_false_r; auto. Qed.

(** A guarded minimum never increases and ends below the offered value. *)
Lemma guarded_min_le q e :
  ext_le (if ext_ltb q e then QFin q else e) e /\
  ext_le (if ext_ltb q e then QFin q else e) (QFin q).
Proof.
  destruct (ext_ltb q e) eqn:E; split; auto with mh.
  destruct e as [r|]; [|discriminate]. apply ext_ltb_false in E. exact E.
Qed.

(** A guarded minimum as [try_update_incumbent] computes it for one
    incumbent: [ok] is the extra guard (feasibility for the feasible
    incumbent), [val] the compared value. *)
Section GuardedMin.
Context {A : Type} (ok : A -> bool) (val : A -> Q).

Definition gstep (e : extQ) (a : A) : extQ :=
  if ok a && ext_ltb (val a) e then QFin (val a) else e.

(** The abstract contract of one incumbent after the offers [l], starting
    from [e0]: it is below [e0] and below every admissible offer, and it is
    [e0] itself or one of the admissible offers. *)
Definition best_of (e0 : extQ) (l : list A) (e : extQ) : Prop :=
  ext_le e e0 /\
  Forall (fun a => ok a = true -> ext_le e (QFin (val a))) l /\
  (e = e0 \/ exists a, In a l /\ ok a = true /\ e = QFin (val a)).

Lemma gstep_le e a : ext_le (gstep e a) e.
Proof.
  unfold gstep. destruct (ok a); cbn; [apply guarded_min_le | apply ext_le_refl].
Qed.

Lemma gstep_le_offer e a : ok a = true -> ext_le (gstep e a) (QFin (val a)).
Proof. intros Hok. unfold gstep. rewrite Hok. apply guarded_min_le. Qed.

Lemma fold_gstep_best_of l e0 : best_of e0 l (fold_left gstep l e0).
Proof.
  revert e0. induction l as [|a l IH]; intros e0; cbn.
  - split; [apply ext_le_refl|]. split; [constructor|]. left; reflexivity.
  - destruct (IH (gstep e0 a)) as (Hle & Hall & Hin). split; [|split].
    + eapply ext_le_trans; [exact Hle | apply gstep_le].
    + constructor; [|exact Hall].
      intros Hok. eapply ext_le_trans; [exact Hle | apply gstep_le_offer, Hok].
    + destruct Hin as [-> | (b & Hb & Hok & ->)].
      * unfold gstep. destruct (ok a && ext_ltb (val a) e0) eqn:E.
        -- right. exists a. apply andb_true_iff in E. cbn. intuition.
        -- left. reflexivity.
      * right. exists b. cbn. intuition.
Qed.

End GuardedMin.

(** Feeding a sequence of (solution, score) offers to the holder, as the
    drivers do after each move. *)
Definition run_offers (l : list (Solution * SolutionScore)) h : IncumbentHolder Solution :=
  fold_left (fun h o => snd (try_update_incumbent (fst o) (snd o) h)) l h.

Lemma run_offers_cons o l h :
  run_offers (o :: l) h = run_offers l (snd (try_update_incumbent (fst o) (snd o) h)).
Proof. reflexivity. Qed.

Definition always (o : Solution * SolutionScore) : bool := true.
Definition offer_feasible (o : Solution * SolutionScore) : bool := is_feasible (snd o).

Lemma run_offers_objectives l h :
  m_local_augmented_incumbent_objective (run_offers l h) =
    fold_left (gstep always (fun o => local_augmented_objective (snd o))) l
      (m_local_augmented_incumbent_objective h) /\
  m_global_augmented_incumbent_objective (run_offers l h) =
    fold_left (gstep always (fun o => global_augmented_objective (snd o))) l
      (m_global_augmented_incumbent_objective h) /\
  m_feasible_incumbent_objective (run_offers l h) =
    fold_left (gstep offer_feasible (fun o => objective (snd o))) l
      (m_feasible_incumbent_objective h) /\
  (m_found_feasible_solution (run_offers l h) = true <->
    m_found_feasible_solution h = true \/ exists o, In o l /\ offer_feasible o = true).
Proof.
  revert h. induction l as [|[s sc] l IH]; intros h.
  - cbn. intuition. destruct H0 as (? & [] & _).
  - rewrite run_offers_cons. cbn [fold_left fst snd In]. destruct (try_update_objectives s sc h) as (Hl & Hg & Hf & Hfound).
    destruct (IH (snd (try_update_incumbent s sc h))) as (Il & Ig & If & Ifound).
    rewrite Il, Ig, If, Hl, Hg, Hf. unfold gstep at 4 5 6, always, offer_feasible.
    cbn [andb fst snd]. split; [reflexivity|]. split; [reflexivity|]. split; [reflexivity|].
    rewrite Ifound, Hfound, orb_true_iff. split.
    + intros [[H|H]|(o & Ho & Hfo)];
        [left; exact H | right; exists (s, sc); auto | right; exists o; auto].
    + intros [H|(o & [<-|Ho] & Hfo)];
        [left; left; exact H | left; right; exact Hfo | right; exists o; auto].
Qed.

Definition holder_wf h : Prop :=
  (m_local_augmented_incumbent_objective h = QInf \/
   m_local_augmented_incumbent_objective h =
     QFin (local_augmented_objective (m_local_augmented_incumbent_score h))) /\
  (m_global_augmented_incumbent_objective h = QInf \/
   m_global_augmented_incumbent_objective h =
     QFin (global_augmented_objective (m_global_augmented_incumbent_score h))) /\
  (m_feasible_incumbent_objective h = QInf \/
   (m_feasible_incumbent_objective h = QFin (objective (m_feasible_incumbent_score h)) /\
    is_feasible (m_feasible_incumbent_score h) = true)) /\
  (m_found_feasible_solution h = true <-> m_feasible_incumbent_objective h <> QInf).

Lemma new_holder_wf s0 : holder_wf (new_holder s0).
Proof. cbv. intuition congruence. Qed.

Lemma initialize_wf h : holder_wf (initialize h).
Proof. cbv. intuition congruence. Qed.

Lemma reset_local_wf h : holder_wf h -> holder_wf (reset_local_augmented_incumbent h).
Proof. unfold holder_wf. cbn. tauto. Qed.

(** No incumbent objective ever increases. *)
Lemma try_update_monotone s sc h :
  let h' := snd (try_update_incumbent s sc h) in
  ext_le (m_local_augmented_incumbent_objective h') (m_local_augmented_incumbent_objective h) /\
  ext_le (m_global_augmented_incumbent_objective h') (m_global_augmented_incumbent_objective h) /\
  ext_le (m_feasible_incumbent_objective h') (m_feasible_incumbent_objective h).
Proof.
  cbv zeta. destruct (try_update_objectives s sc h) as (Hl & Hg & Hf & _).
  rewrite Hl, Hg, Hf. unfold local_improves, global_improves, feasible_improves.
  split; [apply guarded_min_le|]. split; [apply guarded_min_le|].
  destruct (is_feasible sc); cbn [andb]; [apply guarded_min_le | apply ext_le_refl].
Qed.

(** After any offer the global augmented incumbent objective is finite. *)
Lemma try_update_global_fin s sc h :
  exists q, m_global_augmented_incumbent_objective (snd (try_update_incumbent s sc h)) = QFin q.
Proof.
  destruct (try_update_objectives s sc h) as (_ & Hg & _). rewrite Hg.
  unfold global_improves. destruct (m_global_augmented_incumbent_objective h) as [r|] eqn:E.
  - destruct (ext_ltb _ _); eexists; reflexivity.
  - cbn. eexists; reflexivity.
Qed.

(** C1. [try_update_incumbent] returns the status bit-set the drivers read
    with [&]: bit 1 is set exactly when the local augmented incumbent was
    replaced, bit 2 when the global augmented one was, bit 4 when the
    feasible one was, and the status lies in [0, 7]. *)
Theorem try_update_incumbent_status_bits s sc h :
  let st := fst (try_update_incumbent s sc h) in
  0 <= st <= 7 /\
  (Z.land st STATUS_LOCAL_AUGMENTED_INCUMBENT_UPDATE <> 0 <-> local_improves sc h = true) /\
  (Z.land st STATUS_GLOBAL_AUGMENTED_INCUMBENT_UPDATE <> 0 <-> global_improves sc h = true) /\
  (Z.land st STATUS_FEASIBLE_INCUMBENT_UPDATE <> 0 <-> feasible_improves sc h = true).
Proof.
  cbv zeta. rewrite try_update_status.
  destruct (local_improves sc h), (global_improves sc h), (feasible_improves sc h);
    cbv; intuition congruence.
Qed.

(** C2. Refinement of the abstract contract: after any sequence of offers
    to a fresh holder, each incumbent objective is the minimum of the
    admissible offered values ([HUGE_VALF] when there is none), the
    feasible one taken over the feasible offers only, and the holder has
    found a feasible solution exactly when one was offered. *)
Theorem incumbent_holder_refines_best_of s0 l :
  let h := run_offers l (new_holder s0) in
  best_of always (fun o => local_augmented_objective (snd o)) QInf l
    (m_local_augmented_incumbent_objective h) /\
  best_of always (fun o => global_augmented_objective (snd o)) QInf l
    (m_global_augmented_incumbent_objective h) /\
  best_of offer_feasible (fun o => objective (snd o)) QInf l
    (m_feasible_incumbent_objective h) /\
  (m_found_feasible_solution h = true <-> exists o, In o l /\ offer_feasible o = true).
Proof.
  cbv zeta. destruct (run_offers_objectives l (new_holder s0)) as (Hl & Hg & Hf & Hfound).
  rewrite Hl, Hg, Hf, Hfound. cbn. split; [apply fold_gstep_best_of|].
  split; [apply fold_gstep_best_of|]. split; [apply fold_gstep_best_of|].
  intuition discriminate.
Qed.

(** C3. [holder_wf] is an invariant of [try_update_incumbent]: each stored
    objective is [HUGE_VALF] or the matching field of the stored score, the
    feasible incumbent's score is feasible, and [found_feasible_solution]
    holds exactly when the feasible objective is finite. *)
Theorem try_update_incumbent_wf s sc h :
  holder_wf h -> holder_wf (snd (try_update_incumbent s sc h)).
Proof.
  unfold holder_wf. intros (Hl & Hg & Hf & Hfound).
  destruct Hl as [Hl|Hl], Hg as [Hg|Hg], Hf as [Hf|[Hf Hfs]];
    split_updates; rewrite ?Hl, ?Hg, ?Hf in *; cbn in *; intuition congruence.
Qed.

(** C4. The two overloads of [try_update_incumbent] agree: exporting the
    model's solution lazily, at most once, gives the same status and the
    same holder as exporting it first. *)
Theorem try_update_incumbent_model_eq {Model : Type}
    (export_solution : Model -> Solution) m sc h :
  try_update_incumbent_model export_solution m sc h =
  try_update_incumbent (export_solution m) sc h.
Proof. split_updates; reflexivity. Qed.

End HolderProperties.

(** ** Witnesses *)

Local Open Scope Q_scope.

(** A feasible score of objective 46 and penalties 0, as in the test of
    [evaluate] (src/unnamed/part_000). *)
Definition witness_score : SolutionScore :=
  mkSolutionScore 46 0 0 0 46 46 true false false.

Lemma try_update_incumbent_wf_witness :
  holder_wf (snd (try_update_incumbent tt witness_score (new_holder tt))).
Proof. apply try_update_incumbent_wf. cbv. intuition congruence. Defined.
