(* ===== verification/TabuSearchPrint.v ===== *)
(** The console table of the tabu search
    (src/cppmh/solver/tabu_search/tabu_search_print.h).

    The header and the footer are the lines [utility::print] writes.  A
    row is the tuple of values [printf] formats: the marks the code
    computes from the status bits and the objectives multiplied by the
    model's sign; the [%9.2e] formatting itself is output and is not
    modelled.  A function whose [a_IS_ENABLED_PRINT] is false returns
    before printing: nothing ([[]] or [None]). *)

From Stdlib Require Import String Ascii.
From S2P Require Import Prelude Score Incumbent.

Import IncumbentHolderConstant.

Local Open Scope string_scope.

(** The two string literals of each [utility::print], concatenated. *)
Definition table_rule : string :=
  "---------+------------------------+----------------------+-----------" ++ "-----------".

Definition table_header_1 : string :=
  "Iteration| Number of Neighborhoods|   Current Solution   |" ++ "  Incumbent Solution ".

Definition table_header_2 : string :=
  "         |  All Feas. Perm. Impr. |   Aug.Obj.(Penalty)  | " ++ "  Aug.Obj.  Feas.Obj ".

(** [print_table_header(a_IS_ENABLED_PRINT)] *)
Definition print_table_header (is_enabled_print : bool) : list string :=
  if is_enabled_print then [table_rule; table_header_1; table_header_2; table_rule] else [].

(** [print_table_footer(a_IS_ENABLED_PRINT)] *)
Definition print_table_footer (is_enabled_print : bool) : list string :=
  if is_enabled_print then [table_rule] else [].

Local Close Scope string_scope.
Local Open Scope Q_scope.

(** A double multiplied by [model->sign()]. *)
Definition signed (sign : Q) (d : dbl) : dbl := dmul d (DFin sign).

(** The arguments of the [printf] of [print_table_initial]. *)
Record InitialRow : Type := mkInitialRow {
  ir_current_objective : Q;
  ir_current_penalty : Q;
  ir_global_augmented_incumbent : dbl;
  ir_feasible_incumbent : dbl
}.

Section Rows.

Context {Solution : Type}.

(** [print_table_initial(model, score, holder, a_IS_ENABLED_PRINT)] *)
Definition print_table_initial (sign : Q) (score : SolutionScore)
    (holder : IncumbentHolder Solution) (is_enabled_print : bool) : option InitialRow :=
  if is_enabled_print then
    Some (mkInitialRow (local_augmented_objective score * sign) (local_penalty score)
            (signed sign (global_augmented_incumbent_objective holder))
            (signed sign (feasible_incumbent_objective holder)))
  else None.

(** The arguments of the [printf] of [print_table_body]. *)
Record TableRow : Type := mkTableRow {
  tr_iteration : Z;
  tr_number_of_all_neighborhoods : Z;
  tr_number_of_feasible_neighborhoods : Z;
  tr_number_of_permissible_neighborhoods : Z;
  tr_number_of_improvable_neighborhoods : Z;
  tr_mark_current : ascii;
  tr_current_objective : Q;
  tr_current_penalty : Q;
  tr_mark_global_augmented_incumbent : ascii;
  tr_global_augmented_incumbent : dbl;
  tr_mark_feasible_incumbent : ascii;
  tr_feasible_incumbent : dbl
}.

(** The three marks: ['!'] on the current solution and the global
    augmented incumbent when the latter was updated, then ['*'] on the
    current solution and the feasible incumbent when the feasible one
    was. *)
Definition table_marks (status : Z) : ascii * ascii * ascii :=
  let '(mc, mg, mf) := (" "%char, " "%char, " "%char) in
  let '(mc, mg) :=
    if negb (Z.land status STATUS_GLOBAL_AUGMENTED_INCUMBENT_UPDATE =? 0)%Z
    then ("!"%char, "!"%char) else (mc, mg) in
  let '(mc, mf) :=
    if negb (Z.land status STATUS_FEASIBLE_INCUMBENT_UPDATE =? 0)%Z
    then ("*"%char, "*"%char) else (mc, mf) in
  (mc, mg, mf).

(** [print_table_body(model, iteration, counts..., score, status,
    holder, a_IS_ENABLED_PRINT)] *)
Definition print_table_body (sign : Q) (iteration all feasible permissible improvable : Z)
    (score : SolutionScore) (status : Z) (holder : IncumbentHolder Solution)
    (is_enabled_print : bool) : option TableRow :=
  if is_enabled_print then
    let '(mc, mg, mf) := table_marks status in
    Some (mkTableRow iteration all feasible permissible improvable
            mc (local_augmented_objective score * sign) (local_penalty score)
            mg (signed sign (global_augmented_incumbent_objective holder))
            mf (signed sign (feasible_incumbent_objective holder)))
  else None.

End Rows.

(** ** Properties *)

(** The widths of the lines of the header and of the footer: the rules
    and the second header line are 80 characters wide, the first header
    line only 79 (its last column is one character short). *)
Lemma table_lines_width :
  String.length <$> (print_table_header true ++ print_table_footer true) = [80; 79; 80; 80; 80]%nat.
Proof. vm_compute. reflexivity. Qed.

(** C24. The marks of a row printed after an offer to the holder: the
    feasible incumbent column is marked ['*'] exactly when the offer
    replaced the feasible incumbent, the global augmented one ['!']
    exactly when it replaced that one, and the current solution carries
    ['*'] if the feasible incumbent was updated, else ['!'] if the global
    augmented one was, else nothing. *)
Theorem print_table_body_marks {Solution : Type} sign it a f p i score
    (s : Solution) sc (h : IncumbentHolder Solution) :
  let status := fst (try_update_incumbent s sc h) in
  option_map (fun r => (tr_mark_current r, tr_mark_global_augmented_incumbent r,
                        tr_mark_feasible_incumbent r))
    (print_table_body sign it a f p i score status h true) =
  Some (if feasible_improves sc h then "*"%char
        else if global_improves sc h then "!"%char else " "%char,
        if global_improves sc h then "!"%char else " "%char,
        if feasible_improves sc h then "*"%char else " "%char).
Proof.
  cbv zeta. unfold print_table_body. rewrite try_update_status.
  destruct (local_improves sc h), (global_improves sc h), (feasible_improves sc h);
    reflexivity.
Qed.
