(* ===== verification/Memory.v ===== *)
(** [Memory] (src/printemps/solver/memory.h): the short-term memory (the
    iteration at which each variable was last updated) and the long-term
    memory (how often each variable was updated) of the tabu search, and
    the concentration measure [bias] the outer loop reads.

    A [ValueProxy<int>] per variable proxy is a list of its flat-indexed
    values; [m_last_update_iterations[p][f]] is [nth f (nth p ...)].  The
    Mersenne twister is a Section variable [mt : nat -> Z] read through a
    draw counter, so a randomised update is a function of the memory, the
    move and the number of draws made so far. *)

From Stdlib Require Import String.
From S2P Require Import Prelude MultiArray Score.

Module MemoryConstant.
Definition INITIAL_LAST_UPDATE_ITERATION : Z := -1000.
End MemoryConstant.

Import MemoryConstant.

Record Memory : Type := mkMemory {
  m_variable_names : list string;
  m_last_update_iterations : list (list Z);
  m_update_counts : list (list Z);
  m_total_update_counts : Z
}.

(** [initialize()] *)
Definition memory_initialize : Memory := mkMemory [] [] [] 0.

(** [setup(model)]: one proxy per variable proxy of the model, given by its
    name and its number of elements; every last-update iteration starts at
    [INITIAL_LAST_UPDATE_ITERATION], every count at 0. *)
Definition setup (proxies : list (string * nat)) : Memory :=
  {| m_variable_names := map fst proxies;
     m_last_update_iterations :=
       map (fun p => repeat INITIAL_LAST_UPDATE_ITERATION (snd p)) proxies;
     m_update_counts := map (fun p => repeat 0 (snd p)) proxies;
     m_total_update_counts := 0 |}.

(** [values[proxy_index][flat_index]] updated in place by [g]. *)
Definition alter2 (g : Z -> Z) (r : VarRef) (xs : list (list Z)) : list (list Z) :=
  alter (alter g (flat_index r)) (proxy_index r) xs.

(** One alteration of [update(move, iteration)], with the last-update
    iteration it records. *)
Definition record_update (last : Z) (m : Memory) (r : VarRef) : Memory :=
  {| m_variable_names := m_variable_names m;
     m_last_update_iterations := alter2 (fun _ => last) r (m_last_update_iterations m);
     m_update_counts := alter2 Z.succ r (m_update_counts m);
     m_total_update_counts := m_total_update_counts m + 1 |}.

(** [update(const Move&, int a_ITERATION)] *)
Definition update (mv : Move) (iteration : Z) (m : Memory) : Memory :=
  fold_left (fun m a => record_update iteration m (fst a)) (alterations mv) m.

(** The offset [get_rand_mt() % (2 * a_RANDOM_WIDTH) - a_RANDOM_WIDTH]:
    [u] is the [unsigned long] draw, [2 * W] is computed in [int] and then
    converted, the difference wraps modulo [2^64], and the result is
    stored in an [int]. *)
Definition random_offset (u W : Z) : Z :=
  to_int32 (to_ulong (u mod to_ulong (2 * W) - to_ulong W)).

Section Randomized.

Variable mt : nat -> Z.

(** [update(move, iteration, random_width, get_rand_mt)]: [n] is the number
    of draws made so far; one draw per alteration when the width is not 0. *)
Fixpoint update_random_alterations (alts : list (VarRef * Z)) (iteration W : Z)
    (m : Memory) (n : nat) : Memory * nat :=
  match alts with
  | [] => (m, n)
  | a :: rest =>
      let randomness := random_offset (mt n) W in
      update_random_alterations rest iteration W
        (record_update (iteration + randomness) m (fst a)) (S n)
  end.

Definition update_random (mv : Move) (iteration W : Z) (m : Memory) (n : nat)
    : Memory * nat :=
  if (W =? 0)%Z then (update mv iteration m, n)
  else update_random_alterations (alterations mv) iteration W m n.

End Randomized.

(** [reset_last_update_iterations()] *)
Definition reset_last_update_iterations (m : Memory) : Memory :=
  {| m_variable_names := m_variable_names m;
     m_last_update_iterations :=
       map (map (fun _ => INITIAL_LAST_UPDATE_ITERATION)) (m_last_update_iterations m);
     m_update_counts := m_update_counts m;
     m_total_update_counts := m_total_update_counts m |}.

(** [bias()]: the sum of the squared update frequencies over the first
    [m_variable_names.size()] proxies, in double arithmetic (NaN when no
    update has been made yet and there is at least one variable). *)
Definition frequency_square (total c : Z) : dbl :=
  let f := ddiv_int c total in dmul f f.

Definition bias (m : Memory) : dbl :=
  fold_left
    (fun acc proxy =>
       fold_left (fun acc c => dadd acc (frequency_square (m_total_update_counts m) c))
         proxy acc)
    (take (length (m_variable_names m)) (m_update_counts m))
    (DFin 0).

(** The debug printers [print_last_update_iterations()],
    [print_update_counts()] and [print_frequency()]: for each of the
    first [m_variable_names.size()] proxies, one line
    [NAME + indices_label(j) + " = " + value] per element.  A [ValueProxy]
    carries the array of its variable proxy; the record above keeps only
    the values, so the arrays are passed alongside, in the same order.
    [labelled_values] pairs each line's text before the value with the
    value, formatted by [fmt]. *)
Definition labelled_values {B} (fmt : Z -> B) (names : list string)
    (arrays : list AbstractMultiArray) (values : list (list Z)) : list (string * B) :=
  concat (imap (fun i name =>
    match arrays !! i, values !! i with
    | Some a, Some vs =>
        (fun j => ((name ++ indices_label a (Z.of_nat j) ++ " = ")%string,
                   fmt (default 0 (vs !! j))))
          <$> seq 0 (Z.to_nat (m_number_of_elements a))
    | _, _ => []
    end) names).

(** Lines 81-92 and 99-108: the value printed with [std::to_string(int)]. *)
Definition print_values (names : list string) (arrays : list AbstractMultiArray)
    (values : list (list Z)) : list string :=
  (fun lv => (lv.1 ++ lv.2)%string) <$> labelled_values int_to_string names arrays values.

Definition print_last_update_iterations (m : Memory) (arrays : list AbstractMultiArray)
    : list string :=
  print_values (m_variable_names m) arrays (m_last_update_iterations m).

Definition print_update_counts (m : Memory) (arrays : list AbstractMultiArray) : list string :=
  print_values (m_variable_names m) arrays (m_update_counts m).

(** Lines 112-126: the frequency [count / (double) m_total_update_counts]
    of each element, a double ([std::to_string(double)]'s six decimals are
    output and are not modelled). *)
Definition print_frequency (m : Memory) (arrays : list AbstractMultiArray) : list (string * dbl) :=
  labelled_values (fun c => ddiv_int c (m_total_update_counts m))
    (m_variable_names m) arrays (m_update_counts m).

(** ** Invariant *)

(** Number of elements of each proxy. *)
Definition shape (m : Memory) : list nat := map length (m_update_counts m).

(** A variable reference that exists in the memory's proxies. *)
Definition valid_ref (m : Memory) (r : VarRef) : Prop :=
  exists n, shape m !! proxy_index r = Some n /\ (flat_index r < n)%nat.

(** Both memories have the same proxies and sizes, the counts are
    non-negative, and the total is their sum. *)
Definition memory_wf (m : Memory) : Prop :=
  length (m_variable_names m) = length (m_update_counts m) /\
  map length (m_last_update_iterations m) = shape m /\
  Forall (Forall (fun c => 0 <= c)) (m_update_counts m) /\
  m_total_update_counts m = sumZ (map sumZ (m_update_counts m)).

Lemma map_length_alter2 g r xs : map length (alter2 g r xs) = map length xs.
Proof.
  unfold alter2. rewrite (list_fmap_alter length _ id); [|apply Forall_forall; intros; apply length_alter].
  apply list_alter_id. reflexivity.
Qed.

Lemma record_update_shape k m r : shape (record_update k m r) = shape m.
Proof. apply map_length_alter2. Qed.

Lemma record_update_wf k m r :
  memory_wf m -> valid_ref m r -> memory_wf (record_update k m r).
Proof.
  intros (Hn & Hl & Hc & Ht) (n & Hs & Hf). unfold shape in *.
  rewrite list_lookup_fmap in Hs.
  destruct (m_update_counts m !! proxy_index r) as [row|] eqn:Hrow; [|discriminate].
  injection Hs as <-. destruct (lookup_lt_is_Some_2 row (flat_index r) Hf) as [c Hc'].
  unfold memory_wf, record_update, shape.
  cbn [m_variable_names m_last_update_iterations m_update_counts m_total_update_counts].
  rewrite !map_length_alter2. unfold alter2. rewrite length_alter.
  split; [exact Hn|]. split; [exact Hl|]. split.
  - apply Forall_alter; [exact Hc|]. intros x _ Hx. apply Forall_alter; [exact Hx|].
    intros y _ Hy. lia.
  - rewrite (sumZ_map_alter sumZ _ _ _ row Hrow), Ht, (sumZ_alter _ _ _ c Hc'). lia.
Qed.

Lemma record_update_valid k m r r' : valid_ref m r' -> valid_ref (record_update k m r) r'.
Proof. unfold valid_ref. rewrite record_update_shape. exact id. Qed.

(** [values[r]] of a proxy array. *)
Definition lookup2 (xs : list (list Z)) (r : VarRef) : option Z :=
  xs !! proxy_index r ≫= fun row => row !! flat_index r.

Lemma lookup2_alter2 g r r' xs :
  lookup2 (alter2 g r xs) r' =
  if decide (r = r') then g <$> lookup2 xs r' else lookup2 xs r'.
Proof.
  unfold lookup2, alter2. destruct r as [p f], r' as [p' f']; cbn.
  rewrite list_lookup_alter. destruct (decide (p = p')) as [<-|Hp].
  - destruct (xs !! p) as [row|]; cbn; [|by case_decide].
    rewrite list_lookup_alter. destruct (decide (f = f')) as [<-|Hf].
    + by rewrite decide_True.
    + rewrite decide_False; [reflexivity | congruence].
  - rewrite decide_False; [reflexivity | congruence].
Qed.

(** The references a move alters, in order. *)
Definition altered (mv : Move) : list VarRef := map fst (alterations mv).

Definition occurrences (r : VarRef) (rs : list VarRef) : Z :=
  Z.of_nat (length (filter (fun r' => r' = r) rs)).

Lemma occurrences_cons r r0 rs :
  occurrences r (r0 :: rs) = (if decide (r0 = r) then 1 else 0) + occurrences r rs.
Proof.
  unfold occurrences. rewrite filter_cons. destruct (decide (r0 = r)); cbn [length]; lia.
Qed.

Lemma fold_record_update_shape k (alts : list (VarRef * Z)) m :
  shape (fold_left (fun m a => record_update k m (fst a)) alts m) = shape m.
Proof.
  revert m. induction alts as [|a alts IH]; intros m; [reflexivity|].
  cbn [fold_left]. rewrite IH. apply record_update_shape.
Qed.

Lemma update_random_shape mt (alts : list (VarRef * Z)) k W m n :
  shape (fst (update_random_alterations mt alts k W m n)) = shape m.
Proof.
  revert m n. induction alts as [|a alts IH]; intros m n; [reflexivity|].
  cbn [update_random_alterations]. rewrite IH. apply record_update_shape.
Qed.

(** ** Properties *)

(** C5. [update(move, iteration)] preserves the memory invariant when every
    altered variable belongs to the model, keeps the proxies' sizes, and
    adds one to the total per alteration. *)
Theorem update_wf mv k m :
  memory_wf m -> Forall (valid_ref m) (altered mv) ->
  memory_wf (update mv k m) /\
  shape (update mv k m) = shape m /\
  m_total_update_counts (update mv k m) =
    m_total_update_counts m + Z.of_nat (length (alterations mv)).
Proof.
  unfold update, altered. generalize (alterations mv) as alts. intros alts.
  revert m. induction alts as [|a alts IH]; intros m Hwf Hv.
  - cbn. split; [exact Hwf | split; [reflexivity | lia]].
  - cbn [fold_left map] in *. inversion Hv as [|? ? Ha Hrest]; subst.
    destruct (IH (record_update k m (fst a))) as (Hwf' & Hs & Ht).
    + apply record_update_wf; assumption.
    + eapply Forall_impl; [exact Hrest|]. intros r. apply record_update_valid.
    + split; [exact Hwf'|]. rewrite Hs, record_update_shape, Ht. cbn [length].
      split; [reflexivity|]. cbn. lia.
Qed.

(** C6. After [update(move, iteration)], every variable's update count has
    grown by the number of times the move alters it, and its last-update
    iteration is [iteration] exactly when the move alters it. *)
Theorem update_lookup mv k m r :
  lookup2 (m_update_counts (update mv k m)) r =
    (fun c => c + occurrences r (altered mv)) <$> lookup2 (m_update_counts m) r /\
  lookup2 (m_last_update_iterations (update mv k m)) r =
    if decide (r ∈ altered mv) then (fun _ => k) <$> lookup2 (m_last_update_iterations m) r
    else lookup2 (m_last_update_iterations m) r.
Proof.
  unfold update, altered. generalize (alterations mv) as alts. intros alts.
  revert m. induction alts as [|a alts IH]; intros m.
  - cbn. unfold occurrences. cbn. split.
    + destruct (lookup2 _ r); cbn; f_equal; lia.
    + rewrite decide_False; [reflexivity|]. apply not_elem_of_nil.
  - cbn [fold_left map]. destruct (IH (record_update k m (fst a))) as [Hc Hl].
    rewrite Hc, Hl. cbn [m_update_counts m_last_update_iterations record_update].
    rewrite !lookup2_alter2, occurrences_cons. split.
    + destruct (decide (fst a = r)); destruct (lookup2 (m_update_counts m) r); cbn;
        f_equal; lia.
    + destruct (decide (fst a = r)) as [<-|Hne].
      * rewrite (decide_True _ _ (list_elem_of_here _ _)).
        destruct (decide (fst a ∈ map fst alts));
          destruct (lookup2 (m_last_update_iterations m) (fst a)); reflexivity.
      * assert (r ∈ fst a :: map fst alts <-> r ∈ map fst alts) as Hiff
          by (rewrite elem_of_cons; split; [intros [->|H]; [congruence|exact H] | intros H; right; exact H]).
        destruct (decide (r ∈ map fst alts)), (decide (r ∈ fst a :: map fst alts));
          tauto || reflexivity.
Qed.

(** C7. The random offset of the randomised update lies in
    [[-W, W)] and equals [u mod 2W - W] for every draw [u], although the
    subtraction is made in [unsigned long] and wraps: narrowing back to
    [int] undoes the wrap, provided [2 * W] fits in an [int]. *)
Theorem random_offset_range u W :
  0 <= u -> 0 < W -> 2 * W <= int_max ->
  random_offset u W = u mod (2 * W) - W /\ - W <= random_offset u W < W.
Proof.
  intros Hu HW Hmax. rewrite int_max_value in Hmax. unfold random_offset.
  rewrite (to_ulong_small (2 * W)), (to_ulong_small W)
    by (rewrite ulong_modulus_value; lia).
  rewrite to_int32_ulong. pose proof (Z.mod_pos_bound u (2 * W)) as Hb.
  rewrite to_int32_small; [lia|].
  unfold in_int_range. rewrite int_min_value, int_max_value. lia.
Qed.

(** *** [bias] *)

Definition sum_sq (l : list Z) : Z := sumZ (map (fun c => c * c) l).

Lemma sum_sq_cons c l : sum_sq (c :: l) = c * c + sum_sq l.
Proof. reflexivity. Qed.

(** The square of a sum of non-negative counts bounds the sum of squares
    from above, and their number times the sum of squares bounds it from
    below (Cauchy-Schwarz). *)
Lemma sum_sq_bounds (l : list Z) :
  Forall (fun c => 0 <= c) l ->
  sumZ l <= sum_sq l <= sumZ l * sumZ l /\
  sumZ l * sumZ l <= Z.of_nat (length l) * sum_sq l.
Proof.
  induction 1 as [|c l Hc Hl IH].
  { change (sumZ []) with 0. change (sum_sq []) with 0. cbn [length]. lia. }
  rewrite sum_sq_cons, sumZ_cons. cbn [length]. rewrite Nat2Z.inj_succ.
  pose proof (sumZ_nonneg l Hl). pose proof (Nat2Z.is_nonneg (length l)).
  set (n := Z.of_nat (length l)) in *. set (S := sumZ l) in *. set (Q := sum_sq l) in *.
  destruct IH as [[H1 H2] H3].
  assert (0 <= (n * c - S) * (n * c - S)) by apply Z.square_nonneg.
  assert (n = 0 -> S = 0) by (intros Hn0; rewrite Hn0 in H3; nia).
  split; [split; nia|].
  destruct (Z.eq_dec n 0) as [Hn|Hn]; [subst n; nia|].
  assert (2 * c * S <= n * c * c + Q) by nia. nia.
Qed.

Lemma fold_nested_concat (F : dbl -> Z -> dbl) (xss : list (list Z)) acc :
  fold_left (fun acc proxy => fold_left F proxy acc) xss acc =
  fold_left F (concat xss) acc.
Proof.
  revert acc. induction xss as [|xs xss IH]; intros acc; [reflexivity|].
  cbn [fold_left concat]. rewrite fold_left_app. apply IH.
Qed.

Local Open Scope Q_scope.

Lemma frequency_square_fin (T c : Z) :
  T <> 0%Z ->
  frequency_square T c = DFin (inject_Z c / inject_Z T * (inject_Z c / inject_Z T)).
Proof.
  intros HT. unfold frequency_square, ddiv_int. rewrite (proj2 (Z.eqb_neq T 0) HT).
  reflexivity.
Qed.

(** With a non-zero total every frequency is finite, and the running sum
    of their squares is the sum of squared counts over the squared total. *)
Lemma fold_frequency_square (T : Z) (l : list Z) q :
  T <> 0%Z ->
  exists b, fold_left (fun acc c => dadd acc (frequency_square T c)) l (DFin q) = DFin b /\
       b == q + inject_Z (sum_sq l) / (inject_Z T * inject_Z T).
Proof.
  intros HT. assert (~ inject_Z T == 0) as HT'.
  { change 0 with (inject_Z 0). rewrite inject_Z_injective. exact HT. }
  revert q. induction l as [|c l IH]; intros q.
  - exists q. split; [reflexivity|]. change (sum_sq []) with 0%Z. field. exact HT'.
  - cbn [fold_left]. rewrite (frequency_square_fin T c HT). cbn [dadd].
    destruct (IH (q + inject_Z c / inject_Z T * (inject_Z c / inject_Z T))) as (b & Hb & Hbq).
    exists b. split; [exact Hb|]. rewrite Hbq, sum_sq_cons, inject_Z_plus, inject_Z_mult.
    field. exact HT'.
Qed.

Lemma sumZ_concat (xss : list (list Z)) : sumZ (concat xss) = sumZ (map sumZ xss).
Proof.
  induction xss as [|xs xss IH]; [reflexivity|].
  cbn [concat map]. rewrite sumZ_app, sumZ_cons, IH. reflexivity.
Qed.

(** Number of variables the memory tracks. *)
Definition number_of_variables (m : Memory) : Z :=
  Z.of_nat (length (concat (m_update_counts m))).

(** [a / T^2] lies in [[1/N, 1]] when [T^2 <= N a] and [a <= T^2]. *)
Lemma ratio_bounds (a T N : Z) :
  (0 < T)%Z -> (0 < N)%Z -> (a <= T * T)%Z -> (T * T <= N * a)%Z ->
  1 / inject_Z N <= inject_Z a / (inject_Z T * inject_Z T) <= 1.
Proof.
  intros HT HN H1 H2. rewrite <- inject_Z_mult.
  assert (0 < inject_Z (T * T)) by (change 0 with (inject_Z 0); rewrite <- Zlt_Qlt; lia).
  assert (0 < inject_Z N) by (change 0 with (inject_Z 0); rewrite <- Zlt_Qlt; lia).
  split.
  - apply Qle_shift_div_l; [assumption|].
    assert (E : 1 / inject_Z N * inject_Z (T * T) == inject_Z (T * T) / inject_Z N)
      by (field; apply Qnot_eq_sym, Qlt_not_eq; assumption).
    rewrite E.
    apply Qle_shift_div_r; [assumption|]. rewrite <- inject_Z_mult, <- Zle_Qle. lia.
  - apply Qle_shift_div_r; [assumption|]. rewrite Qmult_1_l, <- Zle_Qle. exact H1.
Qed.

(** C8. Once at least one update has been recorded, [bias()] is a finite
    double between [1/n] and [1], [n] the number of variables: the
    frequencies sum to one, so their squares sum to at most one and, by
    Cauchy-Schwarz, to at least [1/n] (reached when all variables were
    updated equally often). *)
Theorem bias_bounds m :
  memory_wf m -> (0 < m_total_update_counts m)%Z ->
  exists b, bias m = DFin b /\ 1 / inject_Z (number_of_variables m) <= b <= 1.
Proof.
  intros (Hn & _ & Hc & Ht) Hpos. unfold bias, number_of_variables.
  rewrite Hn, take_ge by lia. rewrite fold_nested_concat.
  rewrite <- sumZ_concat in Ht. set (l := concat (m_update_counts m)) in *.
  assert (Forall (fun c => 0 <= c)%Z l) as Hl by (apply Forall_concat; exact Hc).
  destruct (fold_frequency_square (m_total_update_counts m) l 0) as (b & -> & Hb); [lia|].
  exists b. split; [reflexivity|]. rewrite Hb, Qplus_0_l.
  destruct (sum_sq_bounds l Hl) as [[H1 H2] H3]. rewrite <- Ht in H1, H2, H3.
  apply ratio_bounds; try lia.
  destruct l; [cbn in *; lia | cbn [length]; lia].
Qed.

Lemma fold_dadd_nan (F : Z -> dbl) (l : list Z) :
  fold_left (fun acc c => dadd acc (F c)) l DNaN = DNaN.
Proof. induction l as [|c l IH]; [reflexivity|]. exact IH. Qed.

Lemma sumZ_nonneg_zero (l : list Z) :
  Forall (fun c => 0 <= c)%Z l -> sumZ l = 0%Z -> Forall (fun c => c = 0)%Z l.
Proof.
  induction 1 as [|c l Hc Hl IH]; intros Hs; constructor;
    rewrite sumZ_cons in Hs; pose proof (sumZ_nonneg l Hl); [lia | apply IH; lia].
Qed.

(** C9. Before any update is recorded, [bias()] of a memory with at least
    one variable is NaN ([0.0 / 0.0]), not a value in [[1/n, 1]]; every
    comparison the outer loop makes with it is false. *)
Theorem bias_nan_without_updates m :
  memory_wf m -> m_total_update_counts m = 0%Z -> (0 < number_of_variables m)%Z ->
  bias m = DNaN.
Proof.
  intros (Hn & _ & Hc & Ht) H0 Hpos. unfold bias, number_of_variables in *.
  rewrite Hn, take_ge by lia. rewrite fold_nested_concat, H0.
  rewrite <- sumZ_concat in Ht.
  assert (Forall (fun c => 0 <= c)%Z (concat (m_update_counts m))) as Hl
    by (apply Forall_concat; exact Hc).
  pose proof (sumZ_nonneg_zero _ Hl (eq_trans (eq_sym Ht) H0)) as Hz.
  destruct (concat (m_update_counts m)) as [|c l]; [cbn in Hpos; lia|].
  inversion Hz; subst. apply fold_dadd_nan.
Qed.

(** The draws of the randomized update change the counts as the plain
    update does. *)
Lemma update_random_alterations_counts mt alts k W m m' n :
  m_update_counts m = m_update_counts m' -> m_total_update_counts m = m_total_update_counts m' ->
  m_update_counts (fst (update_random_alterations mt alts k W m n)) =
    m_update_counts (fold_left (fun m a => record_update k m (fst a)) alts m') /\
  m_total_update_counts (fst (update_random_alterations mt alts k W m n)) =
    m_total_update_counts (fold_left (fun m a => record_update k m (fst a)) alts m') /\
  snd (update_random_alterations mt alts k W m n) = (n + length alts)%nat.
Proof.
  revert m m' n. induction alts as [|a alts IH]; intros m m' n Hc Ht.
  - cbn. repeat split; [exact Hc | exact Ht | lia].
  - cbn [update_random_alterations fold_left length].
    destruct (IH (record_update (k + random_offset (mt n) W) m (fst a))
                 (record_update k m' (fst a)) (S n)) as (H1 & H2 & H3);
      [cbn; rewrite Hc; reflexivity | cbn; rewrite Ht; reflexivity |].
    split; [exact H1|]. split; [exact H2|]. rewrite H3. lia.
Qed.

(** C33. The randomized [update(move, iteration, random_width, mt)]
    records the move in the update counts and in their total exactly as
    [update(move, iteration)] does, whatever the generator draws; it draws
    one number per alteration when the width is not 0 and none otherwise.
    Only the last-update iterations differ. *)
Theorem update_random_counts mt mv k W m n :
  m_update_counts (fst (update_random mt mv k W m n)) = m_update_counts (update mv k m) /\
  m_total_update_counts (fst (update_random mt mv k W m n)) = m_total_update_counts (update mv k m) /\
  snd (update_random mt mv k W m n) = (if (W =? 0)%Z then n else n + length (alterations mv))%nat.
Proof.
  unfold update_random. destruct (W =? 0)%Z; [repeat split; reflexivity|].
  apply update_random_alterations_counts; reflexivity.
Qed.

(** ** Witnesses *)

Local Open Scope Z_scope.

(** Closes [memory_wf] and [valid_ref] goals on concrete memories. *)
Ltac solve_memory_wf :=
  unfold memory_wf, valid_ref, shape; cbn;
  repeat split; try reflexivity;
  repeat (constructor || lia || (eexists; split; [cbn; reflexivity | cbn; lia])).

(** Proxies [x] of three elements and [y] of two. *)
Definition example_memory : Memory := setup [("x"%string, 3%nat); ("y"%string, 2%nat)].

(** A move altering [x[1]] and [y[0]]. *)
Definition example_move : Move :=
  mkMove MS_Binary [(mkVarRef 0 1, 1); (mkVarRef 1 0, 0)] [].

Lemma update_wf_witness :
  memory_wf (update example_move 5 example_memory) /\
  shape (update example_move 5 example_memory) = shape example_memory /\
  m_total_update_counts (update example_move 5 example_memory) =
    m_total_update_counts example_memory + Z.of_nat (length (alterations example_move)).
Proof. apply update_wf; solve_memory_wf. Defined.

(** A draw of [7] with width [3]: [7 mod 6 - 3 = -2], through an unsigned
    wrap-around. *)
Lemma random_offset_range_witness :
  random_offset 7 3 = 7 mod (2 * 3) - 3 /\ - 3 <= random_offset 7 3 < 3.
Proof. apply random_offset_range; [lia | lia | rewrite int_max_value; lia]. Defined.

Lemma bias_bounds_witness :
  exists b, bias (update example_move 5 example_memory) = DFin b /\
    (1 / inject_Z (number_of_variables (update example_move 5 example_memory)) <= b <= 1)%Q.
Proof. apply bias_bounds; [solve_memory_wf | vm_compute; reflexivity]. Defined.

Lemma bias_nan_without_updates_witness : bias example_memory = DNaN.
Proof. apply bias_nan_without_updates; [solve_memory_wf | reflexivity | vm_compute; reflexivity]. Defined.

(** The counts printed after the example move: one line per element,
    named after its proxy and indices. *)
Lemma print_update_counts_example :
  print_update_counts (update example_move 5 example_memory)
    (default [] (a ← new_vector_array 0 3; b ← new_vector_array 1 2; Some [a; b])) =
  ["x[0] = 0"; "x[1] = 1"; "x[2] = 0"; "y[0] = 1"; "y[1] = 0"]%string.
Proof. vm_compute. reflexivity. Qed.
