(* ===== verification/Penalty.v ===== *)
(** The local penalty coefficients and their update between two tabu-search
    loops ([solve], src/cppmh/solver/solver.h, lines 182-187 and 613-709):
    a reset to the global coefficients, a tightening driven by the gap
    between the incumbents, or a relaxation of the satisfied constraints.

    A [std::vector<ValueProxy<double>>] of coefficients is a list (one entry
    per constraint proxy, the proxy's [id] being its position) of lists
    (one coefficient per constraint of the proxy).  The violations of the
    local incumbent solution have the same layout.  The update is written
    for a finite gap; the solver applies it only then (Solver.v). *)

From S2P Require Import Prelude.

Local Open Scope Q_scope.

(** [constant::EPSILON] (constant.h is not under [src/]). *)
Definition EPSILON : Q := 1 # 10000000000.

(** [std::max(a, b)] and [std::min(a, b)] on doubles. *)
Definition std_max (a b : Q) : Q := if Qltb a b then b else a.
Definition std_min (a b : Q) : Q := if Qltb b a then b else a.

(** [utility::max] of the (non-empty) flat values of a proxy. *)
Definition proxy_max (l : list Q) : Q :=
  match l with
  | [] => 0
  | x :: xs => fold_left std_max xs x
  end.

(** [model->generate_constraint_parameter_proxies(v)]: one coefficient [v]
    per constraint, for proxies of the given sizes. *)
Definition generate_constraint_parameter_proxies (shape : list nat) (v : Q)
    : list (list Q) :=
  (fun n => repeat v n) <$> shape.

(** [total_penalty] and [total_squared_violation]: sums over all the
    violations of the local incumbent solution, in the order of the loops. *)
Definition total_penalty (viols : list (list Q)) : Q :=
  fold_left (fun acc v => acc + v) (concat viols) 0.

Definition total_squared_violation (viols : list (list Q)) : Q :=
  fold_left (fun acc v => acc + v * v) (concat viols) 0.

Section Tighten.

Context (initial_penalty_coefficient tightening_rate updating_balance : Q)
        (is_enabled_grouping_penalty_coefficient : bool).

(** The [element += ...] statement for one coefficient [e] whose
    constraint has violation [v]. *)
Definition raise_element (gap tp tsv : Q) (e v : Q) : Q :=
  let delta_penalty_constant := std_max 0 gap / tp in
  let delta_penalty_proportional := std_max 0 gap / tsv * v in
  e + tightening_rate *
      (updating_balance * delta_penalty_constant +
       (1 - updating_balance) * delta_penalty_proportional).

(** One proxy: raise every element, level them to the proxy's maximum when
    grouping is enabled, then cap them by the initial coefficient. *)
Definition tighten_proxy (gap tp tsv : Q) (coeffs viols : list Q) : list Q :=
  let raised := imap (fun j e => raise_element gap tp tsv e (nth j viols 0)) coeffs in
  let grouped :=
    if is_enabled_grouping_penalty_coefficient
    then (fun _ => proxy_max raised) <$> raised else raised in
  (fun e => std_min e initial_penalty_coefficient) <$> grouped.

Definition tighten (gap : Q) (coeffs viols : list (list Q)) : list (list Q) :=
  let tp := total_penalty viols in
  let tsv := total_squared_violation viols in
  imap (fun id proxy => tighten_proxy gap tp tsv proxy (nth id viols [])) coeffs.

End Tighten.

Section Relax.

Context (relaxing_rate : Q).

(** The coefficients of the constraints the local incumbent satisfies (up
    to [EPSILON]) are multiplied by the relaxing rate. *)
Definition relax_proxy (coeffs viols : list Q) : list Q :=
  imap (fun j e => if Qltb (nth j viols 0) EPSILON then e * relaxing_rate else e) coeffs.

Definition relax (coeffs viols : list (list Q)) : list (list Q) :=
  imap (fun id proxy => relax_proxy proxy (nth id viols [])) coeffs.

End Relax.

(** ** Properties *)

(** Every coefficient lies in [[0, initial_penalty_coefficient]]. *)
Definition coeffs_bounded (init : Q) (coeffs : list (list Q)) : Prop :=
  Forall (Forall (fun e => 0 <= e <= init)) coeffs.

Definition lookup2 (xs : list (list Q)) (i j : nat) : option Q :=
  xs !! i ≫= fun row => row !! j.

Lemma std_min_le_r a b : std_min a b <= b.
Proof. unfold std_min. case_Qltb b a; [apply Qle_refl | exact E]. Qed.

Lemma std_min_glb a b c : c <= a -> c <= b -> c <= std_min a b.
Proof. unfold std_min. destruct (Qltb b a); auto. Qed.

Lemma std_max_ge_l a b : a <= std_max a b.
Proof. unfold std_max. case_Qltb a b; [apply Qlt_le_weak, E | apply Qle_refl]. Qed.

Lemma std_max_ge_r a b : b <= std_max a b.
Proof. unfold std_max. case_Qltb a b; [apply Qle_refl | exact E]. Qed.

Lemma fold_std_max_ge (xs : list Q) x :
  x <= fold_left std_max xs x /\ Forall (fun y => y <= fold_left std_max xs x) xs.
Proof.
  revert x. induction xs as [|y xs IH]; intros x; cbn [fold_left].
  - split; [apply Qle_refl | constructor].
  - destruct (IH (std_max x y)) as [H1 H2]. split; [|constructor; [|exact H2]].
    + eapply Qle_trans; [apply std_max_ge_l | exact H1].
    + eapply Qle_trans; [apply std_max_ge_r | exact H1].
Qed.

Lemma proxy_max_ge (xs : list Q) : Forall (fun y => y <= proxy_max xs) xs.
Proof.
  destruct xs as [|x xs]; [constructor|]. cbn [proxy_max].
  destruct (fold_std_max_ge xs x). constructor; assumption.
Qed.

Lemma Qdiv_nonneg a b : 0 <= a -> 0 <= b -> 0 <= a / b.
Proof.
  intros Ha Hb. unfold Qdiv. apply Qmult_le_0_compat; [exact Ha|].
  apply Qinv_le_0_compat, Hb.
Qed.

(** Raising never lowers a coefficient when the rates are admissible and
    the violations non-negative. *)
Lemma raise_element_ge rate bal gap tp tsv e v :
  0 <= rate -> 0 <= bal <= 1 -> 0 <= tp -> 0 <= tsv -> 0 <= v ->
  e <= raise_element rate bal gap tp tsv e v.
Proof.
  intros Hr [Hb0 Hb1] Htp Htsv Hv. unfold raise_element.
  assert (0 <= std_max 0 gap) as Hg by apply std_max_ge_l.
  assert (0 <= std_max 0 gap / tp) by (apply Qdiv_nonneg; assumption).
  assert (0 <= std_max 0 gap / tsv * v)
    by (apply Qmult_le_0_compat; [apply Qdiv_nonneg|]; assumption).
  assert (0 <= bal * (std_max 0 gap / tp)) by (apply Qmult_le_0_compat; assumption).
  assert (0 <= (1 - bal) * (std_max 0 gap / tsv * v))
    by (apply Qmult_le_0_compat; [lra | assumption]).
  assert (0 <= rate * (bal * (std_max 0 gap / tp) + (1 - bal) * (std_max 0 gap / tsv * v)))
    by (apply Qmult_le_0_compat; [assumption | lra]).
  lra.
Qed.

Lemma fold_sum_ge (f : Q -> Q) (l : list Q) (a0 : Q) :
  Forall (fun v => 0 <= f v) l -> a0 <= fold_left (fun acc v => acc + f v) l a0.
Proof.
  intros H. revert a0. induction H as [|v l Hv Hl IH]; intros a0; cbn [fold_left];
    [apply Qle_refl|].
  eapply Qle_trans; [|apply IH]. lra.
Qed.

Lemma total_penalty_nonneg viols :
  Forall (Forall (fun v => 0 <= v)) viols -> 0 <= total_penalty viols.
Proof.
  intros H. apply (fold_sum_ge (fun v => v)). apply Forall_concat, H.
Qed.

Lemma total_squared_violation_nonneg viols : 0 <= total_squared_violation viols.
Proof.
  apply (fold_sum_ge (fun v => v * v)). apply Forall_forall. intros v _.
  nra.
Qed.

Lemma nth_nonneg (l : list Q) j :
  Forall (fun v => 0 <= v) l -> 0 <= nth j l 0.
Proof.
  intros H. destruct (nth_in_or_default j l 0) as [Hin | ->]; [|apply Qle_refl].
  rewrite Forall_forall in H. apply H, list_elem_of_In, Hin.
Qed.

Lemma nth_Forall_nonneg (ls : list (list Q)) i :
  Forall (Forall (fun v => 0 <= v)) ls -> Forall (fun v => 0 <= v) (nth i ls []).
Proof.
  intros H. destruct (nth_in_or_default i ls []) as [Hin | ->]; [|constructor].
  rewrite Forall_forall in H. apply H, list_elem_of_In, Hin.
Qed.

(** One element of a tightened proxy: the raised value, levelled up when
    grouping, capped by the initial coefficient. *)
Lemma tighten_proxy_lookup init rate bal grp gap tp tsv coeffs viols j e :
  0 <= rate -> 0 <= bal <= 1 -> 0 <= tp -> 0 <= tsv -> Forall (fun v => 0 <= v) viols ->
  coeffs !! j = Some e ->
  exists e', tighten_proxy init rate bal grp gap tp tsv coeffs viols !! j = Some e' /\
        std_min e init <= e' <= init.
Proof.
  intros Hr Hb Htp Htsv Hv Hj. unfold tighten_proxy.
  set (raised := imap _ coeffs).
  assert (raised !! j = Some (raise_element rate bal gap tp tsv e (nth j viols 0))) as Hrj
    by (unfold raised; rewrite list_lookup_imap, Hj; reflexivity).
  pose proof (raise_element_ge rate bal gap tp tsv e (nth j viols 0) Hr Hb Htp Htsv
                (nth_nonneg viols j Hv)) as Hge.
  assert (exists g, (if grp then (fun _ => proxy_max raised) <$> raised else raised) !! j = Some g
            /\ e <= g) as (g & Hg & Heg).
  { destruct grp.
    - exists (proxy_max raised). rewrite list_lookup_fmap, Hrj. split; [reflexivity|].
      eapply Qle_trans; [exact Hge|]. pose proof (proxy_max_ge raised) as Hmax.
      rewrite Forall_lookup in Hmax. exact (Hmax _ _ Hrj).
    - eexists. split; [exact Hrj | exact Hge]. }
  exists (std_min g init). rewrite list_lookup_fmap, Hg. split; [reflexivity|].
  split; [|apply std_min_le_r].
  apply std_min_glb; [eapply Qle_trans; [|exact Heg]; unfold std_min|apply std_min_le_r].
  case_Qltb init e; [apply Qlt_le_weak, E | apply Qle_refl].
Qed.

(** Tightening, element by element: the bounds of each coefficient. *)
Lemma tighten_lookup2 init rate bal grp gap coeffs viols i j e :
  0 <= rate -> 0 <= bal <= 1 -> Forall (Forall (fun v => 0 <= v)) viols ->
  lookup2 coeffs i j = Some e ->
  exists e', lookup2 (tighten init rate bal grp gap coeffs viols) i j = Some e' /\
        std_min e init <= e' <= init.
Proof.
  intros Hr Hb Hv Hij. unfold lookup2, tighten in *.
  rewrite list_lookup_imap.
  destruct (coeffs !! i) as [row|]; cbn in Hij |- *; [|discriminate].
  apply tighten_proxy_lookup; try assumption.
  - apply total_penalty_nonneg, Hv.
  - apply total_squared_violation_nonneg.
  - apply nth_Forall_nonneg, Hv.
Qed.

(** C10. Tightening (the branch taken when the gap between the incumbents
    exceeds [EPSILON] and the local incumbent is infeasible) never lowers a
    coefficient below [min(old, initial)] and never raises one above the
    initial coefficient, whatever the gap and with or without grouping. *)
Theorem tighten_bounds init rate bal grp gap coeffs viols i j e :
  0 <= rate -> 0 <= bal <= 1 -> Forall (Forall (fun v => 0 <= v)) viols ->
  lookup2 coeffs i j = Some e ->
  exists e', lookup2 (tighten init rate bal grp gap coeffs viols) i j = Some e' /\
        std_min e init <= e' <= init.
Proof. intros Hr Hb Hv Hij. exact (tighten_lookup2 init rate bal grp gap coeffs viols i j e Hr Hb Hv Hij). Qed.

(** Relaxing, element by element. *)
Lemma relax_lookup2 rate coeffs viols i j :
  lookup2 (relax rate coeffs viols) i j =
  (fun e => if Qltb (nth j (nth i viols []) 0) EPSILON then e * rate else e)
    <$> lookup2 coeffs i j.
Proof.
  unfold lookup2, relax. rewrite list_lookup_imap.
  destruct (coeffs !! i) as [row|]; cbn; [|reflexivity].
  unfold relax_proxy. rewrite list_lookup_imap. destruct (row !! j); reflexivity.
Qed.

Lemma coeffs_bounded_lookup init coeffs :
  coeffs_bounded init coeffs <->
  forall i j e, lookup2 coeffs i j = Some e -> 0 <= e <= init.
Proof.
  unfold coeffs_bounded, lookup2. rewrite Forall_lookup. split.
  - intros H i j e Hij. destruct (coeffs !! i) as [row|] eqn:Hi; [|discriminate].
    cbn in Hij. specialize (H i row Hi). rewrite Forall_lookup in H. exact (H j e Hij).
  - intros H i row Hi. rewrite Forall_lookup. intros j e Hj.
    apply (H i j). rewrite Hi. exact Hj.
Qed.

Lemma tighten_lookup_none init rate bal grp gap coeffs viols i j :
  lookup2 coeffs i j = None -> lookup2 (tighten init rate bal grp gap coeffs viols) i j = None.
Proof.
  unfold lookup2, tighten. rewrite list_lookup_imap.
  destruct (coeffs !! i) as [row|]; cbn; [|reflexivity]. intros Hj.
  unfold tighten_proxy. rewrite list_lookup_fmap.
  destruct grp; rewrite ?list_lookup_fmap, list_lookup_imap, Hj; reflexivity.
Qed.

Lemma tighten_bounded init rate bal grp gap coeffs viols :
  0 <= init -> 0 <= rate -> 0 <= bal <= 1 -> Forall (Forall (fun v => 0 <= v)) viols ->
  coeffs_bounded init coeffs ->
  coeffs_bounded init (tighten init rate bal grp gap coeffs viols).
Proof.
  intros Hi Hr Hb Hv. rewrite !coeffs_bounded_lookup. intros H i j e' He'.
  destruct (lookup2 coeffs i j) as [e|] eqn:Hij.
  - destruct (tighten_lookup2 init rate bal grp gap coeffs viols i j e Hr Hb Hv Hij)
      as (e'' & He'' & Hlo & Hhi).
    rewrite He' in He''. injection He'' as <-. split; [|exact Hhi].
    eapply Qle_trans; [|exact Hlo]. apply std_min_glb; [apply (H i j e Hij) | exact Hi].
  - rewrite tighten_lookup_none in He' by exact Hij. discriminate.
Qed.

Lemma relax_bounded init rate coeffs viols :
  0 <= rate <= 1 -> coeffs_bounded init coeffs -> coeffs_bounded init (relax rate coeffs viols).
Proof.
  intros [Hr0 Hr1]. rewrite !coeffs_bounded_lookup. intros H i j e' He'.
  rewrite relax_lookup2 in He'. destruct (lookup2 coeffs i j) as [e|] eqn:Hij; [|discriminate].
  injection He' as <-. destruct (H i j e Hij) as [He0 He1].
  destruct (Qltb _ EPSILON); [|split; assumption].
  split; [apply Qmult_le_0_compat; assumption|].
  nra.
Qed.

(** ** Witnesses *)

(** Two constraints of one proxy, the first violated by 2; initial
    coefficient 10, rate 1, balance 1/2, grouping on, gap 5. *)
Lemma tighten_bounds_witness :
  exists e', lookup2 (tighten 10 1 (1 # 2) true 5 [[10; 3]] [[2; 0]]) 0 1 = Some e' /\
        std_min 3 10 <= e' <= 10.
Proof.
  apply tighten_bounds; [lra | split; lra | repeat constructor; lra | reflexivity].
Defined.
