(* ===== verification/SolverTypes.v ===== *)
(** The records the outer loop of [solve] reads and writes whose
    definitions are not under [src/]: the options (option.h), the exported
    solution (model/solution.h), the switches of the neighbourhood
    (model/neighborhood.h) and the results of the three drivers
    (tabu_search, local_search, lagrange_dual).  Only the members [solve]
    uses are kept; their meaning follows the spec, sections 4.4-4.7 and 6. *)

From S2P Require Import Prelude Score Incumbent Memory.

Local Open Scope Q_scope.

(** [model::Solution]: the variable values (compared for [is_changed]),
    the violation of every constraint, and feasibility. *)
Record Solution : Type := mkSolution {
  variable_value_proxies : list (list Z);
  violation_value_proxies : list (list Q);
  solution_is_feasible : bool
}.

Inductive RestartMode : Type := RestartGlobal | RestartLocal.

Inductive SelectionMode : Type :=
  | SelectionNone | SelectionDefined | SelectionIndependent | SelectionLarger.

#[export] Instance SelectionMode_eq_dec : EqDecision SelectionMode.
Proof. solve_decision. Defined.

(** [Option::tabu_search] *)
Record TabuSearchOption : Type := mkTabuSearchOption {
  ts_iteration_max : Z;
  ts_time_offset : Q;
  ts_seed : Z;
  ts_initial_tabu_tenure : Z;
  ts_number_of_initial_modification : Z;
  ts_is_enabled_automatic_tabu_tenure_adjustment : bool;
  ts_is_enabled_automatic_iteration_adjustment : bool;
  ts_iteration_increase_rate : Q;
  ts_initial_modification_fixed_rate : Q;
  ts_initial_modification_randomize_rate : Q;
  ts_is_enabled_initial_modification : bool;
  ts_restart_mode : RestartMode
}.

(** [Option] *)
Record Option : Type := mkOption {
  iteration_max : Z;
  time_max : Q;
  target_objective_value : Q;
  initial_penalty_coefficient : Q;
  penalty_coefficient_tightening_rate : Q;
  penalty_coefficient_relaxing_rate : Q;
  penalty_coefficient_updating_balance : Q;
  penalty_coefficient_reset_count_threshold : Z;
  is_enabled_grouping_penalty_coefficient : bool;
  is_enabled_lagrange_dual : bool;
  is_enabled_local_search : bool;
  is_enabled_binary_move : bool;
  is_enabled_integer_move : bool;
  is_enabled_user_defined_move : bool;
  is_enabled_aggregation_move : bool;
  is_enabled_precedence_move : bool;
  is_enabled_variable_bound_move : bool;
  is_enabled_exclusive_move : bool;
  is_enabled_chain_move : bool;
  selection_mode : SelectionMode;
  seed : Z;
  tabu_search : TabuSearchOption
}.

(** The switches of [model->neighborhood()] and the sizes of its special
    move families. *)
Record Neighborhood : Type := mkNeighborhood {
  binary_move_enabled : bool;
  integer_move_enabled : bool;
  user_defined_move_enabled : bool;
  selection_move_enabled : bool;
  aggregation_move_enabled : bool;
  precedence_move_enabled : bool;
  variable_bound_move_enabled : bool;
  exclusive_move_enabled : bool;
  chain_move_enabled : bool;
  number_of_special_moves : nat
}.

(** [tabu_search::Result]: the driver's own incumbent holder, the union of
    the statuses it saw, whether it stopped early, the iteration of the
    last local incumbent update, its iteration count and its memory. *)
Record TabuSearchResult : Type := mkTabuSearchResult {
  tsr_incumbent_holder : IncumbentHolder Solution;
  tsr_total_update_status : Z;
  tsr_is_early_stopped : bool;
  tsr_last_local_augmented_incumbent_update_iteration : Z;
  tsr_number_of_iterations : Z;
  tsr_memory : Memory
}.

(** [local_search::Result] and [lagrange_dual::Result] *)
Record LocalSearchResult : Type := mkLocalSearchResult {
  lsr_incumbent_holder : IncumbentHolder Solution;
  lsr_number_of_iterations : Z;
  lsr_memory : Memory
}.

Record LagrangeDualResult : Type := mkLagrangeDualResult {
  ldr_incumbent_holder : IncumbentHolder Solution;
  ldr_number_of_iterations : Z
}.
