(* ===== verification/Solver.v ===== *)
(** The outer loop of [solve] (src/cppmh/solver/solver.h).  Every block of
    the function is a definition here, named after what it computes, and
    [outer_step] composes them in the order of the loop body; the three
    drivers, the clock and the random generator are Section variables, so
    the theorems hold for every driver.  The model itself is represented
    only by the values [solve] reads from it (its sign, whether it has an
    objective, its number of free variables, the solution and score of
    the initial assignment). *)

From Stdlib Require Import String.
From S2P Require Import Prelude Score Incumbent Memory Penalty SolverTypes.

Import IncumbentHolderConstant.

Local Open Scope Z_scope.

(** ** Before the loop *)

(** [OptionConstant::DEFAULT_TARGET_OBJECTIVE] (option.h is not under
    [src/]; the comment of lines 64-71 gives its value). *)
Definition DEFAULT_TARGET_OBJECTIVE : Q := inject_Z (- 10 ^ 100).

(** Lines 72-85: a target given by the user is turned into a target of the
    minimisation problem; the default target of a model without objective
    becomes 0, so that the first feasible solution stops the search. *)
Definition normalize_target (target sign : Q) (is_defined_objective : bool) : Q :=
  let rate := (target / DEFAULT_TARGET_OBJECTIVE - 1)%Q in
  let target1 := if Qltb EPSILON (Qabs rate) then (target * sign)%Q else target in
  if Qltb (Qabs rate) EPSILON
  then (if is_defined_objective then target1 else 0%Q)
  else target1.

(** Lines 134-148: the default neighbourhood moves. *)
Definition enable_default_moves (opt : Option) (nb : Neighborhood) : Neighborhood :=
  {| binary_move_enabled := binary_move_enabled nb || is_enabled_binary_move opt;
     integer_move_enabled := integer_move_enabled nb || is_enabled_integer_move opt;
     user_defined_move_enabled :=
       user_defined_move_enabled nb || is_enabled_user_defined_move opt;
     selection_move_enabled :=
       selection_move_enabled nb || bool_decide (selection_mode opt <> SelectionNone);
     aggregation_move_enabled := aggregation_move_enabled nb;
     precedence_move_enabled := precedence_move_enabled nb;
     variable_bound_move_enabled := variable_bound_move_enabled nb;
     exclusive_move_enabled := exclusive_move_enabled nb;
     chain_move_enabled := chain_move_enabled nb;
     number_of_special_moves := number_of_special_moves nb |}.

(** Lines 158-166 *)
Definition has_special_neighborhood_moves (opt : Option) (nb : Neighborhood) : bool :=
  bool_decide (0 < number_of_special_moves nb)%nat || is_enabled_chain_move opt.

(** ** The blocks of the loop body *)

(** Lines 477-502: time, iteration and target tests, in this order. *)
Definition should_stop (opt : Option) (elapsed_time : Q) (iteration : Z)
    (feasible_incumbent_objective : extQ) : bool :=
  Qltb (time_max opt) elapsed_time ||
  (iteration_max opt <=? iteration) ||
  ext_leb_fin feasible_incumbent_objective (target_objective_value opt).

(** Lines 504-517: the option given to the tabu search of this loop. *)
Definition prepare_tabu_search_option (master : Option) (elapsed_time : Q)
    (iteration next_iteration_max next_number_of_initial_modification
     next_initial_tabu_tenure : Z) : Option :=
  let ts := tabu_search master in
  {| iteration_max := iteration_max master;
     time_max := time_max master;
     target_objective_value := target_objective_value master;
     initial_penalty_coefficient := initial_penalty_coefficient master;
     penalty_coefficient_tightening_rate := penalty_coefficient_tightening_rate master;
     penalty_coefficient_relaxing_rate := penalty_coefficient_relaxing_rate master;
     penalty_coefficient_updating_balance := penalty_coefficient_updating_balance master;
     penalty_coefficient_reset_count_threshold :=
       penalty_coefficient_reset_count_threshold master;
     is_enabled_grouping_penalty_coefficient :=
       is_enabled_grouping_penalty_coefficient master;
     is_enabled_lagrange_dual := is_enabled_lagrange_dual master;
     is_enabled_local_search := is_enabled_local_search master;
     is_enabled_binary_move := is_enabled_binary_move master;
     is_enabled_integer_move := is_enabled_integer_move master;
     is_enabled_user_defined_move := is_enabled_user_defined_move master;
     is_enabled_aggregation_move := is_enabled_aggregation_move master;
     is_enabled_precedence_move := is_enabled_precedence_move master;
     is_enabled_variable_bound_move := is_enabled_variable_bound_move master;
     is_enabled_exclusive_move := is_enabled_exclusive_move master;
     is_enabled_chain_move := is_enabled_chain_move master;
     selection_mode := selection_mode master;
     seed := seed master;
     tabu_search :=
       {| ts_iteration_max :=
            if ts_is_enabled_automatic_iteration_adjustment ts
            then next_iteration_max else ts_iteration_max ts;
          ts_time_offset := elapsed_time;
          ts_seed := ts_seed ts + iteration;
          ts_initial_tabu_tenure := next_initial_tabu_tenure;
          ts_number_of_initial_modification := next_number_of_initial_modification;
          ts_is_enabled_automatic_tabu_tenure_adjustment :=
            ts_is_enabled_automatic_tabu_tenure_adjustment ts;
          ts_is_enabled_automatic_iteration_adjustment :=
            ts_is_enabled_automatic_iteration_adjustment ts;
          ts_iteration_increase_rate := ts_iteration_increase_rate ts;
          ts_initial_modification_fixed_rate := ts_initial_modification_fixed_rate ts;
          ts_initial_modification_randomize_rate :=
            ts_initial_modification_randomize_rate ts;
          ts_is_enabled_initial_modification := ts_is_enabled_initial_modification ts;
          ts_restart_mode := ts_restart_mode ts |} |}.

(** Lines 537-565: the next starting solution and whether it differs from
    the current one. *)
Definition restart_solution (mode : RestartMode) (result : TabuSearchResult)
    (current : Solution) : bool * Solution :=
  let h := tsr_incumbent_holder result in
  let next :=
    match mode with
    | RestartGlobal => m_global_augmented_incumbent_solution h
    | RestartLocal => m_local_augmented_incumbent_solution h
    end in
  (bool_decide (variable_value_proxies next <> variable_value_proxies current), next).

(** Lines 583-596: the stagnation counter and the reset flag.  The test of
    line 583 is written with the logical [&&] of the code, not with [&]. *)
Definition update_stagnation (update_status not_update_count threshold : Z) : Z * bool :=
  if negb (update_status =? 0) && negb (STATUS_GLOBAL_AUGMENTED_INCUMBENT_UPDATE =? 0)
  then (0, false)
  else
    let c := not_update_count + 1 in
    if c =? threshold then (0, true) else (c, false).

(** [a & b] tested for non-zero. *)
Definition has_bit (status bit : Z) : bool := negb (Z.land status bit =? 0).

(** Lines 613-709: the local penalty coefficients for the next loop.  The
    gap is a double; the tightening branch with an infinite gap (global
    incumbent still [HUGE_VALF]) is outside the model and yields [None];
    it cannot be reached from [solve] (see [outer_step_some]). *)
Definition update_local_penalty (master : Option) (reset_flag : bool) (gap : dbl)
    (local_solution : Solution) (local global : list (list Q)) : option (list (list Q)) :=
  let viols := violation_value_proxies local_solution in
  if reset_flag then Some global
  else if dgtb gap (DFin EPSILON) && negb (solution_is_feasible local_solution) then
    match gap with
    | DFin g =>
        Some (tighten (initial_penalty_coefficient master)
                (penalty_coefficient_tightening_rate master)
                (penalty_coefficient_updating_balance master)
                (is_enabled_grouping_penalty_coefficient master) g local viols)
    | _ => None
    end
  else Some (relax (penalty_coefficient_relaxing_rate master) local viols).

(** Lines 711-736: the initial tabu tenure of the next loop.  [tenure] is
    the tenure of the loop just run; the bias comparisons are made on
    doubles and are both false when one side is NaN. *)
Definition update_tabu_tenure (master : Option) (number_of_not_fixed_variables : Z)
    (total_update_status tenure : Z) (bias previous_bias : dbl) : Z :=
  let ts := tabu_search master in
  if ts_is_enabled_automatic_tabu_tenure_adjustment ts then
    if has_bit total_update_status STATUS_GLOBAL_AUGMENTED_INCUMBENT_UPDATE
    then Z.min (ts_initial_tabu_tenure ts) number_of_not_fixed_variables
    else if dgtb bias previous_bias
    then Z.min (tenure + 1) number_of_not_fixed_variables
    else if dgtb previous_bias bias
    then Z.max (tenure - 1) 1
    else tenure
  else ts_initial_tabu_tenure ts.

(** Lines 738-773: the number of random initial modifications of the next
    loop.  [u] is the draw of [get_rand_mt()], used only when the random
    width is positive; the [int += unsigned long] of lines 764-767 is made
    modulo [2^64] and narrowed back to [int].  Returns the new number and
    whether a draw was consumed. *)
Definition update_initial_modification (master : Option) (total_update_status : Z)
    (is_changed : bool) (next_tenure previous : Z) (u : Z) : Z * bool :=
  let ts := tabu_search master in
  if has_bit total_update_status STATUS_FEASIBLE_INCUMBENT_UPDATE then (0, false)
  else if has_bit total_update_status STATUS_GLOBAL_AUGMENTED_INCUMBENT_UPDATE then (0, false)
  else if ts_is_enabled_initial_modification ts && negb is_changed then
    let nominal := Qfloor_int (ts_initial_modification_fixed_rate ts * inject_Z next_tenure) in
    let width := Qtrunc (ts_initial_modification_randomize_rate ts * inject_Z nominal) in
    if 0 <? width then
      let n := to_int32 (to_ulong (nominal +
                 to_ulong (u mod to_ulong (2 * width) - to_ulong width))) in
      (Z.max 1 n, true)
    else (Z.max 1 nominal, false)
  else (previous, false).

(** Lines 775-800: the iteration cap of the next loop.  [loop_iteration_max]
    is the cap of the loop just run. *)
Definition update_iteration_max (master : Option) (result : TabuSearchResult)
    (loop_iteration_max previous : Z) : Z :=
  let ts := tabu_search master in
  if ts_is_enabled_automatic_iteration_adjustment ts && negb (tsr_is_early_stopped result) then
    let temp :=
      if has_bit (tsr_total_update_status result) STATUS_GLOBAL_AUGMENTED_INCUMBENT_UPDATE
      then Qceil_int (inject_Z (tsr_last_local_augmented_incumbent_update_iteration result) *
                      ts_iteration_increase_rate ts)
      else Qceil_int (inject_Z loop_iteration_max * ts_iteration_increase_rate ts) in
    Z.max (ts_initial_tabu_tenure ts) (Z.min (ts_iteration_max ts) temp)
  else previous.

(** Lines 802-900: the five special move families are switched off after an
    improvement of the global incumbent and switched on after a full loop
    without one; a family disabled in the options is never touched. *)
Definition switch_special_moves (master : Option) (result : TabuSearchResult)
    (loop_iteration_max : Z) (nb : Neighborhood) : Neighborhood :=
  if has_bit (tsr_total_update_status result) STATUS_GLOBAL_AUGMENTED_INCUMBENT_UPDATE then
    {| binary_move_enabled := binary_move_enabled nb;
       integer_move_enabled := integer_move_enabled nb;
       user_defined_move_enabled := user_defined_move_enabled nb;
       selection_move_enabled := selection_move_enabled nb;
       aggregation_move_enabled :=
         aggregation_move_enabled nb && negb (is_enabled_aggregation_move master);
       precedence_move_enabled :=
         precedence_move_enabled nb && negb (is_enabled_precedence_move master);
       variable_bound_move_enabled :=
         variable_bound_move_enabled nb && negb (is_enabled_variable_bound_move master);
       exclusive_move_enabled :=
         exclusive_move_enabled nb && negb (is_enabled_exclusive_move master);
       chain_move_enabled := chain_move_enabled nb && negb (is_enabled_chain_move master);
       number_of_special_moves := number_of_special_moves nb |}
  else if negb (tsr_is_early_stopped result) &&
          (loop_iteration_max =? ts_iteration_max (tabu_search master)) then
    {| binary_move_enabled := binary_move_enabled nb;
       integer_move_enabled := integer_move_enabled nb;
       user_defined_move_enabled := user_defined_move_enabled nb;
       selection_move_enabled := selection_move_enabled nb;
       aggregation_move_enabled :=
         aggregation_move_enabled nb || is_enabled_aggregation_move master;
       precedence_move_enabled :=
         precedence_move_enabled nb || is_enabled_precedence_move master;
       variable_bound_move_enabled :=
         variable_bound_move_enabled nb || is_enabled_variable_bound_move master;
       exclusive_move_enabled :=
         exclusive_move_enabled nb || is_enabled_exclusive_move master;
       chain_move_enabled := chain_move_enabled nb || is_enabled_chain_move master;
       number_of_special_moves := number_of_special_moves nb |}
  else nb.

(** The global augmented incumbent of a driver's holder, then its feasible
    incumbent if it found one, offered to [solve]'s holder (lines 292-304,
    403-415 and 579-606). *)
Definition absorb_driver_incumbents (rh h : IncumbentHolder Solution) : IncumbentHolder Solution :=
  let h1 := snd (try_update_incumbent (m_global_augmented_incumbent_solution rh)
                   (m_global_augmented_incumbent_score rh) h) in
  if m_found_feasible_solution rh
  then snd (try_update_incumbent (m_feasible_incumbent_solution rh)
              (m_feasible_incumbent_score rh) h1)
  else h1.

(** ** The loop *)

(** The local variables of [solve] that live across loops. *)
Record SolverState : Type := mkSolverState {
  st_iteration : Z;
  st_not_update_count : Z;
  st_next_number_of_initial_modification : Z;
  st_next_initial_tabu_tenure : Z;
  st_bias : dbl;
  st_next_iteration_max : Z;
  st_current_solution : Solution;
  st_incumbent_holder : IncumbentHolder Solution;
  st_memory : Memory;
  st_local_penalty : list (list Q);
  st_global_penalty : list (list Q);
  st_neighborhood : Neighborhood;
  st_rand_draws : nat;
  st_number_of_tabu_search_iterations : Z;
  st_number_of_tabu_search_loops : Z
}.

Section Loop.

(** [master_option] after [normalize_target], and
    [model->number_of_not_fixed_variables()]. *)
Context (master : Option) (number_of_not_fixed_variables : Z).

(** The elapsed time read at the start of loop [iteration]. *)
Context (clock : Z -> Q).

(** The [n]-th draw of [get_rand_mt]. *)
Context (mt : nat -> Z).

(** [tabu_search::solve(model, option, local, global, initial values,
    incumbent_holder, memory)] *)
Context (tabu_search_solve : Option -> list (list Q) -> list (list Q) -> list (list Z) ->
                             IncumbentHolder Solution -> Memory -> TabuSearchResult).

(** Lines 504-709 of one loop, in order: run the tabu search, choose the
    next starting solution, offer the driver's incumbents to the holder,
    count stagnation, take the driver's memory, update the local penalty
    coefficients; then lines 711-906 and 1016: tenure, initial modifications,
    iteration cap, special moves, counters, and [iteration++]. *)
Definition outer_step (st : SolverState) : option SolverState :=
  let option := prepare_tabu_search_option master (clock (st_iteration st)) (st_iteration st)
                  (st_next_iteration_max st) (st_next_number_of_initial_modification st)
                  (st_next_initial_tabu_tenure st) in
  let result := tabu_search_solve option (st_local_penalty st) (st_global_penalty st)
                  (variable_value_proxies (st_current_solution st))
                  (st_incumbent_holder st) (st_memory st) in
  let rh := tsr_incumbent_holder result in
  let '(is_changed, current) :=
    restart_solution (ts_restart_mode (tabu_search master)) result (st_current_solution st) in
  let status1 :=
    fst (try_update_incumbent (m_global_augmented_incumbent_solution rh)
           (m_global_augmented_incumbent_score rh) (st_incumbent_holder st)) in
  let '(not_update_count, reset_flag) :=
    update_stagnation status1 (st_not_update_count st)
      (penalty_coefficient_reset_count_threshold master) in
  let holder2 := absorb_driver_incumbents rh (st_incumbent_holder st) in
  let memory := tsr_memory result in
  let gap := dsub (ext_to_dbl (m_global_augmented_incumbent_objective holder2))
                  (ext_to_dbl (m_local_augmented_incumbent_objective rh)) in
  match update_local_penalty master reset_flag gap (m_local_augmented_incumbent_solution rh)
          (st_local_penalty st) (st_global_penalty st) with
  | None => None
  | Some local =>
      let new_bias := bias memory in
      let tenure :=
        update_tabu_tenure master number_of_not_fixed_variables
          (tsr_total_update_status result) (ts_initial_tabu_tenure (tabu_search option))
          new_bias (st_bias st) in
      let '(number_of_initial_modification, drawn) :=
        update_initial_modification master (tsr_total_update_status result) is_changed
          tenure (st_next_number_of_initial_modification st) (mt (st_rand_draws st)) in
      Some {| st_iteration := st_iteration st + 1;
              st_not_update_count := not_update_count;
              st_next_number_of_initial_modification := number_of_initial_modification;
              st_next_initial_tabu_tenure := tenure;
              st_bias := new_bias;
              st_next_iteration_max :=
                update_iteration_max master result (ts_iteration_max (tabu_search option))
                  (st_next_iteration_max st);
              st_current_solution := current;
              st_incumbent_holder := holder2;
              st_memory := memory;
              st_local_penalty := local;
              st_global_penalty := st_global_penalty st;
              st_neighborhood :=
                switch_special_moves master result (ts_iteration_max (tabu_search option))
                  (st_neighborhood st);
              st_rand_draws := if drawn then S (st_rand_draws st) else st_rand_draws st;
              st_number_of_tabu_search_iterations :=
                st_number_of_tabu_search_iterations st + tsr_number_of_iterations result;
              st_number_of_tabu_search_loops := st_number_of_tabu_search_loops st + 1 |}
  end.

Definition loop_should_stop (st : SolverState) : bool :=
  should_stop master (clock (st_iteration st)) (st_iteration st)
    (m_feasible_incumbent_objective (st_incumbent_holder st)).

(** The [while (true)] loop of lines 473-1017, with fuel: [None] when the
    fuel runs out (or the unmodelled case of [update_local_penalty] is
    met). *)
Fixpoint outer_loop (fuel : nat) (st : SolverState) : option SolverState :=
  match fuel with
  | O => None
  | S fuel' =>
      if loop_should_stop st then Some st
      else match outer_step st with
           | Some st' => outer_loop fuel' st'
           | None => None
           end
  end.

(** One transition of the loop, as a relation. *)
Inductive loop_step : SolverState -> SolverState -> Prop :=
  | loop_step_intro st st' :
      loop_should_stop st = false -> outer_step st = Some st' -> loop_step st st'.

End Loop.

(** ** Before the loop: setup, Lagrange dual and local search *)

(** A default-constructed [model::Solution]. *)
Definition default_solution : Solution := mkSolution [] [] false.

(** What the phases before the loop leave for it. *)
Record PreLoop : Type := mkPreLoop {
  pl_current_solution : Solution;
  pl_incumbent_holder : IncumbentHolder Solution;
  pl_memory : Memory;
  pl_number_of_lagrange_dual_iterations : Z;
  pl_number_of_local_search_iterations : Z
}.

Section Setup.

Context (master : Option).

(** What [solve] reads from the model: linearity, the number of selection
    variables, the sizes of the constraint proxies and the names and sizes
    of the variable proxies. *)
Context (is_linear : bool) (number_of_selection_variables : Z)
        (constraint_shape : list nat) (variable_proxies : list (string * nat)).

(** The exported initial solution and its score (lines 207-213). *)
Context (initial_solution : Solution) (initial_score : SolutionScore).

Context (clock_before_loop : Q).

Context (lagrange_dual_solve : Option -> list (list Q) -> list (list Q) -> list (list Z) ->
                               IncumbentHolder Solution -> LagrangeDualResult).
Context (local_search_solve : Option -> list (list Q) -> list (list Q) -> list (list Z) ->
                              IncumbentHolder Solution -> Memory -> LocalSearchResult).

(** Lines 182-187 *)
Definition initial_penalty : list (list Q) :=
  generate_constraint_parameter_proxies constraint_shape (initial_penalty_coefficient master).

(** Lines 192 and 205-216 *)
Definition initial_pre_loop : PreLoop :=
  {| pl_current_solution := initial_solution;
     pl_incumbent_holder :=
       snd (try_update_incumbent initial_solution initial_score (new_holder default_solution));
     pl_memory := setup variable_proxies;
     pl_number_of_lagrange_dual_iterations := 0;
     pl_number_of_local_search_iterations := 0 |}.

(** Lines 226-342.  The time test of lines 238-248 only prints a message:
    the driver runs whatever the elapsed time. *)
Definition lagrange_dual_phase (p : PreLoop) : PreLoop :=
  if is_enabled_lagrange_dual master && is_linear && (number_of_selection_variables <=? 0)
  then
    let result := lagrange_dual_solve master initial_penalty initial_penalty
                    (variable_value_proxies (pl_current_solution p)) (pl_incumbent_holder p) in
    let rh := ldr_incumbent_holder result in
    {| pl_current_solution := m_global_augmented_incumbent_solution rh;
       pl_incumbent_holder := absorb_driver_incumbents rh (pl_incumbent_holder p);
       pl_memory := pl_memory p;
       pl_number_of_lagrange_dual_iterations := ldr_number_of_iterations result;
       pl_number_of_local_search_iterations := pl_number_of_local_search_iterations p |}
  else p.

(** Lines 347-455; the time test of lines 348-358 only prints as well. *)
Definition local_search_phase (p : PreLoop) : PreLoop :=
  if is_enabled_local_search master then
    let result := local_search_solve master initial_penalty initial_penalty
                    (variable_value_proxies (pl_current_solution p)) (pl_incumbent_holder p)
                    (pl_memory p) in
    let rh := lsr_incumbent_holder result in
    {| pl_current_solution := m_global_augmented_incumbent_solution rh;
       pl_incumbent_holder := absorb_driver_incumbents rh (pl_incumbent_holder p);
       pl_memory := lsr_memory result;
       pl_number_of_lagrange_dual_iterations := pl_number_of_lagrange_dual_iterations p;
       pl_number_of_local_search_iterations := lsr_number_of_iterations result |}
  else p.

(** Lines 460-471: the state the first loop starts from. *)
Definition initial_state (nb : Neighborhood) : SolverState :=
  let p := local_search_phase (lagrange_dual_phase initial_pre_loop) in
  {| st_iteration := 0;
     st_not_update_count := 0;
     st_next_number_of_initial_modification := 0;
     st_next_initial_tabu_tenure := ts_initial_tabu_tenure (tabu_search master);
     st_bias := bias (pl_memory p);
     st_next_iteration_max := ts_iteration_max (tabu_search master);
     st_current_solution := pl_current_solution p;
     st_incumbent_holder := pl_incumbent_holder p;
     st_memory := pl_memory p;
     st_local_penalty := initial_penalty;
     st_global_penalty := initial_penalty;
     st_neighborhood := enable_default_moves master nb;
     st_rand_draws := 0;
     st_number_of_tabu_search_iterations := 0;
     st_number_of_tabu_search_loops := 0 |}.

End Setup.

(** Lines 1028-1031: the solution [solve] exports. *)
Definition final_incumbent (h : IncumbentHolder Solution) : Solution :=
  if found_feasible_solution h then feasible_incumbent_solution h
  else global_augmented_incumbent_solution h.

(** ** Properties of the blocks *)

(** C13. The stagnation counter of lines 583-596 is reset by any update of
    an incumbent, not only by an update of the global augmented one: with
    the logical [&&] of line 583, a loop that only replaced the local
    augmented incumbent (status 1) or only the feasible one counts as an
    improvement, so the penalty reset of line 620 is postponed. *)
Theorem update_stagnation_resets_without_global_update status c th :
  status <> 0 -> has_bit status STATUS_GLOBAL_AUGMENTED_INCUMBENT_UPDATE = false ->
  update_stagnation status c th = (0, false).
Proof.
  intros Hs _. unfold update_stagnation.
  rewrite (proj2 (Z.eqb_neq status 0) Hs). reflexivity.
Qed.

Lemma update_stagnation_bounds status c th :
  1 <= th -> 0 <= c < th ->
  0 <= fst (update_stagnation status c th) < th.
Proof.
  intros Hth Hc. unfold update_stagnation.
  destruct (_ && _); cbn; [lia|]. destruct (Z.eqb_spec (c + 1) th); cbn; lia.
Qed.

(** The tenure stays between 1 and [max(initial tenure, free variables)]. *)
Definition tenure_ok (master : Option) (n t : Z) : Prop :=
  1 <= t <= Z.max (ts_initial_tabu_tenure (tabu_search master)) n.

(** [update_tabu_tenure] preserves [tenure_ok]. *)
Lemma update_tabu_tenure_ok master n status t b b' :
  1 <= ts_initial_tabu_tenure (tabu_search master) -> 1 <= n ->
  tenure_ok master n t -> tenure_ok master n (update_tabu_tenure master n status t b b').
Proof.
  unfold tenure_ok, update_tabu_tenure. intros Hi Hn Ht.
  repeat case_match; lia.
Qed.

(** C15. [update_tabu_tenure] keeps the tenure in
    [[1, max(initial tenure, number of free variables)]]: it is reset to
    [min(initial, n)] after a global improvement, raised by one (capped at
    [n]) when the bias grew, lowered by one (floored at 1) when it shrank. *)
Theorem update_tabu_tenure_bounds master n status t b b' :
  1 <= ts_initial_tabu_tenure (tabu_search master) -> 1 <= n ->
  tenure_ok master n t -> tenure_ok master n (update_tabu_tenure master n status t b b').
Proof. apply update_tabu_tenure_ok. Qed.

Lemma update_initial_modification_nonneg master status is_changed t prev u :
  0 <= prev -> 0 <= fst (update_initial_modification master status is_changed t prev u).
Proof. intros H. unfold update_initial_modification. repeat case_match; cbn; lia. Qed.

(** A special move family is enabled only if the options enable it. *)
Definition special_flags_ok (master : Option) (nb : Neighborhood) : Prop :=
  (aggregation_move_enabled nb = true -> is_enabled_aggregation_move master = true) /\
  (precedence_move_enabled nb = true -> is_enabled_precedence_move master = true) /\
  (variable_bound_move_enabled nb = true -> is_enabled_variable_bound_move master = true) /\
  (exclusive_move_enabled nb = true -> is_enabled_exclusive_move master = true) /\
  (chain_move_enabled nb = true -> is_enabled_chain_move master = true).

Lemma switch_special_moves_ok master result k nb :
  special_flags_ok master nb -> special_flags_ok master (switch_special_moves master result k nb).
Proof.
  unfold special_flags_ok, switch_special_moves. intros H.
  repeat case_match; cbn; rewrite ?andb_true_iff, ?negb_true_iff, ?orb_true_iff;
    intuition congruence.
Qed.

Lemma update_local_penalty_bounded master reset gap sol local global local' :
  (0 <= initial_penalty_coefficient master)%Q ->
  (0 <= penalty_coefficient_tightening_rate master)%Q ->
  (0 <= penalty_coefficient_updating_balance master <= 1)%Q ->
  (0 <= penalty_coefficient_relaxing_rate master <= 1)%Q ->
  Forall (Forall (fun v => 0 <= v)%Q) (violation_value_proxies sol) ->
  coeffs_bounded (initial_penalty_coefficient master) local ->
  coeffs_bounded (initial_penalty_coefficient master) global ->
  update_local_penalty master reset gap sol local global = Some local' ->
  coeffs_bounded (initial_penalty_coefficient master) local'.
Proof.
  intros Hi Hr Hb Hx Hv Hl Hg. unfold update_local_penalty.
  repeat case_match; intros E; try discriminate; injection E as <-.
  - exact Hg.
  - apply tighten_bounded; assumption.
  - apply relax_bounded; assumption.
Qed.

(** C17. The number of random initial modifications after a loop with
    no improvement is [max(1, nominal + offset)] with the offset
    [u mod 2w - w] in [[-w, w)]: the [int += unsigned long] of lines 764-767
    wraps modulo [2^64] and is narrowed back, which gives the exact sum as
    long as it fits in an [int]. *)
Theorem update_initial_modification_random master status t prev u :
  let ts := tabu_search master in
  let nominal := Qfloor_int (ts_initial_modification_fixed_rate ts * inject_Z t) in
  let w := Qtrunc (ts_initial_modification_randomize_rate ts * inject_Z nominal) in
  has_bit status STATUS_FEASIBLE_INCUMBENT_UPDATE = false ->
  has_bit status STATUS_GLOBAL_AUGMENTED_INCUMBENT_UPDATE = false ->
  ts_is_enabled_initial_modification ts = true ->
  0 <= u -> 0 < w -> 2 * w <= int_max -> int_min <= nominal - w -> nominal + w <= int_max ->
  exists offset, update_initial_modification master status false t prev u =
                   (Z.max 1 (nominal + offset), true) /\
                 offset = u mod (2 * w) - w /\ - w <= offset < w.
Proof.
  cbv zeta. intros Hf Hg He Hu Hw Hw2 Hlo Hhi.
  unfold update_initial_modification. rewrite Hf, Hg, He. cbn [andb negb].
  rewrite (proj2 (Z.ltb_lt 0 _) Hw). rewrite int_max_value, int_min_value in *.
  rewrite (to_ulong_small (2 * _)), (to_ulong_small (Qtrunc _))
    by (rewrite ulong_modulus_value; lia).
  set (w := Qtrunc _) in *. set (nominal := Qfloor_int _) in *.
  pose proof (Z.mod_pos_bound u (2 * w) ltac:(lia)) as Hb.
  exists (u mod (2 * w) - w). split; [|split; [reflexivity | lia]].
  rewrite to_int32_add_ulong.
  rewrite to_int32_small; [reflexivity|].
  unfold in_int_range. rewrite int_min_value, int_max_value. lia.
Qed.

(** C18. The target test of lines 494-495 compares the internal (minimisation)
    objective with the normalised target: for a maximisation problem
    ([sign = -1]) and a target [t] set by the user, it holds exactly when
    the user's objective [-obj] has reached [t]. *)
Theorem normalize_target_maximization t obj b :
  Qltb EPSILON (Qabs (t / DEFAULT_TARGET_OBJECTIVE - 1)) = true ->
  (obj <= normalize_target t (-1) b <-> t <= - obj)%Q.
Proof.
  intros H. unfold normalize_target. cbv zeta. rewrite H.
  apply Qltb_spec in H.
  destruct (Qltb (Qabs _) EPSILON) eqn:E.
  - apply Qltb_spec in E. exfalso. apply (Qlt_irrefl EPSILON). eapply Qlt_trans; eassumption.
  - split; intros; lra.
Qed.

(** C19. The iteration cap of the next loop lies between the initial tabu
    tenure and [max(initial tenure, tabu_search.iteration_max)], whatever
    the driver reported. *)
Theorem update_iteration_max_bounds master result k prev :
  let ts := tabu_search master in
  ts_initial_tabu_tenure ts <= prev <= Z.max (ts_initial_tabu_tenure ts) (ts_iteration_max ts) ->
  ts_initial_tabu_tenure ts <= update_iteration_max master result k prev
    <= Z.max (ts_initial_tabu_tenure ts) (ts_iteration_max ts).
Proof. cbv zeta. intros H. unfold update_iteration_max. case_match; lia. Qed.

(** ** Properties *)

Section LoopProperties.

Context (master : Option) (number_of_not_fixed_variables : Z) (clock : Z -> Q)
        (mt : nat -> Z)
        (tabu_search_solve : Option -> list (list Q) -> list (list Q) -> list (list Z) ->
                             IncumbentHolder Solution -> Memory -> TabuSearchResult).

Abbreviation lstep := (outer_step master number_of_not_fixed_variables clock mt tabu_search_solve).
Abbreviation lstop := (loop_should_stop master clock).
Abbreviation lloop := (outer_loop master number_of_not_fixed_variables clock mt tabu_search_solve).

(** The holder [outer_step] leaves has a finite global augmented incumbent. *)
Lemma absorb_global_fin rh h :
  exists q, m_global_augmented_incumbent_objective (absorb_driver_incumbents rh h) = QFin q.
Proof.
  unfold absorb_driver_incumbents. destruct (m_found_feasible_solution rh);
    apply try_update_global_fin.
Qed.

(** The penalty update of the loop always has a finite or negative gap. *)
Lemma update_local_penalty_fin reset q e sol local global :
  exists local', update_local_penalty master reset (dsub (DFin q) (ext_to_dbl e)) sol local global
                 = Some local'.
Proof.
  unfold update_local_penalty. destruct reset; [eexists; reflexivity|].
  destruct e as [r|]; cbn [ext_to_dbl dsub dneg dadd dgtb andb];
    repeat case_match; eexists; reflexivity.
Qed.

(** [outer_step] always has a result. *)
Lemma outer_step_some st :
  exists st', outer_step master number_of_not_fixed_variables clock mt tabu_search_solve st
               = Some st'.
Proof.
  unfold outer_step. cbv zeta.
  destruct (restart_solution _ _ _) as [is_changed current].
  destruct (update_stagnation _ _ _) as [c reset].
  match goal with |- context [absorb_driver_incumbents ?rh ?h] =>
    destruct (absorb_global_fin rh h) as [q Hq]; rewrite Hq end.
  change (ext_to_dbl (QFin q)) with (DFin q).
  match goal with |- context [update_local_penalty master reset (dsub (DFin q) (ext_to_dbl ?e)) ?sol] =>
    destruct (update_local_penalty_fin reset q e sol (st_local_penalty st) (st_global_penalty st))
      as [local Hl]; rewrite Hl end.
  destruct (update_initial_modification _ _ _ _ _ _). eexists; reflexivity.
Qed.

(** C11. Every loop body runs to its end: the branch of the penalty update
    that the model leaves out (tightening with an infinite gap) is never
    taken, because the holder's global augmented incumbent is finite after
    the offer of lines 579-581. *)
Theorem outer_step_total st :
  exists st', outer_step master number_of_not_fixed_variables clock mt tabu_search_solve st
               = Some st'.
Proof. apply outer_step_some. Qed.

(** Inverts a successful [outer_step] into the equations of its result. *)
Ltac invert_step H :=
  revert H; unfold outer_step; cbv zeta; repeat case_match;
  let Hs := fresh "Hstep" in intros Hs; try discriminate; injection Hs as <-.

Lemma outer_step_iteration st st' :
  lstep st = Some st' -> st_iteration st' = st_iteration st + 1.
Proof. intros H. invert_step H; reflexivity. Qed.

Lemma stop_false_iteration st : lstop st = false -> st_iteration st < iteration_max master.
Proof.
  unfold loop_should_stop, should_stop. intros H.
  apply orb_false_iff in H as [H _]. apply orb_false_iff in H as [_ H].
  apply Z.leb_gt in H. exact H.
Qed.

(** From any state the loop reaches a stopping state within one more
    round than the iterations left. *)
Lemma outer_loop_stops st :
  exists st', outer_loop master number_of_not_fixed_variables clock mt tabu_search_solve
                (S (Z.to_nat (iteration_max master - st_iteration st))) st = Some st' /\
         loop_should_stop master clock st' = true.
Proof.
  remember (Z.to_nat (iteration_max master - st_iteration st)) as n eqn:Hn.
  revert st Hn. induction n as [|n IH]; intros st Hn; cbn [outer_loop];
    destruct (lstop st) eqn:Hs; try (exists st; split; [reflexivity | exact Hs]).
  - apply stop_false_iteration in Hs. lia.
  - destruct (outer_step_some st) as [st' Hst']. rewrite Hst'. apply IH.
    apply outer_step_iteration in Hst'. apply stop_false_iteration in Hs. lia.
Qed.

(** C12. The outer loop terminates: from any state, fuel one more than the
    number of iterations left before [iteration_max] brings it to a state
    where one of the three stopping tests of lines 477-502 holds. *)
Theorem outer_loop_terminates st :
  exists st', outer_loop master number_of_not_fixed_variables clock mt tabu_search_solve
                (S (Z.to_nat (iteration_max master - st_iteration st))) st = Some st' /\
         loop_should_stop master clock st' = true.
Proof. apply outer_loop_stops. Qed.

Lemma absorb_monotone rh h :
  ext_le (m_global_augmented_incumbent_objective (absorb_driver_incumbents rh h))
         (m_global_augmented_incumbent_objective h) /\
  ext_le (m_feasible_incumbent_objective (absorb_driver_incumbents rh h))
         (m_feasible_incumbent_objective h).
Proof.
  unfold absorb_driver_incumbents.
  destruct (try_update_monotone (m_global_augmented_incumbent_solution rh)
              (m_global_augmented_incumbent_score rh) h) as (_ & Hg1 & Hf1).
  destruct (m_found_feasible_solution rh); [|split; assumption].
  destruct (try_update_monotone (m_feasible_incumbent_solution rh)
              (m_feasible_incumbent_score rh)
              (snd (try_update_incumbent (m_global_augmented_incumbent_solution rh)
                      (m_global_augmented_incumbent_score rh) h))) as (_ & Hg2 & Hf2).
  split; eapply ext_le_trans; eassumption.
Qed.

(** C16. No incumbent of [solve] gets worse from one loop to the next: the
    global augmented and the feasible incumbent objectives are
    non-increasing (spec, section 8, property 8). *)
Theorem outer_step_incumbents_monotone st st' :
  outer_step master number_of_not_fixed_variables clock mt tabu_search_solve st = Some st' ->
  ext_le (m_global_augmented_incumbent_objective (st_incumbent_holder st'))
         (m_global_augmented_incumbent_objective (st_incumbent_holder st)) /\
  ext_le (m_feasible_incumbent_objective (st_incumbent_holder st'))
         (m_feasible_incumbent_objective (st_incumbent_holder st)).
Proof. intros H. invert_step H; apply absorb_monotone. Qed.

Section Invariant.

(** Admissible options. *)
Hypothesis H_initial : (0 <= initial_penalty_coefficient master)%Q.
Hypothesis H_tightening : (0 <= penalty_coefficient_tightening_rate master)%Q.
Hypothesis H_balance : (0 <= penalty_coefficient_updating_balance master <= 1)%Q.
Hypothesis H_relaxing : (0 <= penalty_coefficient_relaxing_rate master <= 1)%Q.
Hypothesis H_tenure : 1 <= ts_initial_tabu_tenure (tabu_search master).
Hypothesis H_free : 1 <= number_of_not_fixed_variables.
Hypothesis H_threshold : 1 <= penalty_coefficient_reset_count_threshold master.

(** The driver reports non-negative violations. *)
Hypothesis H_violations : forall o l g v h m,
  Forall (Forall (fun x => 0 <= x)%Q)
    (violation_value_proxies (m_local_augmented_incumbent_solution
       (tsr_incumbent_holder (tabu_search_solve o l g v h m)))).

(** What holds of every state the loop reaches. *)
Definition solver_inv (st : SolverState) : Prop :=
  (exists q, m_global_augmented_incumbent_objective (st_incumbent_holder st) = QFin q) /\
  coeffs_bounded (initial_penalty_coefficient master) (st_local_penalty st) /\
  coeffs_bounded (initial_penalty_coefficient master) (st_global_penalty st) /\
  tenure_ok master number_of_not_fixed_variables (st_next_initial_tabu_tenure st) /\
  0 <= st_next_number_of_initial_modification st /\
  0 <= st_not_update_count st < penalty_coefficient_reset_count_threshold master /\
  special_flags_ok master (st_neighborhood st).

Lemma outer_step_inv st st' : solver_inv st -> lstep st = Some st' -> solver_inv st'.
Proof.
  intros (Hfin & Hloc & Hglob & Hten & Hnim & Hcnt & Hfl) H.
  pose proof H as H'. revert H'. unfold outer_step. cbv zeta.
  destruct (restart_solution _ _ _) as [is_changed current].
  destruct (update_stagnation _ _ _) as [c reset] eqn:Estag.
  destruct (update_local_penalty _ _ _ _ _ _) as [local|] eqn:Epen; [|discriminate].
  destruct (update_initial_modification _ _ _ _ _ _) as [nim drawn] eqn:Enim.
  intros E. injection E as <-. unfold solver_inv. cbn [st_incumbent_holder st_local_penalty st_global_penalty
    st_next_initial_tabu_tenure st_next_number_of_initial_modification st_not_update_count
    st_neighborhood].
  split; [apply absorb_global_fin|].
  split; [exact (update_local_penalty_bounded master _ _ _ _ _ _ H_initial H_tightening
                   H_balance H_relaxing (H_violations _ _ _ _ _ _) Hloc Hglob Epen)|].
  split; [exact Hglob|].
  split; [apply update_tabu_tenure_ok; assumption|].
  split.
  { match type of Enim with update_initial_modification ?m ?s ?i ?t ?p ?u = _ =>
      pose proof (update_initial_modification_nonneg m s i t p u Hnim) end.
    rewrite Enim in *. assumption. }
  split.
  { match type of Estag with update_stagnation ?s ?c0 ?th = _ =>
      pose proof (update_stagnation_bounds s c0 th H_threshold Hcnt) end.
    rewrite Estag in *. assumption. }
  apply switch_special_moves_ok, Hfl.
Qed.

(** The states the loop reaches from [st0]. *)
Inductive reachable (st0 : SolverState) : SolverState -> Prop :=
  | reachable_start : reachable st0 st0
  | reachable_step st st' :
      reachable st0 st ->
      loop_step master number_of_not_fixed_variables clock mt tabu_search_solve st st' ->
      reachable st0 st'.

Lemma reachable_inv st0 st : solver_inv st0 -> reachable st0 st -> solver_inv st.
Proof.
  intros H0 Hr. induction Hr as [|st st' _ IH Hstep]; [exact H0|].
  inversion Hstep as [? ? _ Hs]; subst. eapply outer_step_inv; eassumption.
Qed.

Lemma phases_global_fin p q lagr ls is_linear nsel shape :
  m_global_augmented_incumbent_objective (pl_incumbent_holder p) = QFin q ->
  exists q', m_global_augmented_incumbent_objective (pl_incumbent_holder
    (local_search_phase master shape ls (lagrange_dual_phase master is_linear nsel shape lagr p)))
    = QFin q'.
Proof.
  intros Hq. unfold local_search_phase, lagrange_dual_phase.
  repeat case_match; cbn [pl_incumbent_holder];
    solve [apply absorb_global_fin | eexists; eassumption].
Qed.

Lemma initial_penalty_bounded shape :
  coeffs_bounded (initial_penalty_coefficient master) (initial_penalty master shape).
Proof.
  unfold coeffs_bounded, initial_penalty, generate_constraint_parameter_proxies.
  apply Forall_fmap, Forall_forall. intros n _. apply Forall_forall.
  intros e He. apply list_elem_of_In, repeat_spec in He as ->.
  split; [exact H_initial | apply Qle_refl].
Qed.

(** C14. Every state the loop reaches from the state [solve] builds before
    it (lines 182-471) satisfies [solver_inv]: a finite global augmented
    incumbent, local and global penalty coefficients in
    [[0, initial_penalty_coefficient]], a tenure in
    [[1, max(initial tenure, free variables)]], a non-negative number of
    initial modifications, a stagnation counter below the reset threshold,
    and no special move family enabled that the options disable. *)
Theorem solve_loop_invariant is_linear nsel shape vprops sol0 sc0 lagr ls nb st :
  aggregation_move_enabled nb = false -> precedence_move_enabled nb = false ->
  variable_bound_move_enabled nb = false -> exclusive_move_enabled nb = false ->
  chain_move_enabled nb = false ->
  reachable (initial_state master is_linear nsel shape vprops sol0 sc0 lagr ls nb) st ->
  solver_inv st.
Proof.
  intros Ha Hp Hv He Hc. apply reachable_inv. unfold solver_inv, initial_state.
  cbn [st_incumbent_holder st_local_penalty st_global_penalty st_next_initial_tabu_tenure
       st_next_number_of_initial_modification st_not_update_count st_neighborhood].
  split.
  { destruct (try_update_global_fin sol0 sc0 (new_holder default_solution)) as [q Hq].
    eapply phases_global_fin. exact Hq. }
  split; [apply initial_penalty_bounded|]. split; [apply initial_penalty_bounded|].
  split; [unfold tenure_ok; lia|]. split; [lia|]. split; [lia|].
  unfold special_flags_ok. cbn. rewrite Ha, Hp, Hv, He, Hc. intuition discriminate.
Qed.

End Invariant.

End LoopProperties.

(** ** Examples *)

Definition example_ts_option : TabuSearchOption :=
  mkTabuSearchOption 10 0 1 3 0 true true (3 # 2) (1 # 2) (1 # 2) true RestartGlobal.

Definition example_option : Option :=
  mkOption 5 100 DEFAULT_TARGET_OBJECTIVE 1 1 (1 # 2) (1 # 2) 2 false false false
    true true false false false false false false SelectionNone 1 example_ts_option.

Definition example_solution : Solution := mkSolution [[1; 0]] [[0%Q]] true.

(** A tabu search that always reports the same incumbent, found by its
    own holder, and records one move in the memory. *)
Definition example_driver (o : Option) (l g : list (list Q)) (v : list (list Z))
    (h : IncumbentHolder Solution) (m : Memory) : TabuSearchResult :=
  mkTabuSearchResult
    (snd (try_update_incumbent example_solution witness_score (new_holder default_solution)))
    3 false 0 10
    (update (mkMove MS_Binary [(mkVarRef 0 0, 1)] []) 1 m).

Definition example_state0 : SolverState :=
  initial_state example_option false 0 [1%nat] [("x"%string, 2%nat)]
    (mkSolution [[0; 0]] [[1%Q]] false) default_score (fun _ _ _ _ h => mkLagrangeDualResult h 0)
    (fun _ _ _ _ h m => mkLocalSearchResult h 0 m)
    (mkNeighborhood false false false false false false false false false 0).

Definition example_step : SolverState -> option SolverState :=
  outer_step example_option 4 (fun _ => 0%Q) (fun n => Z.of_nat n * 7) example_driver.

Definition example_state1 : SolverState :=
  match example_step example_state0 with Some s => s | None => example_state0 end.

Lemma update_stagnation_resets_without_global_update_witness :
  1 <> 0 /\ has_bit 1 STATUS_GLOBAL_AUGMENTED_INCUMBENT_UPDATE = false /\
  update_stagnation 1 3 5 = (0, false).
Proof.
  split; [lia|]. split; [reflexivity|].
  apply update_stagnation_resets_without_global_update; [lia | reflexivity].
Defined.

Lemma update_tabu_tenure_bounds_witness :
  tenure_ok example_option 4 (update_tabu_tenure example_option 4 0 2 (DFin 1) (DFin 0)).
Proof.
  apply update_tabu_tenure_bounds; unfold tenure_ok; vm_compute; try split; discriminate.
Defined.

Lemma update_initial_modification_random_witness :
  exists offset, update_initial_modification example_option 0 false 20 0 7 =
                   (Z.max 1 (10 + offset), true) /\
                 offset = 7 mod (2 * 5) - 5 /\ - 5 <= offset < 5.
Proof.
  apply (update_initial_modification_random example_option 0 20 0 7);
    vm_compute; try reflexivity; discriminate.
Defined.

Lemma normalize_target_maximization_witness :
  ((-7) <= normalize_target 5 (-1) true <-> 5 <= - (-7))%Q.
Proof. apply normalize_target_maximization. vm_compute. reflexivity. Defined.

Lemma update_iteration_max_bounds_witness :
  3 <= update_iteration_max example_option
         (example_driver example_option [] [] [] (new_holder default_solution) example_memory)
         10 7 <= Z.max 3 10.
Proof. apply (update_iteration_max_bounds example_option); vm_compute; split; discriminate. Defined.

Lemma outer_step_incumbents_monotone_witness :
  example_step example_state0 = Some example_state1 /\
  ext_le (m_global_augmented_incumbent_objective (st_incumbent_holder example_state1))
         (m_global_augmented_incumbent_objective (st_incumbent_holder example_state0)) /\
  ext_le (m_feasible_incumbent_objective (st_incumbent_holder example_state1))
         (m_feasible_incumbent_objective (st_incumbent_holder example_state0)).
Proof.
  assert (E : example_step example_state0 = Some example_state1) by (vm_compute; reflexivity).
  split; [exact E | exact (outer_step_incumbents_monotone _ _ _ _ _ _ _ E)].
Defined.

Lemma solve_loop_invariant_witness : solver_inv example_option 4 example_state1.
Proof.
  eapply (solve_loop_invariant example_option 4 (fun _ => 0%Q) (fun n => Z.of_nat n * 7)
            example_driver);
    [.. | eapply reachable_step;
          [exact (reachable_start example_option 4 (fun _ => 0%Q) (fun n => Z.of_nat n * 7)
                    example_driver example_state0)
          | constructor; vm_compute; reflexivity]].
  all: try (intros; vm_compute; repeat constructor; easy).
Defined.
