(* ===== verification/SolveResult.v ===== *)
(** The entry and the exit of [solve] (src/cppmh/solver/solver.h, lines
    36-85 and 1018-1090), and [solve] as a whole: the guard against a
    second solve, the normalised options, the phases before the loop and
    the loop of [Solver], then the export of the result (the incumbent
    re-evaluated by the model, the final local penalty coefficients and
    the update counts named after their proxies, and the iteration
    counters).  The model's own re-evaluation of the incumbent
    ([import_variable_values], [update], [export_solution]) is a Section
    variable; the elapsed time, the model summary and the historical
    solutions are not modelled. *)

From Stdlib Require Import String.
From stdpp Require Import gmap strings.
From S2P Require Import Prelude Score Incumbent Memory Penalty SolverTypes Solver.

Local Open Scope Z_scope.

(** The error of a second [solve] on the same model (spec, section 7):
    [std::logic_error("This model has already been solved.")]. *)
Inductive SolveError : Type := AlreadySolved.

(** Lines 40-46: a solved model is refused; otherwise it is marked as
    solved before anything else is done.  The [bool] is the model's new
    [is_solved] flag. *)
Definition check_not_solved (is_solved : bool) : SolveError + bool :=
  if is_solved then inl AlreadySolved else inr true.

(** Lines 62-85: [master_option], the copy of the option whose target is
    normalised; every other member is copied. *)
Definition normalize_option (opt : Option) (sign : Q) (is_defined_objective : bool) : Option :=
  {| iteration_max := iteration_max opt;
     time_max := time_max opt;
     target_objective_value :=
       normalize_target (target_objective_value opt) sign is_defined_objective;
     initial_penalty_coefficient := initial_penalty_coefficient opt;
     penalty_coefficient_tightening_rate := penalty_coefficient_tightening_rate opt;
     penalty_coefficient_relaxing_rate := penalty_coefficient_relaxing_rate opt;
     penalty_coefficient_updating_balance := penalty_coefficient_updating_balance opt;
     penalty_coefficient_reset_count_threshold := penalty_coefficient_reset_count_threshold opt;
     is_enabled_grouping_penalty_coefficient := is_enabled_grouping_penalty_coefficient opt;
     is_enabled_lagrange_dual := is_enabled_lagrange_dual opt;
     is_enabled_local_search := is_enabled_local_search opt;
     is_enabled_binary_move := is_enabled_binary_move opt;
     is_enabled_integer_move := is_enabled_integer_move opt;
     is_enabled_user_defined_move := is_enabled_user_defined_move opt;
     is_enabled_aggregation_move := is_enabled_aggregation_move opt;
     is_enabled_precedence_move := is_enabled_precedence_move opt;
     is_enabled_variable_bound_move := is_enabled_variable_bound_move opt;
     is_enabled_exclusive_move := is_enabled_exclusive_move opt;
     is_enabled_chain_move := is_enabled_chain_move opt;
     selection_mode := selection_mode opt;
     seed := seed opt;
     tabu_search := tabu_search opt |}.

(** Lines 1049-1054 and 1060-1066: [named[names[i]] = values[i]] for
    every [i] below [size], in increasing order, into an
    [std::unordered_map]: a name met again overwrites the earlier value,
    and a read past the end of either vector (undefined) is [None]. *)
Definition name_values {A} (size : nat) (names : list string) (values : list A)
    : option (gmap string A) :=
  fold_left (fun acc i => m ← acc; n ← names !! i; v ← values !! i; Some (<[n := v]> m))
    (seq 0 size) (Some ∅).

(** [result.status]: the members [solve] sets, but the model summary and
    the elapsed time. *)
Record SolveStatus : Type := mkSolveStatus {
  penalty_coefficients : gmap string (list Q);
  update_counts : gmap string (list Z);
  is_found_feasible_solution : bool;
  number_of_lagrange_dual_iterations : Z;
  number_of_local_search_iterations : Z;
  number_of_tabu_search_iterations : Z;
  number_of_tabu_search_loops : Z
}.

(** [Result]: the (named) solution and the status. *)
Record SolveResult : Type := mkSolveResult {
  result_solution : Solution;
  result_status : SolveStatus
}.

Section ResultExport.

(** [model->constraint_names()], [model->variable_proxies()] as names and
    sizes, and the model's re-evaluation of a solution (lines 1037-1039). *)
Context (constraint_shape : list nat) (constraint_names : list string)
        (variable_proxies : list (string * nat)) (reevaluate : Solution -> Solution).

(** Lines 1028-1090, from what the phases before the loop and the loop
    leave. *)
Definition export_result (p : PreLoop) (st : SolverState) : option SolveResult :=
  let incumbent := reevaluate (final_incumbent (st_incumbent_holder st)) in
  named_penalty ← name_values (length constraint_shape) constraint_names (st_local_penalty st);
  named_counts ← name_values (length variable_proxies) (map fst variable_proxies)
                   (m_update_counts (st_memory st));
  Some {| result_solution := incumbent;
          result_status :=
            {| penalty_coefficients := named_penalty;
               update_counts := named_counts;
               is_found_feasible_solution := solution_is_feasible incumbent;
               number_of_lagrange_dual_iterations := pl_number_of_lagrange_dual_iterations p;
               number_of_local_search_iterations := pl_number_of_local_search_iterations p;
               number_of_tabu_search_iterations := st_number_of_tabu_search_iterations st;
               number_of_tabu_search_loops := st_number_of_tabu_search_loops st |} |}.

End ResultExport.

(** ** Naming the proxies *)

Lemma name_values_S {A} k names (values : list A) :
  name_values (S k) names values =
  m ← name_values k names values; n ← names !! k; v ← values !! k; Some (<[n := v]> m).
Proof. unfold name_values. rewrite seq_S, fold_left_app. reflexivity. Qed.

(** Within both vectors the loop never fails. *)
Lemma name_values_some {A} size names (values : list A) :
  (size <= length names)%nat -> (size <= length values)%nat ->
  is_Some (name_values size names values).
Proof.
  induction size as [|k IH]; intros Hn Hv; [eexists; reflexivity|].
  rewrite name_values_S. destruct (IH ltac:(lia) ltac:(lia)) as [m ->].
  destruct (lookup_lt_is_Some_2 names k ltac:(lia)) as [n ->].
  destruct (lookup_lt_is_Some_2 values k ltac:(lia)) as [v ->]. eexists; reflexivity.
Qed.

(** C28. Naming is a round trip when the names are distinct: the map
    the loops of lines 1049-1066 build gives every name [names[i]] the
    value [values[i]], and it holds exactly the first [size] names. *)
Theorem name_values_lookup {A} size names (values : list A) :
  (size <= length names)%nat -> (size <= length values)%nat -> NoDup (take size names) ->
  exists m, name_values size names values = Some m /\
    (forall i, (i < size)%nat -> exists n v,
        names !! i = Some n /\ values !! i = Some v /\ m !! n = Some v) /\
    (forall n, is_Some (m !! n) <-> n ∈ take size names).
Proof.
  induction size as [|k IH]; intros Hn Hv Hnd.
  - exists ∅. split; [reflexivity|]. split; [lia|]. intros n. rewrite lookup_empty.
    split; [intros [? ?]; discriminate | intros H; apply not_elem_of_nil in H; contradiction].
  - destruct (lookup_lt_is_Some_2 names k ltac:(lia)) as [nk Hnk].
    destruct (lookup_lt_is_Some_2 values k ltac:(lia)) as [vk Hvk].
    rewrite (take_S_r _ _ _ Hnk) in Hnd |- *. apply NoDup_app in Hnd as (Hnd & Hfresh & _).
    destruct (IH ltac:(lia) ltac:(lia) Hnd) as (m & Hm & Hlook & Hdom).
    exists (<[nk := vk]> m). rewrite name_values_S, Hm, Hnk, Hvk. split; [reflexivity|]. split.
    + intros i Hi. destruct (decide (i = k)) as [->|Hik].
      * exists nk, vk. rewrite lookup_insert_eq. auto.
      * destruct (Hlook i ltac:(lia)) as (n & v & Hn' & Hv' & Hmn). exists n, v.
        rewrite lookup_insert_ne; [auto|]. intros E. apply (Hfresh n); [|rewrite E; left].
        apply list_elem_of_lookup_2 with i. rewrite lookup_take_lt by lia. exact Hn'.
    + intros n. rewrite lookup_insert_is_Some', elem_of_app, list_elem_of_singleton, Hdom.
      split; intros [H|H]; [right; congruence | left; exact H | right; exact H | left; congruence].
Qed.

(** ** Shapes along the loop *)

(** The penalty update keeps the number of constraint proxies. *)
Lemma update_local_penalty_length master reset gap sol local global local' :
  length global = length local ->
  update_local_penalty master reset gap sol local global = Some local' ->
  length local' = length local.
Proof.
  intros Hg. unfold update_local_penalty.
  repeat case_match; intros Hupd; try discriminate; injection Hupd as <-;
    [exact Hg | unfold tighten | unfold relax]; apply length_imap.
Qed.

(** The lengths the export reads: the local and global coefficients have
    one entry per constraint proxy, the memory one per variable proxy. *)
Definition shapes_ok (nc nv : nat) (st : SolverState) : Prop :=
  length (st_local_penalty st) = nc /\ length (st_global_penalty st) = nc /\
  length (m_update_counts (st_memory st)) = nv.

Section Shapes.

Context (master : Option) (number_of_not_fixed_variables : Z) (clock : Z -> Q) (mt : nat -> Z)
        (tabu_search_solve : Option -> list (list Q) -> list (list Q) -> list (list Z) ->
                             IncumbentHolder Solution -> Memory -> TabuSearchResult).

(** The tabu search hands back a memory of the shape it was given. *)
Hypothesis H_ts_memory : forall o l g v h m,
  length (m_update_counts (tsr_memory (tabu_search_solve o l g v h m))) =
  length (m_update_counts m).

Lemma outer_step_shapes nc nv st st' :
  shapes_ok nc nv st ->
  outer_step master number_of_not_fixed_variables clock mt tabu_search_solve st = Some st' ->
  shapes_ok nc nv st'.
Proof.
  intros (Hl & Hg & Hm). unfold outer_step. cbv zeta.
  destruct (restart_solution _ _ _) as [is_changed current].
  destruct (update_stagnation _ _ _) as [c reset].
  destruct (update_local_penalty _ _ _ _ _ _) as [local|] eqn:Epen; [|discriminate].
  destruct (update_initial_modification _ _ _ _ _ _) as [nim drawn].
  intros E. injection E as <-. unfold shapes_ok; cbn [st_local_penalty st_global_penalty st_memory].
  rewrite H_ts_memory, (update_local_penalty_length _ _ _ _ _ _ _ (eq_trans Hg (eq_sym Hl)) Epen).
  auto.
Qed.

Lemma outer_loop_shapes nc nv fuel st st' :
  shapes_ok nc nv st ->
  outer_loop master number_of_not_fixed_variables clock mt tabu_search_solve fuel st = Some st' ->
  shapes_ok nc nv st'.
Proof.
  revert st. induction fuel as [|fuel IH]; intros st Hs H; cbn [outer_loop] in H; [discriminate|].
  destruct (loop_should_stop _ _ st); [injection H as <-; exact Hs|].
  destruct (outer_step _ _ _ _ _ st) as [st1|] eqn:E; [|discriminate].
  exact (IH _ (outer_step_shapes _ _ _ _ Hs E) H).
Qed.

End Shapes.

(** The state the loop starts from has the shapes of the model, when the
    local search hands back a memory of the shape it was given. *)
Lemma initial_state_shapes master is_linear nsel shape vps sol sc lagr ls nb :
  (forall o l g v h m,
     length (m_update_counts (lsr_memory (ls o l g v h m))) = length (m_update_counts m)) ->
  shapes_ok (length shape) (length vps) (initial_state master is_linear nsel shape vps sol sc lagr ls nb).
Proof.
  intros Hls. unfold shapes_ok, initial_state, initial_penalty, generate_constraint_parameter_proxies.
  cbn [st_local_penalty st_global_penalty st_memory]. rewrite length_fmap.
  split; [reflexivity|]. split; [reflexivity|].
  unfold local_search_phase, lagrange_dual_phase.
  repeat case_match; cbn [pl_memory initial_pre_loop]; rewrite ?Hls; cbn [pl_memory initial_pre_loop setup m_update_counts];
    apply length_map.
Qed.

Section Solve.

(** What [solve] reads from the model: its sign, whether it has an
    objective, its number of free variables, linearity, the number of
    selection variables, the constraint proxies (sizes and names), the
    variable proxies, the initial solution and its score, the
    neighbourhood before line 134, and its re-evaluation of a solution. *)
Context (sign : Q) (is_defined_objective : bool) (number_of_not_fixed_variables : Z)
        (is_linear : bool) (number_of_selection_variables : Z)
        (constraint_shape : list nat) (constraint_names : list string)
        (variable_proxies : list (string * nat))
        (initial_solution : Solution) (initial_score : SolutionScore)
        (nb : Neighborhood) (reevaluate : Solution -> Solution).

(** The clock, the random generator and the three drivers. *)
Context (clock : Z -> Q) (mt : nat -> Z)
        (lagrange_dual_solve : Option -> list (list Q) -> list (list Q) -> list (list Z) ->
                               IncumbentHolder Solution -> LagrangeDualResult)
        (local_search_solve : Option -> list (list Q) -> list (list Q) -> list (list Z) ->
                              IncumbentHolder Solution -> Memory -> LocalSearchResult)
        (tabu_search_solve : Option -> list (list Q) -> list (list Q) -> list (list Z) ->
                             IncumbentHolder Solution -> Memory -> TabuSearchResult).

(** [solve(model, option)], with fuel for the loop: the error of a solved
    model, or the model's new [is_solved] flag with the result ([None]
    when the fuel runs out or a vector is read past its end). *)
Definition solve (opt : Option) (is_solved : bool) (fuel : nat)
    : SolveError + (bool * option SolveResult) :=
  match check_not_solved is_solved with
  | inl e => inl e
  | inr flag =>
      let master := normalize_option opt sign is_defined_objective in
      let p := local_search_phase master constraint_shape local_search_solve
                 (lagrange_dual_phase master is_linear number_of_selection_variables
                    constraint_shape lagrange_dual_solve
                    (initial_pre_loop variable_proxies initial_solution initial_score)) in
      let st0 := initial_state master is_linear number_of_selection_variables constraint_shape
                   variable_proxies initial_solution initial_score lagrange_dual_solve
                   local_search_solve nb in
      inr (flag, st ← outer_loop master number_of_not_fixed_variables clock mt
                        tabu_search_solve fuel st0;
                 export_result constraint_shape constraint_names variable_proxies reevaluate p st)
  end.

(** The model's consistency and the drivers' contract on the memory. *)
Hypothesis H_names : length constraint_names = length constraint_shape.
Hypothesis H_ls_memory : forall o l g v h m,
  length (m_update_counts (lsr_memory (local_search_solve o l g v h m))) =
  length (m_update_counts m).
Hypothesis H_ts_memory : forall o l g v h m,
  length (m_update_counts (tsr_memory (tabu_search_solve o l g v h m))) =
  length (m_update_counts m).

(** C29. [solve] always returns: on a model not yet solved, with one
    round of fuel more than [iteration_max], whatever the drivers report,
    the clock says and the random generator draws, it marks the model as
    solved and returns a result (the loop reaches a stopping state and
    the export reads no vector past its end). *)
Theorem solve_returns_result opt :
  exists r, solve opt false (S (Z.to_nat (iteration_max opt))) = inr (true, Some r).
Proof.
  unfold solve. cbn [check_not_solved].
  set (master := normalize_option opt sign is_defined_objective).
  set (st0 := initial_state master is_linear number_of_selection_variables constraint_shape
                variable_proxies initial_solution initial_score lagrange_dual_solve
                local_search_solve nb).
  destruct (outer_loop_stops master number_of_not_fixed_variables clock mt tabu_search_solve st0)
    as (st & Hloop & _).
  replace (Z.to_nat (iteration_max opt)) with (Z.to_nat (iteration_max master - st_iteration st0))
    by (cbn; f_equal; lia).
  rewrite Hloop. cbn [mbind option_bind].
  destruct (outer_loop_shapes _ _ _ _ _ H_ts_memory _ _ _ _ _
              (initial_state_shapes _ _ _ _ _ _ _ _ _ nb H_ls_memory) Hloop) as (Hl & _ & Hm).
  unfold export_result.
  destruct (name_values_some (length constraint_shape) constraint_names (st_local_penalty st))
    as [m1 ->]; [lia | lia |].
  destruct (name_values_some (length variable_proxies) (map fst variable_proxies)
              (m_update_counts (st_memory st))) as [m2 ->]; [rewrite length_map; lia | lia |].
  eexists; reflexivity.
Qed.

(** C30. The model is solved once: [solve] on a fresh model succeeds and
    marks it as solved, and any later [solve] on it, with any options,
    stops with [AlreadySolved] before doing anything (lines 40-46). *)
Theorem solve_twice_already_solved opt opt' fuel fuel' :
  match solve opt false fuel with
  | inr (flag, _) => solve opt' flag fuel' = inl AlreadySolved
  | inl _ => False
  end.
Proof. unfold solve. cbn [check_not_solved]. reflexivity. Qed.

End Solve.

(** ** Witnesses *)

(** A tabu search that reports no improvement and hands back the memory
    it was given. *)
Definition idle_tabu_search (o : Option) (l g : list (list Q)) (v : list (list Z))
    (h : IncumbentHolder Solution) (m : Memory) : TabuSearchResult :=
  mkTabuSearchResult h 0 false 0 10 m.

Lemma solve_returns_result_witness :
  exists r, solve 1 true 4 false 0 [1%nat] ["g"%string] [("x"%string, 2%nat)]
              (mkSolution [[0; 0]] [[1%Q]] false) default_score
              (mkNeighborhood false false false false false false false false false 0)
              (fun s => s) (fun _ => 0%Q) (fun n => Z.of_nat n)
              (fun _ _ _ _ h => mkLagrangeDualResult h 0)
              (fun _ _ _ _ h m => mkLocalSearchResult h 0 m) idle_tabu_search
              example_option false (S (Z.to_nat (iteration_max example_option)))
            = inr (true, Some r).
Proof.
  apply solve_returns_result; [reflexivity | intros; reflexivity | intros; reflexivity].
Defined.

Lemma name_values_lookup_witness :
  exists m, name_values 2 ["g"; "h"]%string [[1%Q]; [2%Q; 3%Q]] = Some m /\
    (forall i, (i < 2)%nat -> exists n v,
        ["g"; "h"]%string !! i = Some n /\ [[1%Q]; [2%Q; 3%Q]] !! i = Some v /\ m !! n = Some v) /\
    (forall n, is_Some (m !! n) <-> n ∈ take 2 ["g"; "h"]%string).
Proof.
  apply name_values_lookup; [cbn; lia | cbn; lia |].
  exact (bool_decide_unpack (NoDup (take 2 ["g"; "h"]%string)) I).
Defined.
