(* ===== verification/QapMain.v ===== *)
(** The QAPLIB front end (src/application/qap_solver/main.cpp): the usage
    test, the argument loop and the option overrides before [solve].

    [argv] is the list of the program's arguments, [argv[0]] first.  The
    loop reads [args[i + 1]] after a trailing ["-p"], past the end of the
    vector: undefined behaviour, which the model reports as
    [MissingOptionFileName].  Reading the QAPLIB file and the option file,
    [solve] itself and the output files are I/O and are not modelled. *)

From Stdlib Require Import String.
From S2P Require Import Prelude SolverTypes.

Local Open Scope string_scope.

#[local] Instance string_eq_decision : EqDecision string := string_dec.

(** The outcome of the argument handling. *)
Inductive ParseResult : Type :=
  | Usage                                    (** no argument: usage, [exit(1)] *)
  | MissingOptionFileName                    (** ["-p"] as the last argument *)
  | OutOfFuel
  | Parsed (qap_file_name option_file_name : string).

(** The [while (i < args.size())] loop of lines 35-43, from index [i],
    with the two names read so far. *)
Fixpoint parse_arguments (fuel : nat) (args : list string) (i : nat)
    (qap_file_name option_file_name : string) : ParseResult :=
  match fuel with
  | O => OutOfFuel
  | S fuel =>
      if decide (i < length args)%nat then
        if decide (args !! i = Some "-p") then
          match args !! S i with
          | Some v => parse_arguments fuel args (i + 2) qap_file_name v
          | None => MissingOptionFileName
          end
        else parse_arguments fuel args (S i) (default EmptyString (args !! i)) option_file_name
      else Parsed qap_file_name option_file_name
  end.

(** Lines 18-43: the usage test on [argv[1]], then the loop from 1 with
    empty names and one round of fuel per argument. *)
Definition main_arguments (argv : list string) : ParseResult :=
  match argv with
  | [] | [_] => Usage
  | _ => parse_arguments (length argv) argv 1 EmptyString EmptyString
  end.

(** Lines 56-64: the option read from the file (or the defaults) with the
    move families the QAP model needs: only user-defined moves.  The
    [improvability_screening_mode] member is not part of [Option] here. *)
Definition configure_option (read : Option) : Option :=
  {| iteration_max := iteration_max read;
     time_max := time_max read;
     target_objective_value := target_objective_value read;
     initial_penalty_coefficient := initial_penalty_coefficient read;
     penalty_coefficient_tightening_rate := penalty_coefficient_tightening_rate read;
     penalty_coefficient_relaxing_rate := penalty_coefficient_relaxing_rate read;
     penalty_coefficient_updating_balance := penalty_coefficient_updating_balance read;
     penalty_coefficient_reset_count_threshold := penalty_coefficient_reset_count_threshold read;
     is_enabled_grouping_penalty_coefficient := is_enabled_grouping_penalty_coefficient read;
     is_enabled_lagrange_dual := is_enabled_lagrange_dual read;
     is_enabled_local_search := is_enabled_local_search read;
     is_enabled_binary_move := false;
     is_enabled_integer_move := false;
     is_enabled_user_defined_move := true;
     is_enabled_aggregation_move := is_enabled_aggregation_move read;
     is_enabled_precedence_move := is_enabled_precedence_move read;
     is_enabled_variable_bound_move := is_enabled_variable_bound_move read;
     is_enabled_exclusive_move := is_enabled_exclusive_move read;
     is_enabled_chain_move := false;
     selection_mode := selection_mode read;
     seed := seed read;
     tabu_search := tabu_search read |}.

(** ** The program *)

Section Main.

(** The I/O [main] calls: the QAPLIB reader, [utility::base_name],
    [Model::set_name], the option-file reader, the default [Option] and
    [solve]. *)
Context {QapModel SolveResult : Type}.
Variable create_model_from_qaplib : string -> QapModel.
Variable base_name : string -> string.
Variable set_name : string -> QapModel -> QapModel.
Variable read_option : string -> Option.
Variable default_option : Option.
Variable solve : QapModel -> Option -> SolveResult.

(** Lines 53-64: the option of the file when one is given, the defaults
    otherwise, with the overrides of [configure_option]. *)
Definition main_option (option_file_name : string) : Option :=
  configure_option
    (if String.eqb option_file_name EmptyString then default_option
     else read_option option_file_name).

(** Lines 18-69: the arguments, the model read from the QAPLIB file and
    named after it, the option, and [solve]; where [main] stops before
    [solve] (usage, or the undefined read after a trailing ["-p"]) the
    outcome of the argument handling. *)
Definition main_run (argv : list string) : ParseResult + SolveResult :=
  match main_arguments argv with
  | Parsed qap opt =>
      inr (solve (set_name (base_name qap) (create_model_from_qaplib qap)) (main_option opt))
  | r => inl r
  end.

End Main.

(** ** Reference parser *)

(** The arguments read left to right: ["-p" v] sets the option file name,
    any other argument the QAP file name; the last one of each wins. *)
Fixpoint parse_spec (l : list string) (qap opt : string) : option (string * string) :=
  match l with
  | [] => Some (qap, opt)
  | a :: rest =>
      if decide (a = "-p") then
        match rest with
        | v :: rest' => parse_spec rest' qap v
        | [] => None
        end
      else parse_spec rest a opt
  end.

(** ** Properties *)

(** The loop from index [i] reads [drop i args] as the reference parser
    does, given one round of fuel per remaining argument. *)
Lemma parse_arguments_drop fuel args i qap opt :
  (length args - i < fuel)%nat ->
  parse_arguments fuel args i qap opt =
  match parse_spec (drop i args) qap opt with
  | Some (q, o) => Parsed q o
  | None => MissingOptionFileName
  end.
Proof.
  revert i qap opt. induction fuel as [|fuel IH]; intros i qap opt Hf; [lia|].
  cbn [parse_arguments]. destruct (decide (i < length args)%nat) as [Hi|Hi].
  - destruct (lookup_lt_is_Some_2 args i Hi) as [a Ha].
    rewrite (drop_S _ a) by exact Ha. cbn [parse_spec]. rewrite Ha.
    destruct (decide (Some a = Some "-p")) as [E|E].
    + injection E as ->. rewrite decide_True by reflexivity.
      destruct (args !! S i) as [v|] eqn:Hv.
      * rewrite (drop_S _ v) by exact Hv. rewrite IH by lia.
        replace (i + 2)%nat with (S (S i)) by lia. reflexivity.
      * rewrite drop_ge by (apply lookup_ge_None in Hv; exact Hv). reflexivity.
    + rewrite decide_False by congruence. cbn [default]. apply IH. lia.
  - rewrite drop_ge by lia. reflexivity.
Qed.

(** The reference parser is a left-to-right reading: a prefix that it
    reads to the end hands its two names on to the rest. *)
Lemma parse_spec_app l l' qap opt qap' opt' :
  parse_spec l qap opt = Some (qap', opt') ->
  parse_spec (l ++ l') qap opt = parse_spec l' qap' opt'.
Proof.
  remember (length l) as n eqn:Hn. revert l qap opt Hn.
  induction n as [n IH] using lt_wf_ind. intros [|a rest] qap opt Hn H; cbn in H |- *.
  - congruence.
  - destruct (decide (a = "-p")).
    + destruct rest as [|v rest']; [discriminate|]. cbn. apply (IH (length rest')); cbn in Hn;
        [lia | reflexivity | exact H].
    + apply (IH (length rest)); cbn in Hn; [lia | reflexivity | exact H].
Qed.

(** C25. The argument loop of [main] reads its arguments as the reference
    parser does: without an argument it prints the usage; otherwise the
    index loop, given one round per argument, always finishes (it never
    runs out of fuel) with the last ["-p"] value as the option file name
    and the last other argument as the QAP file name. *)
Theorem main_arguments_spec argv :
  main_arguments argv =
  if decide (length argv <= 1)%nat then Usage
  else match parse_spec (drop 1 argv) EmptyString EmptyString with
       | Some (q, o) => Parsed q o
       | None => MissingOptionFileName
       end.
Proof.
  destruct argv as [|p [|a rest]]; [reflexivity | reflexivity |].
  rewrite decide_False by (cbn; lia). unfold main_arguments.
  apply parse_arguments_drop. cbn. lia.
Qed.

(** C26. A trailing ["-p"] with no file name after it is the error
    branch: the C++ loop reads [args[i + 1]] past the end of the vector
    (undefined behaviour), which the model reports as
    [MissingOptionFileName]. *)
Theorem main_arguments_trailing_p prog args qap opt :
  parse_spec args EmptyString EmptyString = Some (qap, opt) ->
  main_arguments (prog :: args ++ ["-p"]) = MissingOptionFileName.
Proof.
  intros H. unfold main_arguments.
  destruct args as [|a args]; [reflexivity|].
  rewrite parse_arguments_drop by (cbn [length]; rewrite length_app; cbn; lia).
  change (drop 1 (prog :: (a :: args) ++ ["-p"])%list) with ((a :: args) ++ ["-p"])%list.
  rewrite (parse_spec_app _ _ _ _ _ _ H). reflexivity.
Qed.

Lemma main_arguments_trailing_p_witness :
  parse_spec ["tai12a.dat"] EmptyString EmptyString = Some ("tai12a.dat", EmptyString) /\
  main_arguments ["qap_solver.exe"; "tai12a.dat"; "-p"] = MissingOptionFileName.
Proof.
  split; [reflexivity|].
  exact (main_arguments_trailing_p "qap_solver.exe" ["tai12a.dat"] "tai12a.dat" EmptyString
           eq_refl).
Defined.
